(** * Python-N5-2025: the arcade games and the N5 exercises, embedded in Rocq

    The development follows the repository file by file:

    - [Racing]   : [AI Projects/racing game.py]  (Vector3, CarClass, Car3D,
                   Track3D, Game3D);
    - [Flappy]   : [AI Projects/flappybird.py]   (Game.update and helpers);
    - [Training] : [Question 1d - Program Building (2024).py];
    - [Mansion]  : [Mystery Mansion Game.py];
    - [Layout]   : Python's indentation rule, run on
                   [Traversing 1D array Task 2.py].

    The modules [Scenarios], [FlappyCases] and [TrainingCases] hold the
    concrete inputs and the predicates the statements use; the properties
    follow in [RacingFacts], [FlappyFacts], [TrainingFacts] and
    [ScriptFacts].

    Numbers.  Python [float]s of the racing game are idealised as real
    numbers ([R]): [math.sqrt], [math.cos], [math.sin], [math.tan] are the
    functions of the Standard Library's [Reals], comparisons are the total
    order of [R].  The flappy game only adds, subtracts and compares dyadic
    values, which are modelled exactly in [Q].  Python [int]s are [Z], list
    positions and counters that only grow are [nat]. *)

From Stdlib Require Import Reals Lra Lia List ZArith Bool.
From Stdlib Require Import String Ascii QArith Qround DecimalString.
Import ListNotations.

(** ** Comparisons on [R] as booleans *)

Module RBool.
Local Open Scope R_scope.

Definition Rltb (a b : R) : bool := if Rlt_dec a b then true else false.
Definition Rleb (a b : R) : bool := if Rle_dec a b then true else false.
Definition Rgtb (a b : R) : bool := Rltb b a.
Definition Reqb (a b : R) : bool := if Req_dec_T a b then true else false.

End RBool.

(** ** racing game.py *)

Module Racing.
Import RBool.
Local Open Scope R_scope.

(** *** Python numeric helpers used by the game *)

(** [math.radians] and [math.degrees]. *)
Definition radians (a : R) : R := a * PI / 180.
Definition degrees (a : R) : R := a * 180 / PI.

(** [a % 360] on floats: the result has the sign of the divisor,
    [a - 360 * floor (a / 360)].  On reals it is below 360; the float
    operation rounds, and gives exactly 360.0 for a tiny negative [a]. *)
Definition fmod360 (a : R) : R := a - 360 * IZR (Int_part (a / 360)).

(** [int(r)]: truncation towards zero. *)
Definition py_int (r : R) : Z :=
  if Rle_dec 0 r then Int_part r else (- Int_part (- r))%Z.

(** [math.atan2 dz dx]: the angle of the vector [(dx, dz)], in (-PI, PI]. *)
Definition atan2 (dz dx : R) : R :=
  if Rltb 0 dx then atan (dz / dx)
  else if Rltb dx 0 then
    (if Rleb 0 dz then atan (dz / dx) + PI else atan (dz / dx) - PI)
  else if Rltb 0 dz then PI / 2
  else if Rltb dz 0 then - (PI / 2)
  else 0.

(** *** Vector3 *)

Module Vector3.
Record t : Type := mk { x : R; y : R; z : R }.

Definition distance_to (self other : t) : R :=
  let dx := x other - x self in
  let dy := y other - y self in
  let dz := z other - z self in
  sqrt (dx * dx + dy * dy + dz * dz).

Definition length (self : t) : R :=
  sqrt (x self * x self + y self * y self + z self * z self).

(** The dataclass' generated [__eq__]: field by field. *)
Definition eqb (a b : t) : bool :=
  Reqb (x a) (x b) && Reqb (y a) (y b) && Reqb (z a) (z b).

End Vector3.

(** *** CarClass *)

Inductive CarClass : Type := ECONOMY | SPORTS | SUPERCAR | MUSCLE.

Record CarStats : Type := mkStats {
  stats_max_speed : R;
  stats_acceleration : R;
  stats_handling : R;
  stats_color : Z * Z * Z
}.

(** [car_class.value] *)
Definition value (c : CarClass) : CarStats :=
  match c with
  | ECONOMY  => mkStats 200 7 (95 / 100) (100, 150, 255)%Z
  | SPORTS   => mkStats 240 12 (88 / 100) (255, 80, 100)%Z
  | SUPERCAR => mkStats 300 16 (80 / 100) (255, 200, 50)%Z
  | MUSCLE   => mkStats 260 14 (75 / 100) (200, 80, 255)%Z
  end.

(** *** Keyboard state ([pygame.key.get_pressed ()]) *)

Inductive Key : Type :=
| K_LSHIFT | K_RSHIFT | K_w | K_UP | K_s | K_DOWN
| K_a | K_LEFT | K_d | K_RIGHT | K_SPACE | K_ESCAPE
| K_other (code : nat).

Definition Keys : Type := Key -> bool.

(** *** Car3D *)

Record Car3D : Type := mkCar {
  pos : Vector3.t;
  velocity : Vector3.t;
  angle_yaw : R;
  car_class : CarClass;
  is_player : bool;
  speed : R;
  lap_count : nat;
  last_checkpoint : nat;
  finished : bool;
  distance_traveled : R;
  is_reversing : bool;
  max_speed : R;
  acceleration : R;
  handling : R;
  color : Z * Z * Z
}.

(** [Car3D.__init__] *)
Definition Car3D_init (x y z : R) (cls : CarClass) (player : bool) : Car3D :=
  let stats := value cls in
  {| pos := Vector3.mk x y z;
     velocity := Vector3.mk 0 0 0;
     angle_yaw := 0;
     car_class := cls;
     is_player := player;
     speed := 0;
     lap_count := 0;
     last_checkpoint := 0;
     finished := false;
     distance_traveled := 0;
     is_reversing := false;
     max_speed := stats_max_speed stats;
     acceleration := stats_acceleration stats;
     handling := stats_handling stats;
     color := stats_color stats |}.

(** Attribute assignments. *)
Definition set_pos (c : Car3D) (p : Vector3.t) : Car3D :=
  mkCar p (velocity c) (angle_yaw c) (car_class c) (is_player c) (speed c)
        (lap_count c) (last_checkpoint c) (finished c) (distance_traveled c)
        (is_reversing c) (max_speed c) (acceleration c) (handling c) (color c).
Definition set_velocity (c : Car3D) (v : Vector3.t) : Car3D :=
  mkCar (pos c) v (angle_yaw c) (car_class c) (is_player c) (speed c)
        (lap_count c) (last_checkpoint c) (finished c) (distance_traveled c)
        (is_reversing c) (max_speed c) (acceleration c) (handling c) (color c).
Definition set_angle_yaw (c : Car3D) (a : R) : Car3D :=
  mkCar (pos c) (velocity c) a (car_class c) (is_player c) (speed c)
        (lap_count c) (last_checkpoint c) (finished c) (distance_traveled c)
        (is_reversing c) (max_speed c) (acceleration c) (handling c) (color c).
Definition set_speed (c : Car3D) (s : R) : Car3D :=
  mkCar (pos c) (velocity c) (angle_yaw c) (car_class c) (is_player c) s
        (lap_count c) (last_checkpoint c) (finished c) (distance_traveled c)
        (is_reversing c) (max_speed c) (acceleration c) (handling c) (color c).
Definition set_lap_count (c : Car3D) (n : nat) : Car3D :=
  mkCar (pos c) (velocity c) (angle_yaw c) (car_class c) (is_player c) (speed c)
        n (last_checkpoint c) (finished c) (distance_traveled c)
        (is_reversing c) (max_speed c) (acceleration c) (handling c) (color c).
Definition set_last_checkpoint (c : Car3D) (n : nat) : Car3D :=
  mkCar (pos c) (velocity c) (angle_yaw c) (car_class c) (is_player c) (speed c)
        (lap_count c) n (finished c) (distance_traveled c)
        (is_reversing c) (max_speed c) (acceleration c) (handling c) (color c).
Definition set_finished (c : Car3D) (b : bool) : Car3D :=
  mkCar (pos c) (velocity c) (angle_yaw c) (car_class c) (is_player c) (speed c)
        (lap_count c) (last_checkpoint c) b (distance_traveled c)
        (is_reversing c) (max_speed c) (acceleration c) (handling c) (color c).
Definition set_distance_traveled (c : Car3D) (d : R) : Car3D :=
  mkCar (pos c) (velocity c) (angle_yaw c) (car_class c) (is_player c) (speed c)
        (lap_count c) (last_checkpoint c) (finished c) d
        (is_reversing c) (max_speed c) (acceleration c) (handling c) (color c).
Definition set_is_reversing (c : Car3D) (b : bool) : Car3D :=
  mkCar (pos c) (velocity c) (angle_yaw c) (car_class c) (is_player c) (speed c)
        (lap_count c) (last_checkpoint c) (finished c) (distance_traveled c)
        b (max_speed c) (acceleration c) (handling c) (color c).

(** [velocity.x op= ...; velocity.z op= ...]: the y component is never
    touched by the physics. *)
Definition set_velocity_xz (c : Car3D) (vx vz : R) : Car3D :=
  set_velocity c (Vector3.mk vx (Vector3.y (velocity c)) vz).

(** The steering amount of one frame,
    [5.0 * (self.speed / max(self.max_speed, 1))]. *)
Definition turn_amount (self : Car3D) : R :=
  5 * (speed self / Rmax (max_speed self) 1).

(** The "Max speed cap" block shared by [update_player_input] and
    [update_ai]: it tests [self.speed], the value stored by the previous
    call of [update]. *)
Definition max_speed_cap (self : Car3D) : Car3D :=
  if Rgtb (speed self) (max_speed self) then
    let ratio := max_speed self / Rmax (speed self) (1 / 10) in
    set_velocity_xz self (Vector3.x (velocity self) * ratio)
                         (Vector3.z (velocity self) * ratio)
  else self.

(** [Car3D.update_player_input] *)
Definition update_player_input (self : Car3D) (keys : Keys) (dt : R) : Car3D :=
  let forward := cos (radians (angle_yaw self)) in
  let right := sin (radians (angle_yaw self)) in
  let self := set_is_reversing self (keys K_LSHIFT || keys K_RSHIFT) in
  (* Acceleration *)
  let self :=
    if keys K_w || keys K_UP then
      set_velocity_xz self
        (Vector3.x (velocity self) + forward * acceleration self * 50)
        (Vector3.z (velocity self) + right * acceleration self * 50)
    else self in
  (* Braking / Reverse *)
  let self :=
    if keys K_s || keys K_DOWN then
      if is_reversing self then
        set_velocity_xz self
          (Vector3.x (velocity self) - forward * acceleration self * 30)
          (Vector3.z (velocity self) - right * acceleration self * 30)
      else
        set_velocity_xz self
          (Vector3.x (velocity self) * (80 / 100))
          (Vector3.z (velocity self) * (80 / 100))
    else self in
  (* Steering *)
  let self :=
    if keys K_a || keys K_LEFT then
      set_angle_yaw self (angle_yaw self - turn_amount self)
    else self in
  let self :=
    if keys K_d || keys K_RIGHT then
      set_angle_yaw self (angle_yaw self + turn_amount self)
    else self in
  let self := set_angle_yaw self (fmod360 (angle_yaw self)) in
  max_speed_cap self.

(** The two normalisation loops of [update_ai],
    [while angle_diff > 180: angle_diff -= 360] and
    [while angle_diff < -180: angle_diff += 360], run with a bound on the
    number of iterations. *)
Fixpoint wrap_down (fuel : nat) (a : R) : R :=
  match fuel with
  | O => a
  | S fuel' => if Rgtb a 180 then wrap_down fuel' (a - 360) else a
  end.

Fixpoint wrap_up (fuel : nat) (a : R) : R :=
  match fuel with
  | O => a
  | S fuel' => if Rltb a (-180) then wrap_up fuel' (a + 360) else a
  end.

(** Enough iterations for any [a]: one more than [|a| / 360] rounded up. *)
Definition wrap_fuel (a : R) : nat := S (Z.to_nat (up (Rabs a / 360))).

Definition normalise_angle (a : R) : R :=
  let a := wrap_down (wrap_fuel a) a in
  wrap_up (wrap_fuel a) a.

Definition origin : Vector3.t := Vector3.mk 0 0 0.

(** [Car3D.update_ai] *)
Definition update_ai (self : Car3D) (track_points : list Vector3.t) (dt : R) : Car3D :=
  if (List.length track_points <? 2)%nat then self
  else
    let current_checkpoint :=
      Nat.min (last_checkpoint self + 8) (List.length track_points - 1) in
    let target := nth current_checkpoint track_points origin in
    let dx := Vector3.x target - Vector3.x (pos self) in
    let dz := Vector3.z target - Vector3.z (pos self) in
    let target_angle := degrees (atan2 dz dx) in
    (* Smooth steering *)
    let angle_diff := normalise_angle (target_angle - angle_yaw self) in
    let self := set_angle_yaw self (angle_yaw self + angle_diff * (8 / 100)) in
    let self := set_angle_yaw self (fmod360 (angle_yaw self)) in
    (* Accelerate *)
    let forward := cos (radians (angle_yaw self)) in
    let right := sin (radians (angle_yaw self)) in
    let self :=
      if Rltb (speed self) (max_speed self * (85 / 100)) then
        set_velocity_xz self
          (Vector3.x (velocity self) + forward * acceleration self * 30)
          (Vector3.z (velocity self) + right * acceleration self * 30)
      else self in
    max_speed_cap self.

(** [closest_dist = float('inf')] is [None]: every distance is below it. *)
Definition below (dist : R) (closest_dist : option R) : bool :=
  match closest_dist with
  | None => true
  | Some d => Rltb dist d
  end.

(** [Car3D.update_track_height] *)
Definition track_height_step (self : Car3D) (acc : option R * R) (point : Vector3.t)
  : option R * R :=
  let dx := Vector3.x point - Vector3.x (pos self) in
  let dz := Vector3.z point - Vector3.z (pos self) in
  let dist := sqrt (dx * dx + dz * dz) in
  if below dist (fst acc) then (Some dist, Vector3.y point) else acc.

Definition update_track_height (self : Car3D) (track_points : list Vector3.t) : Car3D :=
  match track_points with
  | [] => self
  | _ =>
    let closest_height :=
      snd (fold_left (track_height_step self) track_points
                     (None, Vector3.y (pos self))) in
    let p := pos self in
    set_pos self
      (Vector3.mk (Vector3.x p)
                  (Vector3.y p + (closest_height - Vector3.y p) * (2 / 10))
                  (Vector3.z p))
  end.

(** [enumerate(track_points)] *)
Definition enumerate {A : Type} (l : list A) : list (nat * A) :=
  combine (seq 0 (List.length l)) l.

(** The scan of [check_checkpoint]: [(closest_dist, closest_idx)]. *)
Definition closest_step (p : Vector3.t) (acc : option R * nat) (ip : nat * Vector3.t)
  : option R * nat :=
  let dist := Vector3.distance_to p (snd ip) in
  if below dist (fst acc) then (Some dist, fst ip) else acc.

Definition closest_idx (p : Vector3.t) (track_points : list Vector3.t) : nat :=
  snd (fold_left (closest_step p) (enumerate track_points) (None, 0%nat)).

(** [Car3D.check_checkpoint] *)
Definition check_checkpoint (self : Car3D) (track_points : list Vector3.t) : Car3D :=
  if (List.length track_points =? 0)%nat then self
  else
    let idx := closest_idx (pos self) track_points in
    if (last_checkpoint self <? idx)%nat then
      set_last_checkpoint self idx
    else if (idx <? last_checkpoint self)%nat && (idx <? 20)%nat then
      let self := set_lap_count self (lap_count self + 1) in
      if (3 <=? lap_count self)%nat then set_finished self true else self
    else self.

(** The body of [Car3D.update] after the steering branch. *)
Definition integrate (self : Car3D) (track_points : list Vector3.t) (dt : R) : Car3D :=
  (* Apply friction *)
  let self := set_velocity_xz self (Vector3.x (velocity self) * (97 / 100))
                                   (Vector3.z (velocity self) * (97 / 100)) in
  (* Calculate speed *)
  let self := set_speed self
    (sqrt (Vector3.x (velocity self) ^ 2 + Vector3.z (velocity self) ^ 2)) in
  (* Update position *)
  let p := pos self in
  let self := set_pos self
    (Vector3.mk (Vector3.x p + Vector3.x (velocity self) * dt)
                (Vector3.y p)
                (Vector3.z p + Vector3.z (velocity self) * dt)) in
  let self := update_track_height self track_points in
  let self := check_checkpoint self track_points in
  set_distance_traveled self (distance_traveled self + speed self * dt).

(** [Car3D.update].  [keys] is [None] for the default argument; a pygame
    key state is a non-empty sequence, hence truthy. *)
Definition update (self : Car3D) (track_points : list Vector3.t)
                  (keys : option Keys) (dt : R) : Car3D :=
  if finished self then self
  else
    let self :=
      match is_player self, keys with
      | true, Some k => update_player_input self k dt
      | _, _ => update_ai self track_points dt
      end in
    integrate self track_points dt.

(** *** Failing operations

    Python exceptions ([ValueError] of [list.index], [IndexError] of a
    subscript, [AttributeError] of an attribute that was never set) end the
    program: a step that can raise returns [None]. *)

Definition bind {A B : Type} (m : option A) (f : A -> option B) : option B :=
  match m with
  | Some a => f a
  | None => None
  end.

Notation "x <- m ;; k" := (bind m (fun x => k))
  (at level 61, m at next level, right associativity).

(** [l.index(p)]: the first position holding a value equal to [p]. *)
Fixpoint index (l : list Vector3.t) (p : Vector3.t) : option nat :=
  match l with
  | [] => None
  | q :: l' =>
    if Vector3.eqb q p then Some 0%nat
    else i <- index l' p ;; Some (S i)
  end.

(** *** Track3D *)

Record Track3D : Type := mkTrack {
  points : list Vector3.t;
  left_barriers : list Vector3.t;
  right_barriers : list Vector3.t
}.

Definition segments : nat := 200.

(** The point appended by iteration [i] of the first loop. *)
Definition track_point (i : nat) : Vector3.t :=
  let center_x := 0 in
  let center_z := 0 in
  let progress := INR i / INR segments in
  let angle := progress * 4 * PI in
  let base_radius_x := 400 in
  let base_radius_z := 300 in
  let x := center_x
           + base_radius_x * cos angle * (1 + (3 / 10) * sin (angle * 2)) in
  let z := center_z
           + base_radius_z * sin angle * (1 + (2 / 10) * cos (angle * 3)) in
  let y := 50 + 40 * sin (angle * 2) + 25 * cos (angle * 3)
           + 15 * sin (angle * 5) in
  Vector3.mk x y z.

Definition append_point (self : Track3D) (i : nat) : Track3D :=
  mkTrack (points self ++ [track_point i]) (left_barriers self)
          (right_barriers self).

Definition barrier_offset : R := 100.

(** One iteration of the barrier loop; [self.points] is not modified by
    the loop. *)
Definition barrier_step (self : Track3D) (point : Vector3.t) : option Track3D :=
  idx <- index (points self) point ;;
  next_point <-
    nth_error (points self) ((idx + 1) mod List.length (points self)) ;;
  let dx := Vector3.x next_point - Vector3.x point in
  let dz := Vector3.z next_point - Vector3.z point in
  let dist := sqrt (dx * dx + dz * dz) in
  if Rgtb dist 0 then
    let perp_x := - dz / dist in
    let perp_z := dx / dist in
    let left_x := Vector3.x point + perp_x * barrier_offset in
    let left_z := Vector3.z point + perp_z * barrier_offset in
    let right_x := Vector3.x point - perp_x * barrier_offset in
    let right_z := Vector3.z point - perp_z * barrier_offset in
    Some (mkTrack (points self)
            (left_barriers self ++ [Vector3.mk left_x (Vector3.y point) left_z])
            (right_barriers self
               ++ [Vector3.mk right_x (Vector3.y point) right_z]))
  else Some self.

Fixpoint barrier_loop (self : Track3D) (todo : list Vector3.t) : option Track3D :=
  match todo with
  | [] => Some self
  | point :: todo' =>
    self' <- barrier_step self point ;; barrier_loop self' todo'
  end.

(** [Track3D.generate_track] *)
Definition generate_track (self : Track3D) : option Track3D :=
  let self := fold_left append_point (seq 0 segments) self in
  barrier_loop self (points self).

(** [Track3D.__init__] *)
Definition Track3D_init : option Track3D :=
  generate_track (mkTrack [] [] []).

(** *** Game3D *)

Definition SCREEN_WIDTH : R := 1400.
Definition SCREEN_HEIGHT : R := 900.

Inductive Event : Type :=
| QUIT
| KEYDOWN (key : Key)
| OTHER.

Definition is_space (k : Key) : bool :=
  match k with K_SPACE => true | _ => false end.
Definition is_escape (k : Key) : bool :=
  match k with K_ESCAPE => true | _ => false end.

(** [self.player], [self.ai_cars] and [self.all_cars] refer to the same
    [Car3D] objects: [all_cars = [player] + ai_cars].  The store keeps them
    once, in the order of [all_cars]; it is empty as long as [setup_game]
    has not created them. *)
Record Game3D : Type := mkGame {
  running : bool;
  state : string;
  track : Track3D;
  all_cars : list Car3D
}.

Definition player (self : Game3D) : option Car3D := hd_error (all_cars self).
Definition ai_cars (self : Game3D) : list Car3D := tl (all_cars self).

Definition set_running (g : Game3D) (b : bool) : Game3D :=
  mkGame b (state g) (track g) (all_cars g).
Definition set_state (g : Game3D) (s : string) : Game3D :=
  mkGame (running g) s (track g) (all_cars g).
Definition set_all_cars (g : Game3D) (l : list Car3D) : Game3D :=
  mkGame (running g) (state g) (track g) l.

Definition ai_spawn_indices : list nat := [10; 20; 30]%nat.
Definition car_classes : list CarClass := [SUPERCAR; MUSCLE; ECONOMY].

(** The AI spawn loop of [setup_game]. *)
Definition spawn_ai (pts : list Vector3.t) (acc : list Car3D)
                    (entry : nat * nat) : list Car3D :=
  let '(idx, spawn_idx) := entry in
  match nth_error pts spawn_idx, nth_error car_classes idx with
  | Some spawn_point, Some cls =>
    acc ++ [Car3D_init (Vector3.x spawn_point) (Vector3.y spawn_point)
                       (Vector3.z spawn_point) cls false]
  | _, _ => acc
  end.

(** The cars [setup_game] creates on a track. *)
Definition fresh_cars (pts : list Vector3.t) : list Car3D :=
  match pts with
  | [] => []
  | start_point :: _ =>
    Car3D_init (Vector3.x start_point) (Vector3.y start_point)
               (Vector3.z start_point) SPORTS true
    :: fold_left (spawn_ai pts) (enumerate ai_spawn_indices) []
  end.

(** [Game3D.setup_game] *)
Definition setup_game (self : Game3D) : Game3D :=
  match points (track self) with
  | [] => self
  | _ => set_all_cars self (fresh_cars (points (track self)))
  end.

(** [Game3D.__init__] (display, clock and fonts are not modelled). *)
Definition Game3D_init : option Game3D :=
  t <- Track3D_init ;;
  Some (setup_game (mkGame true "menu" t [])).

(** One iteration of the loop of [Game3D.handle_events]. *)
Definition handle_event (self : Game3D) (event : Event) : Game3D :=
  match event with
  | QUIT => set_running self false
  | KEYDOWN key =>
    if String.eqb (state self) "menu" && is_space key then
      setup_game (set_state self "racing")
    else if String.eqb (state self) "finish" && is_space key then
      set_state self "menu"
    else if is_escape key then set_running self false
    else self
  | OTHER => self
  end.

(** [Game3D.handle_events], on the events [pygame.event.get ()] returns. *)
Definition handle_events (self : Game3D) (events : list Event) : Game3D :=
  fold_left handle_event events self.

(** The loop over [self.all_cars] of [Game3D.update]: the player (the
    first object of the store) is updated with the key state, the others
    with the default [keys=None]. *)
Definition update_cars (pts : list Vector3.t) (keys : Keys) (dt : R)
                       (cars : list Car3D) : list Car3D :=
  match cars with
  | [] => []
  | p :: ais =>
    update p pts (Some keys) dt :: map (fun car => update car pts None dt) ais
  end.

(** [Game3D.update]; [keys] is what [pygame.key.get_pressed ()] returns. *)
Definition Game3D_update (self : Game3D) (keys : Keys) (dt : R) : option Game3D :=
  if String.eqb (state self) "racing" then
    match all_cars self with
    | [] => None
    | _ =>
      let self := set_all_cars self
                    (update_cars (points (track self)) keys dt (all_cars self)) in
      p <- player self ;;
      Some (if finished p then set_state self "finish" else self)
    end
  else Some self.

(** [Game3D.project_3d_to_2d] (a method that does not read [self]). *)
Definition rotated_x (x z cam_x cam_z cam_angle : R) : R :=
  (x - cam_x) * cos (radians cam_angle) - (z - cam_z) * sin (radians cam_angle).
Definition rotated_z (x z cam_x cam_z cam_angle : R) : R :=
  (x - cam_x) * sin (radians cam_angle) + (z - cam_z) * cos (radians cam_angle).

Definition fov : R := 60.
Definition focal_length : R := (SCREEN_WIDTH / 2) / tan (radians (fov / 2)).

Definition screen_x (x z cam_x cam_z cam_angle : R) : R :=
  SCREEN_WIDTH / 2
  + (rotated_x x z cam_x cam_z cam_angle / rotated_z x z cam_x cam_z cam_angle)
    * focal_length.
Definition screen_y (x y z cam_x cam_y cam_z cam_angle : R) : R :=
  SCREEN_HEIGHT / 2
  - ((y - cam_y) / rotated_z x z cam_x cam_z cam_angle) * focal_length.

Definition project_3d_to_2d (x y z cam_x cam_y cam_z cam_angle : R)
  : option (Z * Z) :=
  if Rleb (rotated_z x z cam_x cam_z cam_angle) (5 / 10) then None
  else
    let sx := screen_x x z cam_x cam_z cam_angle in
    let sy := screen_y x y z cam_x cam_y cam_z cam_angle in
    if Rleb 0 sx && Rltb sx SCREEN_WIDTH && Rleb 0 sy && Rltb sy SCREEN_HEIGHT
    then Some (py_int sx, py_int sy)
    else None.

(** *** The main loop and the head-up display *)

(** What one iteration of [Game3D.run] reads: the pending events, the key
    state and the time the clock reports. *)
Record Tick : Type := mkTick {
  tick_events : list Event;
  tick_keys : Keys;
  tick_dt : R
}.

(** One iteration of the loop of [Game3D.run]: [handle_events], then
    [update] (drawing changes nothing of the game). *)
Definition Game3D_frame (self : Game3D) (t : Tick) : option Game3D :=
  Game3D_update (handle_events self (tick_events t)) (tick_keys t) (tick_dt t).

(** [Game3D.run], on the ticks the loop would see: it stops as soon as
    [self.running] is false. *)
Fixpoint Game3D_run (self : Game3D) (ticks : list Tick) : option Game3D :=
  match ticks with
  | [] => Some self
  | t :: ticks' =>
    if running self then
      self' <- Game3D_frame self t ;; Game3D_run self' ticks'
    else Some self
  end.

(** [min(self.player.speed / max(self.player.max_speed, 1), 1.0)], the
    ratio behind the speed gauge and the RPM bar. *)
Definition speed_pct (car : Car3D) : R :=
  Rmin (speed car / Rmax (max_speed car) 1) 1.

(** [bar_width = int(160 * rpm_ratio)] of [draw_hud]. *)
Definition bar_width (car : Car3D) : Z := py_int (160 * speed_pct car).

(** *** The ranking of [draw_hud]

    [positions = sorted(self.all_cars, key=lambda c: c.distance_traveled,
    reverse=True)]: Python's sort is stable, also when reversed, so each
    car goes behind the cars that have travelled at least as far.  A car is
    known by its place in [all_cars]; the player is the object at place 0. *)

Fixpoint insert_ranked (c : nat * Car3D) (sorted : list (nat * Car3D))
  : list (nat * Car3D) :=
  match sorted with
  | [] => [c]
  | c' :: rest =>
    if Rltb (distance_traveled (snd c')) (distance_traveled (snd c))
    then c :: sorted
    else c' :: insert_ranked c rest
  end.

Definition positions (cars : list Car3D) : list (nat * Car3D) :=
  fold_left (fun sorted c => insert_ranked c sorted) (enumerate cars) [].

(** [positions.index(self.player)]; [None] is [ValueError]. *)
Fixpoint index_of_player (l : list (nat * Car3D)) : option nat :=
  match l with
  | [] => None
  | c :: rest =>
    if (fst c =? 0)%nat then Some 0%nat
    else i <- index_of_player rest ;; Some (S i)
  end.

(** [position = positions.index(self.player) + 1] *)
Definition position (cars : list Car3D) : option nat :=
  i <- index_of_player (positions cars) ;; Some (i + 1)%nat.

End Racing.

(** ** flappybird.py *)

Module Flappy.
Local Open Scope Q_scope.

Definition Qltb (a b : Q) : bool := negb (Qle_bool b a).
Definition Qgtb (a b : Q) : bool := Qltb b a.

Definition SCREEN_WIDTH : Z := 800.
Definition SCREEN_HEIGHT : Z := 600.
Definition GRAVITY : Q := 1 # 2.
Definition FLAP_STRENGTH : Z := -12.
Definition PLAYER_SIZE : Z := 60.

(** A pipe is a dictionary with the four keys ["x"], ["top_height"],
    ["gap"] and ["passed"]. *)
Record Pipe : Type := mkPipe {
  x : Q;
  top_height : Z;
  gap : Z;
  passed : bool
}.

Record Game : Type := mkGame {
  running : bool;
  player_x : Z;
  player_y : Q;
  player_velocity : Q;
  pipes : list Pipe;
  score : Z;
  game_over : bool;
  pipes_passed : Z;
  base_speed : Z;
  current_speed : Q;
  base_gap : Z;
  current_gap : Z
}.

Definition set_game_over (g : Game) (b : bool) : Game :=
  mkGame (running g) (player_x g) (player_y g) (player_velocity g) (pipes g)
         (score g) b (pipes_passed g) (base_speed g) (current_speed g)
         (base_gap g) (current_gap g).
Definition set_pipes (g : Game) (l : list Pipe) : Game :=
  mkGame (running g) (player_x g) (player_y g) (player_velocity g) l
         (score g) (game_over g) (pipes_passed g) (base_speed g)
         (current_speed g) (base_gap g) (current_gap g).
Definition set_player (g : Game) (y v : Q) : Game :=
  mkGame (running g) (player_x g) y v (pipes g)
         (score g) (game_over g) (pipes_passed g) (base_speed g)
         (current_speed g) (base_gap g) (current_gap g).
Definition set_counters (g : Game) (sc passed_count : Z) : Game :=
  mkGame (running g) (player_x g) (player_y g) (player_velocity g) (pipes g)
         sc (game_over g) passed_count (base_speed g) (current_speed g)
         (base_gap g) (current_gap g).
Definition set_difficulty (g : Game) (sp : Q) (gp : Z) : Game :=
  mkGame (running g) (player_x g) (player_y g) (player_velocity g) (pipes g)
         (score g) (game_over g) (pipes_passed g) (base_speed g) sp
         (base_gap g) gp.

(** [Game.spawn_pipe]; [draw] is the value [random.randint] returns. *)
Definition spawn_pipe (self : Game) (draw : Z) : Game :=
  let self := set_difficulty self
    (inject_Z (base_speed self) + inject_Z (pipes_passed self) * (1 # 2))
    (Z.max 100 (base_gap self - pipes_passed self * 5)) in
  let pipe_height := draw in
  let pipe_x := SCREEN_WIDTH in
  set_pipes self
    (pipes self ++ [mkPipe (inject_Z pipe_x) pipe_height (current_gap self) false]).

(** [Game.reset_game] *)
Definition reset_game (self : Game) (draw : Z) : Game :=
  spawn_pipe
    (mkGame (running self) 100 (inject_Z (SCREEN_HEIGHT / 2)) 0 [] 0 false
            0 4 (inject_Z 4) 200 200)
    draw.

(** The "Update pipes" loop: every pipe moves left, a pipe left behind
    the player is counted once. *)
Definition move_pipe (acc : Game * list Pipe) (pipe : Pipe) : Game * list Pipe :=
  let '(self, done) := acc in
  let pipe := mkPipe (x pipe - current_speed self) (top_height pipe)
                     (gap pipe) (passed pipe) in
  if negb (passed pipe) && Qltb (x pipe + 50) (inject_Z (player_x self)) then
    (set_counters self (score self + 1) (pipes_passed self + 1),
     done ++ [mkPipe (x pipe) (top_height pipe) (gap pipe) true])
  else (self, done ++ [pipe]).

Definition move_pipes (self : Game) : Game :=
  let '(self', moved) := fold_left move_pipe (pipes self) (self, []) in
  set_pipes self' moved.

(** The horizontal test of the collision loop. *)
Definition in_span (self : Game) (pipe : Pipe) : bool :=
  Qltb (inject_Z (player_x self)) (x pipe + 50)
  && Qgtb (inject_Z (player_x self + PLAYER_SIZE)) (x pipe).

(** The vertical test of the collision loop. *)
Definition out_of_gap (self : Game) (pipe : Pipe) : bool :=
  Qltb (player_y self) (inject_Z (top_height pipe))
  || Qgtb (player_y self + inject_Z PLAYER_SIZE)
          (inject_Z (top_height pipe + gap pipe)).

(** One iteration of "Check collision with pipes". *)
Definition collide (self : Game) (pipe : Pipe) : Game :=
  if in_span self pipe then
    if out_of_gap self pipe then set_game_over self true else self
  else self.

Definition check_collisions (self : Game) : Game :=
  fold_left collide (pipes self) self.

(** [Game.update] up to the collision loop: gravity, boundaries, pipe
    movement, removal and spawning. *)
Definition advance (self : Game) (draw : Z) : Game :=
  (* Apply gravity *)
  let v := player_velocity self + GRAVITY in
  let self := set_player self (player_y self + v) v in
  (* Check boundaries *)
  let self :=
    if Qltb (player_y self) 0
       || Qgtb (player_y self + inject_Z PLAYER_SIZE) (inject_Z SCREEN_HEIGHT)
    then set_game_over self true else self in
  let self := move_pipes self in
  (* Remove off-screen pipes *)
  let self := set_pipes self
    (filter (fun p => Qgtb (x p) (inject_Z (-100))) (pipes self)) in
  (* Spawn new pipe when needed *)
  match rev (pipes self) with
  | [] => spawn_pipe self draw
  | last_pipe :: _ =>
    if Qltb (x last_pipe) (inject_Z (SCREEN_WIDTH - 200))
    then spawn_pipe self draw else self
  end.

(** [Game.update] *)
Definition update (self : Game) (draw : Z) : Game :=
  if game_over self then self
  else check_collisions (advance self draw).

(** *** Input and the main loop *)

Definition set_running (g : Game) (b : bool) : Game :=
  mkGame b (player_x g) (player_y g) (player_velocity g) (pipes g)
         (score g) (game_over g) (pipes_passed g) (base_speed g)
         (current_speed g) (base_gap g) (current_gap g).

(** The events [handle_input] tells apart: the window is closed, a key
    goes down (the space bar or another key), anything else. *)
Inductive Event : Type :=
| QUIT
| KEYDOWN (space : bool)
| OTHER.

(** One iteration of the loop of [Game.handle_input]; [draw] is what
    [random.randint] returns should the event restart the game. *)
Definition handle_event (self : Game) (event : Event) (draw : Z) : Game :=
  match event with
  | QUIT => set_running self false
  | KEYDOWN true =>
    if game_over self then reset_game self draw
    else set_player self (player_y self) (inject_Z FLAP_STRENGTH)
  | KEYDOWN false => self
  | OTHER => self
  end.

(** [Game.handle_input], on the pending events. *)
Definition handle_input (self : Game) (events : list (Event * Z)) : Game :=
  fold_left (fun g ed => handle_event g (fst ed) (snd ed)) events self.

(** The arguments of [random.randint] in [spawn_pipe], once the gap has
    been updated. *)
Definition pipe_height_range (self : Game) : Z * Z :=
  let gap' := Z.max 100 (base_gap self - pipes_passed self * 5) in
  (80, SCREEN_HEIGHT - gap' - 80)%Z.

(** What one iteration of [Game.run] reads. *)
Record Tick : Type := mkTick {
  tick_events : list (Event * Z);
  tick_draw : Z
}.

(** One iteration of the loop of [Game.run] (drawing changes nothing of
    the game). *)
Definition frame (self : Game) (t : Tick) : Game :=
  update (handle_input self (tick_events t)) (tick_draw t).

(** [Game.run], on the ticks the loop would see. *)
Fixpoint run (self : Game) (ticks : list Tick) : Game :=
  match ticks with
  | [] => self
  | t :: ticks' => if running self then run (frame self t) ticks' else self
  end.

End Flappy.

(** ** Terminal output of the console scripts *)

Module Console.

(** What a script writes on the terminal: the prompt of an [input] call
    or a [print]ed line. *)
Inductive Output : Type :=
| Prompt (text : string)
| Print (text : string).

End Console.

(** ** Question 1d - Program Building (2024).py, step 2 *)

Module Training.
Import Console.
Local Open Scope Z_scope.

Definition prompt : string := "Please enter the length of your training session: "%string.
Definition error_message : string :=
  "Error. A training session must be between 10 and 30"%string.

(** The loop condition. *)
Definition out_of_range (training_session : Z) : bool :=
  ((training_session <? 10) || (training_session >? 30))%Z.

(** The result of running the validator on the integers typed by the
    user: the accepted value and the inputs left for the rest of the
    program, or [EOFError] when the input ends first. *)
Inductive Outcome : Type :=
| Accepted (training_session : Z) (rest : list Z)
| EOFError.

(** [while training_session < 10 or training_session > 30: ...]; each
    iteration reads one more value. *)
Fixpoint validation_loop (training_session : Z) (inputs : list Z)
                         (out : list Output) : list Output * Outcome :=
  if out_of_range training_session then
    let out := out ++ [Print error_message; Prompt prompt] in
    match inputs with
    | [] => (out, EOFError)
    | entered :: inputs' => validation_loop entered inputs' out
    end
  else (out, Accepted training_session inputs).

(** Lines 9 to 12: the first [input] and the loop. *)
Definition read_training_session (inputs : list Z) : list Output * Outcome :=
  match inputs with
  | [] => ([Prompt prompt], EOFError)
  | entered :: inputs' => validation_loop entered inputs' [Prompt prompt]
  end.

(** *** Steps 3 to 5: the songs and the summary *)

(** [str(n)], as [print] writes an integer. *)
Definition str (n : Z) : string := NilZero.string_of_int (Z.to_int n).

Definition song_prompt : string :=
  "Please enter the duration of your next song in seconds: "%string.
Definition enough_message : string := "You have entered enough songs"%string.
Definition foam_message : string := "Start Foam Machine"%string.

(** The variables of step 4. *)
Record Songs : Type := mkSongs {
  total : Z;
  song_length : list Z;
  song_counter : Z
}.

(** How the script ends: it runs to its last line, the input ends too
    early ([EOFError]), or [random.randint] is given an empty range
    ([ValueError]). *)
Inductive Ending : Type :=
| Completed
| InputEnded
| EmptyRange.

(** [while total < training_session: ...]; each iteration reads one
    duration.  The result is the state at the exit and the input left. *)
Fixpoint song_loop (training_session : Z) (st : Songs) (inputs : list Z)
                   (out : list Output)
  : list Output * option (Songs * list Z) :=
  if total st <? training_session then
    match inputs with
    | [] => (out ++ [Prompt song_prompt], None)
    | duration_of_next_song :: inputs' =>
      let st' := mkSongs (total st + duration_of_next_song)
                         (song_length st ++ [duration_of_next_song])
                         (song_counter st + 1) in
      let out := out ++ [Prompt song_prompt] in
      let out :=
        if training_session <=? total st'
        then out ++ [Print enough_message] else out in
      song_loop training_session st' inputs' out
    end
  else (out, Some (st, inputs)).

(** The [for] loop of step 5, from the value [counter] on. *)
Fixpoint summary_lines (songs : list Z) (counter foam_machine : Z)
  : list Output :=
  match songs with
  | [] => []
  | duration :: songs' =>
    (Print (str counter ++ " : " ++ str duration)%string
     :: (if foam_machine =? counter then [Print foam_message] else []))
    ++ summary_lines songs' (counter + 1) foam_machine
  end.

(** Step 5 once [foam_machine] has been drawn. *)
Definition summary (st : Songs) (foam_machine : Z) : list Output :=
  Print ("The number of songs you have played is " ++ str (song_counter st))%string
  :: summary_lines (song_length st) 1 foam_machine
  ++ [Print ("Your total is " ++ str (total st))%string].

(** The whole script on the integers typed by the user; [foam_machine]
    is what [random.randint(1, song_counter)] returns when its range is not
    empty. *)
Definition program (inputs : list Z) (foam_machine : Z)
  : list Output * Ending :=
  match read_training_session inputs with
  | (out, EOFError) => (out, InputEnded)
  | (out, Accepted training_session inputs') =>
    let training_session := training_session * 60 in
    match song_loop training_session (mkSongs 0 [] 0) inputs' out with
    | (out, None) => (out, InputEnded)
    | (out, Some (st, _)) =>
      if song_counter st <? 1 then (out, EmptyRange)
      else (out ++ summary st foam_machine, Completed)
    end
  end.

End Training.

(** ** Mystery Mansion Game.py *)

Module Mansion.
Import Console.

(** The values the script handles. *)
#[warnings="-register-all"]
Inductive PyValue : Type :=
| VStr (s : string)
| VInt (n : Z)
| VList (items : list PyValue).

Inductive PyError : Type :=
| TypeError (message : string)
| EOFError
| SystemExit.

(** A statement: it extends the terminal output and either raises or
    returns. *)
Definition M (A : Type) : Type := list Output -> list Output * (PyError + A).

Definition ret {A : Type} (a : A) : M A := fun out => (out, inr a).
Definition raise {A : Type} (e : PyError) : M A := fun out => (out, inl e).
Definition bind {A B : Type} (m : M A) (f : A -> M B) : M B :=
  fun out =>
    match m out with
    | (out', inl e) => (out', inl e)
    | (out', inr a) => f a out'
    end.

Notation "x <- m ;; k" := (bind m (fun x => k))
  (at level 61, m at next level, right associativity).
Notation "m ;; k" := (bind m (fun _ => k))
  (at level 61, right associativity).

(** The error of applying a list. *)
Definition not_callable : PyError := TypeError "'list' object is not callable".

(** [f(args)] where [f] is a value of the script: none of its values is
    callable. *)
Definition call (f : PyValue) (args : list PyValue) : M PyValue :=
  match f with
  | VList _ => raise not_callable
  | VStr _ => raise (TypeError "'str' object is not callable")
  | VInt _ => raise (TypeError "'int' object is not callable")
  end.

(** [a == b] *)
Fixpoint py_eq (a b : PyValue) : bool :=
  match a, b with
  | VStr s, VStr t => String.eqb s t
  | VInt n, VInt m => Z.eqb n m
  | VList l, VList l' =>
    (fix all2 (l l' : list PyValue) : bool :=
       match l, l' with
       | [], [] => true
       | v :: l, v' :: l' => py_eq v v' && all2 l l'
       | _, _ => false
       end) l l'
  | _, _ => false
  end.

(** [a + b] *)
Definition add (a b : PyValue) : M PyValue :=
  match a, b with
  | VStr s, VStr t => ret (VStr (s ++ t)%string)
  | VInt n, VInt m => ret (VInt (n + m))
  | VList l, VList l' => ret (VList (l ++ l'))
  | _, _ => raise (TypeError "unsupported operand type(s) for +")
  end.

(** [print(a, b, ...)] on strings: the arguments separated by a space. *)
Definition print (args : list string) : M unit :=
  fun out => (out ++ [Print (String.concat " " args)], inr tt).

(** The prompt written by [input(text)]; the line read is taken from the
    list of typed lines by the caller. *)
Definition input_prompt (text : string) : M unit :=
  fun out => (out ++ [Prompt text], inr tt).

Definition rooms : PyValue :=
  VList [VStr "Enterence Hall"; VStr "Libary"; VStr "Kitchen"; VStr "Garden"].
Definition descriptions : PyValue :=
  VList [VStr "A grand foyer with a crystal chandelier";
         VStr "Dusty bookshelves stretch from floor to ceiling";
         VStr "Copper pots hang above an old stone hearth";
         VStr "Overgrown vines twist around marble statues"].
Definition commands : PyValue :=
  VList [VStr "N"; VStr "S"; VStr "E"; VStr "W"; VStr "Quit"; VStr "Help"].
Definition help : string :=
  "Please enter either 1 (North), 2 (South), 3 (East), 4 (West) to move through the masion. Only type the letters not the names.".

Definition move_prompt : string := "Please enter where you would like to move to".

(** [print("Welcome to the",rooms(i) + descriptions(i))] *)
Definition show_room (i : Z) : M unit :=
  r <- call rooms [VInt i] ;;
  d <- call descriptions [VInt i] ;;
  s <- add r d ;;
  match s with
  | VStr text => print ["Welcome to the"; text]%string
  | _ => raise (TypeError "not a string")
  end.

(** The [if]/[elif] chain on one [move]. *)
Definition dispatch (move : string) : M unit :=
  c <- call commands [VInt 0] ;;
  if py_eq (VStr move) c then show_room 0 else
  c <- call commands [VInt 1] ;;
  if py_eq (VStr move) c then show_room 1 else
  c <- call commands [VInt 2] ;;
  if py_eq (VStr move) c then show_room 2 else
  c <- call commands [VInt 3] ;;
  if py_eq (VStr move) c then show_room 3 else
  c <- call commands [VInt 4] ;;
  if py_eq (VStr move) c then raise SystemExit else
  c <- call commands [VInt 5] ;;
  if py_eq (VStr move) c then print [help]
  else print ["Not a valid move please try again, enter Help for the commands to the game"%string].

(** [while True:] each iteration reads one line; the input ending is
    [EOFError]. *)
Fixpoint command_loop (typed : list string) : M unit :=
  match typed with
  | [] => input_prompt move_prompt ;; raise EOFError
  | move :: typed' =>
    input_prompt move_prompt ;; dispatch move ;; command_loop typed'
  end.

(** The four lines printed before the loop. *)
Definition welcome (name : string) : M unit :=
  print ["Welcome"; name; "To the Mystery Mansion"]%string ;;
  print ["To exploar the mysterious mansion Please enter either N (North), S (South), E (East), W (West) to move through the masion."%string] ;;
  print ["If you want to quit the game enter  Quit and if you need the commends enter help"%string] ;;
  print ["Please now enter the commands to move throught the manison"%string].

(** The script, run on the lines typed by the user. *)
Definition main (typed : list string) : M unit :=
  input_prompt "Please Enter you Player Name" ;;
  match typed with
  | [] => raise EOFError
  | name :: typed' => welcome name ;; command_loop typed'
  end.

End Mansion.

(** ** Python's indentation rule and Traversing 1D array Task 2.py *)

Module Layout.
Local Open Scope string_scope.

(** The double quote character. *)
Definition dq : string := String (ascii_of_nat 34) EmptyString.

Definition is_space (c : ascii) : bool := Ascii.eqb c " "%char.

(** Number of leading spaces of a line. *)
Fixpoint indentation (line : string) : nat :=
  match line with
  | String c rest => if is_space c then S (indentation rest) else O
  | EmptyString => O
  end.

(** The line without its leading spaces. *)
Fixpoint lstrip (line : string) : string :=
  match line with
  | String c rest => if is_space c then lstrip rest else line
  | EmptyString => EmptyString
  end.

(** Blank lines and comment lines carry no indentation information. *)
Definition ignored (line : string) : bool :=
  match lstrip line with
  | EmptyString => true
  | String c _ => Ascii.eqb c "#"%char
  end.

(** The last character of a line that is not a space. *)
Fixpoint last_char (line : string) (seen : option ascii) : option ascii :=
  match line with
  | EmptyString => seen
  | String c rest => last_char rest (if is_space c then seen else Some c)
  end.

(** A line ending in a colon is the header of a compound statement and
    must be followed by an indented block. *)
Definition opens_block (line : string) : bool :=
  match last_char line None with
  | Some c => Ascii.eqb c ":"%char
  | None => false
  end.

Inductive IndentationError : Type :=
| UnexpectedIndent (lineno : nat)
| ExpectedIndentedBlock (lineno : nat)
| InconsistentDedent (lineno : nat).

(** Leave blocks until the indentation [n] is found on the stack. *)
Fixpoint dedent (n : nat) (stack : list nat) : option (list nat) :=
  match stack with
  | [] => None
  | top :: below =>
    if (n =? top)%nat then Some stack
    else if (n <? top)%nat then dedent n below
    else None
  end.

(** The tokenizer's indentation stack, line by line.  The rule is the
    one of the language reference for files whose statements fit on one
    line each (no bracket left open, no backslash continuation, no
    comment after a colon), as is the case of the file checked below. *)
Fixpoint scan (lines : list string) (lineno : nat) (stack : list nat)
              (after_colon : bool) : option IndentationError :=
  match lines with
  | [] => if after_colon then Some (ExpectedIndentedBlock lineno) else None
  | line :: rest =>
    if ignored line then scan rest (S lineno) stack after_colon
    else
      let n := indentation line in
      let top := hd O stack in
      if (top <? n)%nat then
        if after_colon then scan rest (S lineno) (n :: stack) (opens_block line)
        else Some (UnexpectedIndent lineno)
      else if after_colon then Some (ExpectedIndentedBlock lineno)
      else
        match dedent n stack with
        | Some stack' => scan rest (S lineno) stack' (opens_block line)
        | None => Some (InconsistentDedent lineno)
        end
  end.

Definition check_layout (source : list string) : option IndentationError :=
  scan source 1 [O] false.

(** Python compiles a whole file before it runs its first statement: a
    file that is rejected executes nothing. *)
Definition executes (source : list string) : bool :=
  match check_layout source with
  | None => true
  | Some _ => false
  end.

(** Traversing 1D array Task 2.py, line by line. *)
Definition traversing_task_2 : list string :=
  [ "# Task 2";
    EmptyString;
    "# Create a program that contains an array of 5 dog food weights ";
    "# (in grams) between 0 and 300g. Traverse the ";
    "# 1D array to calculate and display the total amount";
    "# of food given to the dog over 5 days.";
    EmptyString;
    "food = []";
    EmptyString;
    "total = 0";
    EmptyString;
    "for index in range(5):";
    "    food.append(int(input(" ++ dq ++ "Enter the dog food weight (between 0g and 300g)" ++ dq ++ ")))";
    "        if food[index] > 0:";
    "            print(" ++ dq ++ "Must be between 0g and 300g" ++ dq ++ ")";
    "        elif food[index] < 300:";
    "            print(" ++ dq ++ "Must be between 0g and 300g" ++ dq ++ ")";
    "    total = (total+food[index])";
    EmptyString;
    "print(total)" ].

End Layout.

(** ** Concrete inputs used by the examples below *)

Module Scenarios.
Import Racing.
Local Open Scope R_scope.

(** Only the accelerator is held. *)
Definition keys_W : Keys :=
  fun k => match k with K_w => true | _ => false end.

(** Only "steer right" is held. *)
Definition keys_D : Keys :=
  fun k => match k with K_d => true | _ => false end.

(** No key is held. *)
Definition keys_none : Keys := fun _ => false.

(** The centre line the first loop of [generate_track] builds. *)
Definition centerline : list Vector3.t := map track_point (seq 0 segments).

(** The player as [setup_game] creates it, on the start line. *)
Definition player_on_grid : Car3D :=
  Car3D_init (Vector3.x (track_point 0)) (Vector3.y (track_point 0))
             (Vector3.z (track_point 0)) SPORTS true.

(** A car that has passed track point 1 and is back on the start line. *)
Definition back_on_start : Car3D := set_last_checkpoint player_on_grid 1.

(** One frame of a race as a car sees it: the track, the key state (if
    any) and the time step handed to [Car3D.update]. *)
Record Frame : Type := mkFrame {
  frame_track : list Vector3.t;
  frame_keys : option Keys;
  frame_dt : R
}.

(** Successive calls of [Car3D.update]. *)
Definition drive (self : Car3D) (frames : list Frame) : Car3D :=
  fold_left (fun c f => update c (frame_track f) (frame_keys f) (frame_dt f))
            frames self.

(** Successive calls of [Car3D.check_checkpoint], the car being moved to
    an arbitrary position before each call. *)
Definition checkpoints (self : Car3D)
                       (calls : list (Vector3.t * list Vector3.t)) : Car3D :=
  fold_left (fun c call => check_checkpoint (set_pos c (fst call)) (snd call))
            calls self.

(** C2 as the specification words it, for a given meaning of "near the
    final index": a lap is counted only if the furthest index reached is
    within [margin] of the end of the track. *)
Definition lap_only_from_near_final (margin : nat) : Prop :=
  forall (self : Car3D) (track_points : list Vector3.t),
    lap_count (check_checkpoint self track_points) = (lap_count self + 1)%nat ->
    (List.length track_points - margin <= last_checkpoint self)%nat.

(** The size of the change of heading made by one call of
    [update_player_input]. *)
Definition heading_change (self : Car3D) (keys : Keys) (dt : R) : R :=
  Rabs (angle_yaw (update_player_input self keys dt) - angle_yaw self).

(** C5 as the specification words it: of two cars that differ in speed
    only, the faster one turns less in a frame in which "steer right" is
    held. *)
Definition faster_turns_less : Prop :=
  forall (self : Car3D) (v1 v2 dt : R),
    0 <= v1 < v2 ->
    heading_change (set_speed self v2) keys_D dt
    < heading_change (set_speed self v1) keys_D dt.

(** The player two laps into the race, back on the start line after
    having reached track point 5. *)
Definition on_last_lap : Car3D :=
  set_lap_count (set_last_checkpoint player_on_grid 5) 2.

(** The player after its third lap. *)
Definition winner : Car3D := set_finished (set_lap_count player_on_grid 3) true.

(** Three moments of a session on the track [t]: in the menu before the
    first race, in the frame that ends the race, and on the finish screen. *)
Definition in_menu (t : Track3D) : Game3D := mkGame true "menu" t [].
Definition last_lap (t : Track3D) : Game3D :=
  mkGame true "racing" t (on_last_lap :: tl (fresh_cars centerline)).
Definition race_won (t : Track3D) : Game3D :=
  mkGame true "finish" t (winner :: tl (fresh_cars centerline)).

(** C7 as the specification words it: returning from the finish screen
    to the menu recreates the cars. *)
Definition reset_on_return_to_menu : Prop :=
  forall g : Game3D,
    state g = "finish"%string ->
    all_cars (handle_events g [KEYDOWN K_SPACE])
    = fresh_cars (points (track g)).

(** The frame time of the default argument, [dt=0.016]. *)
Definition dt_default : R := 16 / 1000.

End Scenarios.

(** ** The scan shared by the loops of the racing game *)

Module RacingCases.
Import Racing.
Local Open Scope R_scope.

(** The shape of the loops of [check_checkpoint] and
    [update_track_height]: an element whose key is below the best key so
    far replaces the accumulator. *)
Definition keep_closest {E V : Type} (key : E -> R) (val : E -> V)
                        (acc : option R * V) (e : E) : option R * V :=
  if below (key e) (fst acc) then (Some (key e), val e) else acc.

(** The distance [update_track_height] compares: x and z only. *)
Definition flat_distance (p q : Vector3.t) : R :=
  sqrt ((Vector3.x q - Vector3.x p) * (Vector3.x q - Vector3.x p)
        + (Vector3.z q - Vector3.z p) * (Vector3.z q - Vector3.z p)).

(** The steering branch of [update]. *)
Definition steered (self : Car3D) (track_points : list Vector3.t)
                   (keys : option Keys) (dt : R) : Car3D :=
  match is_player self, keys with
  | true, Some k => update_player_input self k dt
  | _, _ => update_ai self track_points dt
  end.

(** The three modes of [Game3D]. *)
Definition valid_state (s : string) : Prop :=
  s = "menu"%string \/ s = "racing"%string \/ s = "finish"%string.

(** What every frame of a session keeps. *)
Definition session_ok (pts : list Vector3.t) (g : Game3D) : Prop :=
  points (track g) = pts /\ List.length (all_cars g) = 4%nat
  /\ valid_state (state g).

(** The box the track is drawn in. *)
Definition in_track_box (p : Vector3.t) : Prop :=
  -520 <= Vector3.x p <= 520 /\ -30 <= Vector3.y p <= 130
  /\ -360 <= Vector3.z p <= 360.

End RacingCases.

(** ** The cases of the collision check *)

Module FlappyCases.
Import Flappy.
Local Open Scope Q_scope.

(** The player's box lies to the left or to the right of the pipe. *)
Definition box_outside_span (g : Game) (p : Pipe) : Prop :=
  inject_Z (player_x g + PLAYER_SIZE) <= x p
  \/ x p + 50 <= inject_Z (player_x g).

(** The player's box overlaps the 50 pixels of the pipe. *)
Definition box_within_span (g : Game) (p : Pipe) : Prop :=
  inject_Z (player_x g) < x p + 50
  /\ x p < inject_Z (player_x g + PLAYER_SIZE).

(** The player's box fits between the two halves of the pipe. *)
Definition box_inside_gap (g : Game) (p : Pipe) : Prop :=
  inject_Z (top_height p) <= player_y g
  /\ player_y g + inject_Z PLAYER_SIZE <= inject_Z (top_height p + gap p).

(** The player's box reaches above or below the gap. *)
Definition box_outside_gap (g : Game) (p : Pipe) : Prop :=
  player_y g < inject_Z (top_height p)
  \/ inject_Z (top_height p + gap p) < player_y g + inject_Z PLAYER_SIZE.

(** A player at mid height and three pipes: one ahead of the player, one
    around it with the player in its gap, one around it with its upper half
    reaching into the player. *)
Definition pipe_ahead : Pipe := mkPipe (700 # 1) 200 200 false.
Definition pipe_cleared : Pipe := mkPipe (120 # 1) 200 200 false.
Definition pipe_struck : Pipe := mkPipe (120 # 1) 310 200 false.

Definition flying (l : list Pipe) : Game :=
  mkGame true 100 (300 # 1) 0 l 0 false 0 4 (4 # 1) 200 200.

(** The player after the gravity step of [update]. *)
Definition fallen_velocity (g : Game) : Q := player_velocity g + GRAVITY.
Definition fallen_y (g : Game) : Q := player_y g + fallen_velocity g.

(** The player's box has left the screen. *)
Definition off_screen (y : Q) : Prop :=
  y < 0 \/ inject_Z SCREEN_HEIGHT < y + inject_Z PLAYER_SIZE.

(** What a session keeps true of the game: the constants set by
    [reset_game], a score that counts the pipes passed, and pipes of the
    sizes [spawn_pipe] gives them, not beyond the right edge. *)
Definition pipe_ok (p : Pipe) : Prop :=
  (100 <= gap p <= 200)%Z /\ x p <= inject_Z SCREEN_WIDTH.

Definition session_ok (g : Game) : Prop :=
  player_x g = 100%Z /\ base_speed g = 4%Z /\ base_gap g = 200%Z
  /\ (0 <= pipes_passed g)%Z /\ score g = pipes_passed g
  /\ (100 <= current_gap g <= 200)%Z /\ 4 <= current_speed g
  /\ Forall pipe_ok (pipes g).

(** A game in which nothing is set, as [reset_game] may find it. *)
Definition blank : Game := mkGame true 0 0 0 [] 0 true 0 0 0 0 0.

(** The second game has the player and the constants of the first. *)
Definition same_bird (g g' : Game) : Prop :=
  running g' = running g /\ player_x g' = player_x g
  /\ player_y g' = player_y g /\ player_velocity g' = player_velocity g
  /\ base_speed g' = base_speed g /\ base_gap g' = base_gap g.

(** The pipe [p'] is [p] moved left by [speed]. *)
Definition moved_by (speed : Q) (p p' : Pipe) : Prop :=
  x p' = x p - speed /\ top_height p' = top_height p /\ gap p' = gap p.

(** The test of the "Update pipes" loop: the pipe has not been counted,
    and once moved its right edge is left of the player. *)
Definition newly_passed (g : Game) (p : Pipe) : bool :=
  negb (passed p)
  && Qltb (x p - current_speed g + 50) (inject_Z (player_x g)).

(** The player of a new game left alone for [n] frames. *)
Definition idle (n : nat) : list Tick := repeat (mkTick [] 0) n.

End FlappyCases.

(** ** What the validator is expected to write *)

Module TrainingCases.
Import Console Training.
Local Open Scope Z_scope.

(** An error line and a new prompt per value turned down. *)
Definition reprompts (rejected : list Z) : list Output :=
  flat_map (fun _ => [Print error_message; Prompt prompt]) rejected.

(** The terminal after the values [rejected] have been turned down: the
    first prompt, then the error lines and new prompts. *)
Definition transcript (rejected : list Z) : list Output :=
  Prompt prompt :: reprompts rejected.

Definition outside (r : Z) : Prop := r < 10 \/ 30 < r.

(** What the song loop writes for the songs it reads: a prompt per song
    and, after the last prompt, the line that enough songs were entered. *)
Definition song_transcript (songs : list Z) : list Output :=
  repeat (Prompt song_prompt) (List.length songs)
  ++ match songs with
     | [] => []
     | _ => [Print enough_message]
     end.

(** The sum of a list of durations. *)
Definition sum (l : list Z) : Z := fold_right Z.add 0 l.

(** How often the foam machine is started in a transcript. *)
Definition foam_starts (out : list Output) : nat :=
  List.length
    (filter (fun o => match o with
                      | Print text => String.eqb text foam_message
                      | Prompt _ => false
                      end) out).

End TrainingCases.

(** * Properties *)

Module RBoolFacts.
Import RBool.
Local Open Scope R_scope.

Lemma Rltb_true a b : Rltb a b = true <-> a < b.
Proof. unfold Rltb. destruct (Rlt_dec a b); split; intros; auto; discriminate. Qed.

Lemma Rltb_false a b : Rltb a b = false <-> b <= a.
Proof.
  unfold Rltb. destruct (Rlt_dec a b); split; intros; auto; try discriminate; lra.
Qed.

Lemma Rleb_true a b : Rleb a b = true <-> a <= b.
Proof. unfold Rleb. destruct (Rle_dec a b); split; intros; auto; discriminate. Qed.

Lemma Rleb_false a b : Rleb a b = false <-> b < a.
Proof.
  unfold Rleb. destruct (Rle_dec a b); split; intros; auto; try discriminate; lra.
Qed.

Lemma Rgtb_true a b : Rgtb a b = true <-> a > b.
Proof. unfold Rgtb. rewrite Rltb_true. split; intros; lra. Qed.

Lemma Rgtb_false a b : Rgtb a b = false <-> a <= b.
Proof. unfold Rgtb. apply Rltb_false. Qed.

Lemma Reqb_true a b : Reqb a b = true <-> a = b.
Proof. unfold Reqb. destruct (Req_dec_T a b); split; intros; auto; discriminate. Qed.

Lemma Reqb_refl a : Reqb a a = true.
Proof. apply Reqb_true. reflexivity. Qed.


End RBoolFacts.

Module RacingFacts.
Import RBool RBoolFacts Racing Scenarios.
Local Open Scope R_scope.

Lemma Vector3_eqb_refl a : Vector3.eqb a a = true.
Proof. unfold Vector3.eqb. now rewrite !Reqb_refl. Qed.

Lemma Vector3_eqb_eq a b : Vector3.eqb a b = true <-> a = b.
Proof.
  unfold Vector3.eqb. rewrite !andb_true_iff, !Reqb_true.
  destruct a, b; simpl; split.
  - intros [[-> ->] ->]. reflexivity.
  - intros H; injection H; auto.
Qed.

(** *** Python helpers *)

Lemma radians_0 : radians 0 = 0.
Proof. unfold radians. lra. Qed.

Lemma Int_part_small r : 0 <= r < 1 -> Int_part r = 0%Z.
Proof. intros H. symmetry. apply Int_part_spec. simpl. lra. Qed.

Lemma Int_part_IZR n : Int_part (IZR n) = n.
Proof. symmetry. apply Int_part_spec. lra. Qed.

Lemma fmod360_small a : 0 <= a < 360 -> fmod360 a = a.
Proof.
  intros H. unfold fmod360. rewrite Int_part_small; [simpl; lra|].
  split; [apply Rmult_le_pos; lra|].
  apply Rmult_lt_reg_r with 360; [lra|]. unfold Rdiv.
  rewrite Rmult_assoc, Rinv_l; lra.
Qed.

Lemma py_int_IZR n : (0 <= n)%Z -> py_int (IZR n) = n.
Proof.
  intros H. unfold py_int. destruct (Rle_dec 0 (IZR n)) as [_|Hn].
  - apply Int_part_IZR.
  - exfalso. apply Hn. now apply IZR_le.
Qed.

(** *** The loops of [update_ai] terminate

    The bound on the iterations of the two normalisation loops is never
    reached: they leave the angle difference in [-180, 180]. *)

Lemma wrap_down_spec n : forall a,
  a <= 180 + 360 * INR n ->
  wrap_down n a <= 180 /\ (wrap_down n a = a \/ -180 < wrap_down n a).
Proof.
  induction n as [|n IH]; intros a Ha.
  - simpl in *. split; [lra|now left].
  - rewrite S_INR in Ha. simpl. unfold Rgtb.
    destruct (Rlt_dec 180 a) as [Hgt|Hle].
    + rewrite (proj2 (Rltb_true 180 a) Hgt).
      destruct (IH (a - 360)) as [H1 [H2|H2]]; [lra| |].
      * split; [exact H1|]. right. rewrite H2. lra.
      * split; [exact H1|now right].
    + rewrite (proj2 (Rltb_false 180 a)) by lra. split; [lra|now left].
Qed.

Lemma wrap_up_spec n : forall a,
  -180 - 360 * INR n <= a -> a <= 180 -> -180 <= wrap_up n a <= 180.
Proof.
  induction n as [|n IH]; intros a Ha Hb.
  - simpl in *. lra.
  - rewrite S_INR in Ha. simpl.
    destruct (Rlt_dec a (-180)) as [Hlt|Hge].
    + rewrite (proj2 (Rltb_true a (-180)) Hlt). apply IH; lra.
    + rewrite (proj2 (Rltb_false a (-180))) by lra. lra.
Qed.

Lemma wrap_fuel_enough a : Rabs a < 360 * INR (wrap_fuel a).
Proof.
  unfold wrap_fuel. rewrite S_INR.
  pose proof (Rabs_pos a) as Hpos.
  destruct (archimed (Rabs a / 360)) as [Hup _].
  assert (Hz : (0 <= up (Rabs a / 360))%Z).
  { apply le_IZR. apply Rlt_le. eapply Rle_lt_trans; [|exact Hup].
    apply Rmult_le_pos; lra. }
  rewrite INR_IZR_INZ, Z2Nat.id by exact Hz.
  assert (Rabs a / 360 * 360 = Rabs a) by (field).
  nra.
Qed.

Lemma normalise_angle_range a : -180 <= normalise_angle a <= 180.
Proof.
  unfold normalise_angle. cbv zeta.
  pose proof (wrap_fuel_enough a) as Hf.
  pose proof (Rle_abs a) as Habs.
  destruct (wrap_down_spec (wrap_fuel a) a) as [H1 H2]; [lra|].
  set (b := wrap_down (wrap_fuel a) a) in *.
  pose proof (wrap_fuel_enough b) as Hb.
  pose proof (Rle_abs (- b)) as Hnb. rewrite Rabs_Ropp in Hnb.
  apply wrap_up_spec; lra.
Qed.

(** The subscript [track_points[current_checkpoint]] of [update_ai] is in
    range. *)
Lemma current_checkpoint_in_range (last n : nat) :
  (2 <= n)%nat -> (Nat.min (last + 8) (n - 1) < n)%nat.
Proof. lia. Qed.

(** *** What the parts of [update] leave alone *)

Ltac cases_on_tests :=
  repeat match goal with
         | |- context [if ?b then _ else _] => destruct b; simpl
         end.

Lemma max_speed_cap_frame self :
  let c := max_speed_cap self in
  speed c = speed self /\ max_speed c = max_speed self
  /\ last_checkpoint c = last_checkpoint self
  /\ lap_count c = lap_count self /\ finished c = finished self
  /\ angle_yaw c = angle_yaw self /\ pos c = pos self.
Proof. unfold max_speed_cap. cases_on_tests; repeat split. Qed.

Lemma update_player_input_frame self keys dt :
  let c := update_player_input self keys dt in
  speed c = speed self /\ max_speed c = max_speed self
  /\ last_checkpoint c = last_checkpoint self
  /\ lap_count c = lap_count self /\ finished c = finished self
  /\ pos c = pos self.
Proof.
  unfold update_player_input, max_speed_cap. cases_on_tests; repeat split.
Qed.

Lemma update_ai_frame self track_points dt :
  let c := update_ai self track_points dt in
  speed c = speed self /\ max_speed c = max_speed self
  /\ last_checkpoint c = last_checkpoint self
  /\ lap_count c = lap_count self /\ finished c = finished self
  /\ pos c = pos self.
Proof.
  unfold update_ai, max_speed_cap. cases_on_tests; repeat split.
Qed.

Lemma update_track_height_frame self track_points :
  let c := update_track_height self track_points in
  speed c = speed self /\ max_speed c = max_speed self
  /\ last_checkpoint c = last_checkpoint self
  /\ lap_count c = lap_count self /\ finished c = finished self
  /\ velocity c = velocity self.
Proof. unfold update_track_height. destruct track_points; repeat split. Qed.

Lemma check_checkpoint_frame self track_points :
  let c := check_checkpoint self track_points in
  speed c = speed self /\ max_speed c = max_speed self
  /\ velocity c = velocity self /\ pos c = pos self
  /\ angle_yaw c = angle_yaw self.
Proof. unfold check_checkpoint. cases_on_tests; repeat split. Qed.

(** The speed [update] stores is the length of the velocity after
    friction. *)
Lemma speed_after_integrate self track_points dt :
  speed (integrate self track_points dt)
  = sqrt ((Vector3.x (velocity self) * (97 / 100)) ^ 2
          + (Vector3.z (velocity self) * (97 / 100)) ^ 2).
Proof.
  unfold integrate. cbv zeta.
  match goal with
  | |- speed (set_distance_traveled ?c _) = ?r => change (speed c = r)
  end.
  match goal with
  | |- speed (check_checkpoint ?c ?t) = _ =>
    rewrite (proj1 (check_checkpoint_frame c t))
  end.
  match goal with
  | |- speed (update_track_height ?c ?t) = _ =>
    rewrite (proj1 (update_track_height_frame c t))
  end.
  reflexivity.
Qed.

(** C1, evaluated on the first frame of a race: the player created by
    [setup_game] is at rest, heading 0; with the accelerator held its
    velocity gains [acceleration * 50 = 600] before the cap, which tests the
    stale [speed = 0] and does nothing; after friction the stored speed is
    582, far above the class maximum of 240. *)
Theorem speed_exceeds_max_on_first_frame :
  forall (x y z : R) (track_points : list Vector3.t) (dt : R),
    let car := Car3D_init x y z SPORTS true in
    let car' := update car track_points (Some keys_W) dt in
    speed car' = 582 /\ max_speed car' = 240
    /\ max_speed car' + 1 < speed car'.
Proof.
  intros x y z track_points dt car car'.
  assert (Hs : speed car' = 582).
  { unfold car', update, car. simpl finished. cbv iota. simpl is_player.
    cbv iota. rewrite speed_after_integrate.
    unfold update_player_input, max_speed_cap, Rgtb, keys_W. simpl.
    rewrite radians_0, cos_0, sin_0.
    destruct (Rltb_false 240 0) as [_ ->]; [|lra]. simpl.
    replace ((0 + 1 * 12 * 50) * (97 / 100)) with 582 by lra.
    replace ((0 + 0 * 12 * 50) * (97 / 100)) with 0 by lra.
    replace (582 * (582 * 1) + 0 * (0 * 1)) with (582 ^ 2) by (simpl; lra).
    apply sqrt_pow2. lra. }
  assert (Hm : max_speed car' = 240).
  { unfold car', update, car. simpl finished. cbv iota. simpl is_player.
    cbv iota. unfold integrate. cbv zeta.
    match goal with
    | |- max_speed (set_distance_traveled ?c _) = ?r =>
      change (max_speed c = r)
    end.
    match goal with
    | |- max_speed (check_checkpoint ?c ?t) = _ =>
      rewrite (proj1 (proj2 (check_checkpoint_frame c t)))
    end.
    match goal with
    | |- max_speed (update_track_height ?c ?t) = _ =>
      rewrite (proj1 (proj2 (update_track_height_frame c t)))
    end.
    simpl.
    match goal with
    | |- max_speed (update_player_input ?c ?k ?d) = _ =>
      rewrite (proj1 (proj2 (update_player_input_frame c k d)))
    end.
    reflexivity. }
  repeat split; trivial. rewrite Hs, Hm. lra.
Qed.

(** The AI branch has the same block after its own acceleration. *)
Lemma update_ai_accelerates self track_points dt :
  (2 <= List.length track_points)%nat ->
  speed self < max_speed self * (85 / 100) -> speed self <= max_speed self ->
  exists a : R,
    Vector3.x (velocity (update_ai self track_points dt))
    = Vector3.x (velocity self) + cos a * acceleration self * 30
    /\ Vector3.z (velocity (update_ai self track_points dt))
       = Vector3.z (velocity self) + sin a * acceleration self * 30.
Proof.
  intros Hl Hs Hm. unfold update_ai.
  destruct (Nat.ltb_spec (List.length track_points) 2); [lia|].
  unfold max_speed_cap, Rgtb. simpl.
  rewrite (proj2 (Rltb_true _ _) Hs). simpl.
  rewrite (proj2 (Rltb_false _ _) Hm). simpl.
  eexists. split; reflexivity.
Qed.

(** The same failure for an AI car: a SUPERCAR created by [setup_game],
    on any track of at least two points, has speed 465.6 after its first
    frame, whatever its heading; its maximum is 300. *)
Lemma ai_speed_exceeds_max_on_first_frame :
  forall (x y z : R) (track_points : list Vector3.t) (dt : R),
    (2 <= List.length track_points)%nat ->
    speed (update (Car3D_init x y z SUPERCAR false) track_points None dt)
    = 4656 / 10.
Proof.
  intros x y z track_points dt Hl. unfold update.
  cbn [finished is_player Car3D_init]. rewrite speed_after_integrate.
  destruct (update_ai_accelerates (Car3D_init x y z SUPERCAR false)
              track_points dt Hl) as (a & -> & ->); simpl; try lra.
  match goal with
  | |- sqrt ?e = _ =>
    replace e with ((4656 / 10) ^ 2 * (Rsqr (sin a) + Rsqr (cos a)))
      by (unfold Rsqr; field)
  end.
  rewrite sin2_cos2, Rmult_1_r. apply sqrt_pow2. lra.
Qed.

(** *** The closest track point *)

Lemma distance_to_self p : Vector3.distance_to p p = 0.
Proof.
  unfold Vector3.distance_to. cbv zeta.
  match goal with |- sqrt ?e = _ => replace e with 0 by ring end.
  apply sqrt_0.
Qed.

Lemma closest_step_at_zero p l :
  forall i, fold_left (closest_step p) l (Some 0, i) = (Some 0, i).
Proof.
  induction l as [|q l IH]; intros i; simpl; [reflexivity|].
  unfold closest_step at 2. simpl.
  destruct (Rltb_false (Vector3.distance_to p (snd q)) 0) as [_ ->].
  - apply IH.
  - apply sqrt_pos.
Qed.

(** A car standing on the first track point is closest to index 0. *)
Lemma closest_idx_head p rest : closest_idx p (p :: rest) = 0%nat.
Proof.
  unfold closest_idx, enumerate. simpl.
  unfold closest_step at 2. simpl. rewrite distance_to_self.
  now rewrite closest_step_at_zero.
Qed.

Lemma centerline_length : List.length centerline = 200%nat.
Proof. unfold centerline. now rewrite length_map, length_seq. Qed.

Lemma centerline_head :
  centerline = track_point 0 :: map track_point (seq 1 199).
Proof. reflexivity. Qed.

(** *** Lap counting *)

(** A car that is closest to an index below 20 and below its furthest
    index is counted a lap. *)
Lemma check_checkpoint_counts self track_points :
  let idx := closest_idx (pos self) track_points in
  track_points <> [] ->
  (idx < last_checkpoint self)%nat -> (idx < 20)%nat ->
  lap_count (check_checkpoint self track_points) = (lap_count self + 1)%nat.
Proof.
  intros idx Ht Hl H20. unfold check_checkpoint. fold idx.
  destruct track_points as [|p rest]; [congruence|]. simpl List.length.
  cbn [Nat.eqb].
  destruct (Nat.ltb_spec (last_checkpoint self) idx); [lia|].
  destruct (Nat.ltb_spec idx (last_checkpoint self)); [|lia].
  destruct (Nat.ltb_spec idx 20); [|lia].
  cbn [andb]. cbv zeta. cases_on_tests; reflexivity.
Qed.

(** The lap count after a call: [check_checkpoint] counts a lap exactly
    when the track is not empty and the closest index is below both 20 and
    [last_checkpoint], the furthest index reached so far. *)
Lemma lap_count_after_check_checkpoint :
  forall (self : Car3D) (track_points : list Vector3.t),
    let idx := closest_idx (pos self) track_points in
    lap_count (check_checkpoint self track_points)
    = if negb (List.length track_points =? 0)%nat
         && (idx <? last_checkpoint self)%nat && (idx <? 20)%nat
      then (lap_count self + 1)%nat
      else lap_count self.
Proof.
  intros self track_points idx. unfold check_checkpoint. fold idx.
  destruct (List.length track_points =? 0)%nat; simpl; [reflexivity|].
  destruct (Nat.ltb_spec (last_checkpoint self) idx) as [Hlt|Hge].
  - (* the furthest index is raised: no lap *)
    destruct (Nat.ltb_spec idx (last_checkpoint self)); [lia|reflexivity].
  - destruct (idx <? last_checkpoint self)%nat, (idx <? 20)%nat; simpl;
      try reflexivity.
    (* the lap is counted, whether or not it is the third *)
    cases_on_tests; reflexivity.
Qed.

(** A call for a car standing on the first track point, once it has been
    closest to any later point: a lap is counted, and neither the position
    nor the furthest index changes, so the next call finds the car in the
    same situation. *)
Lemma check_checkpoint_standing self p rest :
  pos self = p -> (0 < last_checkpoint self)%nat ->
  let c := check_checkpoint self (p :: rest) in
  lap_count c = (lap_count self + 1)%nat
  /\ last_checkpoint c = last_checkpoint self
  /\ pos c = p
  /\ finished c = (if (3 <=? lap_count self + 1)%nat then true
                   else finished self).
Proof.
  intros Hp Hl. unfold check_checkpoint. simpl List.length. cbv iota.
  rewrite Hp, closest_idx_head.
  replace (Nat.eqb (S (List.length rest)) 0) with false by reflexivity.
  destruct (Nat.ltb_spec (last_checkpoint self) 0); [lia|].
  destruct (Nat.ltb_spec 0 (last_checkpoint self)); [|lia].
  simpl andb. cbv iota. cbv zeta.
  change (lap_count (set_lap_count self (lap_count self + 1)))
    with (lap_count self + 1)%nat.
  destruct (3 <=? lap_count self + 1)%nat; repeat split; assumption.
Qed.

(** C2: the code counts laps that were never driven.  On the generated
    centre line of 200 points the player that has been closest to track
    point 1 and stands on the start line again is counted a lap by every
    call of [check_checkpoint], although index 1 is nowhere near index 199:
    [last_checkpoint] is never reset when a lap is counted, so three calls
    in a row, the car not moving, give three laps and finish the race. *)
Theorem standing_car_is_counted_three_laps :
  let c1 := check_checkpoint back_on_start centerline in
  let c2 := check_checkpoint c1 centerline in
  let c3 := check_checkpoint c2 centerline in
  List.length centerline = 200%nat
  /\ last_checkpoint back_on_start = 1%nat
  /\ lap_count back_on_start = 0%nat
  /\ finished back_on_start = false
  /\ closest_idx (pos back_on_start) centerline = 0%nat
  /\ lap_count c1 = 1%nat /\ last_checkpoint c1 = 1%nat
  /\ lap_count c2 = 2%nat /\ last_checkpoint c2 = 1%nat
  /\ lap_count c3 = 3%nat /\ finished c3 = true
  /\ ~ lap_only_from_near_final 20.
Proof.
  intros c1 c2 c3.
  assert (Hidx : closest_idx (pos back_on_start) centerline = 0%nat).
  { rewrite centerline_head. apply closest_idx_head. }
  assert (H0 : lap_count back_on_start = 0%nat) by reflexivity.
  assert (L0 : last_checkpoint back_on_start = 1%nat) by reflexivity.
  destruct (check_checkpoint_standing back_on_start (track_point 0)
              (map track_point (seq 1 199)))
    as (N1 & L1 & P1 & _); [reflexivity|rewrite L0; lia|].
  rewrite <- centerline_head in N1, L1, P1. fold c1 in N1, L1, P1.
  destruct (check_checkpoint_standing c1 (track_point 0)
              (map track_point (seq 1 199)))
    as (N2 & L2 & P2 & _); [exact P1|rewrite L1, L0; lia|].
  rewrite <- centerline_head in N2, L2, P2. fold c2 in N2, L2, P2.
  destruct (check_checkpoint_standing c2 (track_point 0)
              (map track_point (seq 1 199)))
    as (N3 & _ & _ & F3); [exact P2|rewrite L2, L1, L0; lia|].
  rewrite <- centerline_head in N3, F3. fold c3 in N3, F3.
  rewrite H0 in N1. rewrite N1 in N2. rewrite N2 in N3, F3.
  rewrite L0 in L1. rewrite L1 in L2.
  split; [apply centerline_length|]. split; [exact L0|].
  split; [exact H0|]. split; [reflexivity|]. split; [exact Hidx|].
  split; [exact N1|]. split; [exact L1|].
  split; [exact N2|]. split; [exact L2|].
  split; [exact N3|]. split; [exact F3|].
  intros H. specialize (H back_on_start centerline).
  fold c1 in H. rewrite N1, H0, L0, centerline_length in H.
  specialize (H eq_refl). simpl in H. lia.
Qed.

(** *** The furthest checkpoint *)

Lemma check_checkpoint_last self track_points :
  let c := check_checkpoint self track_points in
  let idx := closest_idx (pos self) track_points in
  (last_checkpoint c = last_checkpoint self
   \/ (last_checkpoint c = idx /\ (last_checkpoint self < idx)%nat))
  /\ (lap_count c = lap_count self \/ last_checkpoint c = last_checkpoint self)
  /\ (finished c = finished self \/ last_checkpoint c = last_checkpoint self).
Proof.
  unfold check_checkpoint.
  destruct (List.length track_points =? 0)%nat; simpl; [tauto|].
  destruct (Nat.ltb_spec (last_checkpoint self)
                         (closest_idx (pos self) track_points)); simpl.
  - repeat split; auto.
  - cases_on_tests; repeat split; auto.
Qed.

Lemma check_checkpoint_last_le self track_points :
  (last_checkpoint self <= last_checkpoint (check_checkpoint self track_points))%nat.
Proof.
  destruct (check_checkpoint_last self track_points) as [[->|[-> H]] _]; lia.
Qed.

Lemma integrate_last_le self track_points dt :
  (last_checkpoint self <= last_checkpoint (integrate self track_points dt))%nat.
Proof.
  unfold integrate. cbv zeta.
  match goal with
  | |- (_ <= last_checkpoint (set_distance_traveled ?c _))%nat =>
    change (last_checkpoint self <= last_checkpoint c)%nat
  end.
  match goal with
  | |- (_ <= last_checkpoint (check_checkpoint ?c ?t))%nat =>
    apply Nat.le_trans with (last_checkpoint c);
      [|apply check_checkpoint_last_le]
  end.
  match goal with
  | |- (_ <= last_checkpoint (update_track_height ?c ?t))%nat =>
    rewrite (proj1 (proj2 (proj2 (update_track_height_frame c t))))
  end.
  simpl. lia.
Qed.

Lemma update_last_le self track_points keys dt :
  (last_checkpoint self <= last_checkpoint (update self track_points keys dt))%nat.
Proof.
  unfold update. destruct (finished self); [lia|].
  match goal with
  | |- (_ <= last_checkpoint (integrate ?c _ _))%nat =>
    apply Nat.le_trans with (last_checkpoint c); [|apply integrate_last_le]
  end.
  destruct (is_player self), keys;
    [ rewrite (proj1 (proj2 (proj2 (update_player_input_frame self k dt))))
    | rewrite (proj1 (proj2 (proj2 (update_ai_frame self track_points dt))))
    | rewrite (proj1 (proj2 (proj2 (update_ai_frame self track_points dt))))
    | rewrite (proj1 (proj2 (proj2 (update_ai_frame self track_points dt)))) ];
    lia.
Qed.

(** C10: [last_checkpoint] never decreases.  A call of [check_checkpoint]
    leaves it alone or raises it to the closest index; when the call counts
    a lap or finishes the car it is left alone; and it does not decrease
    over a call of [update], over any sequence of [update] calls, or over
    any sequence of [check_checkpoint] calls between which the car moves. *)
Theorem last_checkpoint_never_decreases :
  forall self : Car3D,
    (forall track_points,
        let c := check_checkpoint self track_points in
        let idx := closest_idx (pos self) track_points in
        (last_checkpoint self <= last_checkpoint c)%nat
        /\ (last_checkpoint c = last_checkpoint self
            \/ (last_checkpoint c = idx /\ (last_checkpoint self < idx)%nat))
        /\ (lap_count c = lap_count self
            \/ last_checkpoint c = last_checkpoint self)
        /\ (finished c = finished self
            \/ last_checkpoint c = last_checkpoint self))
    /\ (forall track_points keys dt,
           (last_checkpoint self
            <= last_checkpoint (update self track_points keys dt))%nat)
    /\ (forall frames,
           (last_checkpoint self <= last_checkpoint (drive self frames))%nat)
    /\ (forall calls,
           (last_checkpoint self <= last_checkpoint (checkpoints self calls))%nat).
Proof.
  intros self. split; [|split; [|split]].
  - intros track_points c idx. split.
    + apply check_checkpoint_last_le.
    + apply check_checkpoint_last.
  - intros. apply update_last_le.
  - intros frames. revert self. unfold drive.
    induction frames as [|f frames IH]; intros self; simpl; [lia|].
    eapply Nat.le_trans; [|apply IH]. apply update_last_le.
  - intros calls. revert self. unfold checkpoints.
    induction calls as [|call calls IH]; intros self; simpl; [lia|].
    eapply Nat.le_trans; [|apply IH].
    apply (check_checkpoint_last_le (set_pos self (fst call))).
Qed.

(** *** Projection *)

Lemma py_int_bounds r n :
  0 <= r < IZR n -> (0 <= py_int r < n)%Z.
Proof.
  intros [H0 Hn]. unfold py_int. destruct (Rle_dec 0 r) as [_|H]; [|lra].
  destruct (base_Int_part r) as [Hle Hgt]. split.
  - apply Z.lt_succ_r, Z.lt_pred_lt_succ. simpl.
    apply lt_IZR. simpl. lra.
  - apply lt_IZR. lra.
Qed.

(** C3: [project_3d_to_2d] gives no projection when the rotated depth is
    at most 0.5, and when the screen coordinates are off screen; for a depth
    above 0.5 and coordinates on screen it gives the truncated coordinates,
    which are pixel positions of the 1400 x 900 screen; and a projection is
    only ever given in that last case. *)
Theorem project_3d_to_2d_spec :
  forall x y z cam_x cam_y cam_z cam_angle : R,
    let depth := rotated_z x z cam_x cam_z cam_angle in
    let sx := screen_x x z cam_x cam_z cam_angle in
    let sy := screen_y x y z cam_x cam_y cam_z cam_angle in
    let result := project_3d_to_2d x y z cam_x cam_y cam_z cam_angle in
    (depth <= 5 / 10 -> result = None)
    /\ (~ (0 <= sx < SCREEN_WIDTH /\ 0 <= sy < SCREEN_HEIGHT) -> result = None)
    /\ (5 / 10 < depth -> 0 <= sx < SCREEN_WIDTH -> 0 <= sy < SCREEN_HEIGHT ->
        result = Some (py_int sx, py_int sy)
        /\ (0 <= py_int sx < 1400)%Z /\ (0 <= py_int sy < 900)%Z)
    /\ (forall u v : Z,
           result = Some (u, v) ->
           5 / 10 < depth /\ 0 <= sx < SCREEN_WIDTH /\ 0 <= sy < SCREEN_HEIGHT
           /\ u = py_int sx /\ v = py_int sy).
Proof.
  intros x y z cam_x cam_y cam_z cam_angle depth sx sy result.
  unfold result, project_3d_to_2d. fold depth sx sy.
  destruct (Rle_dec depth (5 / 10)) as [Hd|Hd].
  - destruct (Rleb_true depth (5 / 10)) as [_ ->]; [|exact Hd].
    repeat split; try reflexivity; try lra; try discriminate.
  - destruct (Rleb_false depth (5 / 10)) as [_ ->]; [|lra].
    destruct (Rleb 0 sx) eqn:E1; destruct (Rltb sx SCREEN_WIDTH) eqn:E2;
      destruct (Rleb 0 sy) eqn:E3; destruct (Rltb sy SCREEN_HEIGHT) eqn:E4;
      simpl;
      try apply Rleb_true in E1; try apply Rleb_false in E1;
      try apply Rltb_true in E2; try apply Rltb_false in E2;
      try apply Rleb_true in E3; try apply Rleb_false in E3;
      try apply Rltb_true in E4; try apply Rltb_false in E4;
      (split; [intros; lra|]);
      (split; [intros Hn; try reflexivity; exfalso; apply Hn; lra|]);
      (split; [intros; try lra|intros u v Huv; try discriminate]).
    + split; [reflexivity|].
      split; apply py_int_bounds; unfold SCREEN_WIDTH, SCREEN_HEIGHT in *; lra.
    + injection Huv as <- <-. repeat split; lra.
Qed.

(** The theorem at two concrete points, camera heading 0: a point 10
    units behind the camera is not projected; a point 10 units straight
    ahead, at eye height, lands in the middle of the screen. *)
Lemma project_3d_to_2d_spec_witness :
  project_3d_to_2d 0 0 0 0 0 10 0 = None
  /\ project_3d_to_2d 0 0 10 0 0 0 0 = Some (700, 450)%Z.
Proof.
  split.
  - destruct (project_3d_to_2d_spec 0 0 0 0 0 10 0) as (H & _). apply H.
    unfold rotated_z. rewrite radians_0, sin_0, cos_0. lra.
  - assert (Hx : screen_x 0 10 0 0 0 = IZR 700).
    { unfold screen_x, rotated_x, rotated_z, SCREEN_WIDTH.
      rewrite radians_0, sin_0, cos_0. lra. }
    assert (Hy : screen_y 0 0 10 0 0 0 0 = IZR 450).
    { unfold screen_y, rotated_z, SCREEN_HEIGHT.
      rewrite radians_0, sin_0, cos_0. lra. }
    destruct (project_3d_to_2d_spec 0 0 10 0 0 0 0) as (_ & _ & H & _).
    destruct H as [-> _].
    + unfold rotated_z. rewrite radians_0, sin_0, cos_0. lra.
    + rewrite Hx. unfold SCREEN_WIDTH. lra.
    + rewrite Hy. unfold SCREEN_HEIGHT. lra.
    + rewrite Hx, Hy, !py_int_IZR by lia. reflexivity.
Defined.

(** *** Steering *)

Lemma Rmax_ge_1 m : 1 <= Rmax m 1.
Proof. apply Rmax_r. Qed.

Lemma turn_amount_increasing c1 c2 :
  max_speed c1 = max_speed c2 -> speed c1 < speed c2 ->
  turn_amount c1 < turn_amount c2.
Proof.
  intros Hm Hs. unfold turn_amount. rewrite Hm.
  pose proof (Rmax_ge_1 (max_speed c2)) as H1.
  apply Rmult_lt_compat_l; [lra|].
  apply Rmult_lt_compat_r; [|exact Hs].
  apply Rinv_0_lt_compat. lra.
Qed.

Lemma update_player_input_angle self keys dt :
  let t := turn_amount self in
  let a := angle_yaw self in
  let a := if keys K_a || keys K_LEFT then a - t else a in
  let a := if keys K_d || keys K_RIGHT then a + t else a in
  angle_yaw (update_player_input self keys dt) = fmod360 a.
Proof.
  unfold update_player_input. cbv zeta.
  match goal with
  | |- angle_yaw (max_speed_cap ?c) = _ =>
    rewrite (proj1 (proj2 (proj2 (proj2 (proj2 (proj2
               (max_speed_cap_frame c)))))))
  end.
  destruct (keys K_w || keys K_UP), (keys K_s || keys K_DOWN),
    (keys K_LSHIFT || keys K_RSHIFT), (keys K_a || keys K_LEFT),
    (keys K_d || keys K_RIGHT); reflexivity.
Qed.

(** C5, as amended: the steering step is [5 * speed / max (max_speed, 1)],
    proportional to the speed ratio; a steering key moves the heading by
    that amount (left subtracts, right adds, then the heading is reduced
    modulo 360); and of two cars with the same maximum speed the faster one
    turns MORE per frame, not less. *)
Theorem steering_scales_with_speed :
  forall (self : Car3D) (keys : Keys) (dt : R),
    let t := turn_amount self in
    let a := angle_yaw self in
    let left := keys K_a || keys K_LEFT in
    let right := keys K_d || keys K_RIGHT in
    t = 5 * (speed self / Rmax (max_speed self) 1)
    /\ angle_yaw (update_player_input self keys dt)
       = fmod360 (let a := if left then a - t else a in
                  if right then a + t else a)
    /\ (left = false -> right = true -> 0 <= a + t < 360 ->
        angle_yaw (update_player_input self keys dt) - a = t)
    /\ (forall other : Car3D,
           max_speed other = max_speed self -> speed self < speed other ->
           t < turn_amount other).
Proof.
  intros self keys dt t a left right.
  split; [reflexivity|]. split; [apply update_player_input_angle|]. split.
  - intros Hl Hr Ha. rewrite update_player_input_angle. fold left right.
    rewrite Hl, Hr. fold a t. rewrite fmod360_small by exact Ha. lra.
  - intros other Hm Hs. apply turn_amount_increasing; auto.
Qed.

Lemma player_turn_amount v :
  turn_amount (set_speed player_on_grid v) = 5 * (v / 240).
Proof.
  unfold turn_amount. simpl. now rewrite Rmax_left by lra.
Qed.

Lemma heading_change_player v dt :
  0 <= v <= 240 -> heading_change (set_speed player_on_grid v) keys_D dt = 5 * (v / 240).
Proof.
  intros Hv. unfold heading_change. rewrite update_player_input_angle.
  rewrite player_turn_amount. simpl.
  rewrite fmod360_small by lra. rewrite Rabs_right; lra.
Qed.

(** The theorem on the player of the start grid: at speed 100, steering
    right for one frame turns the car by [5 * 100 / 240] degrees, and at
    speed 200 the step is larger. *)
Lemma steering_scales_with_speed_witness :
  angle_yaw (update_player_input (set_speed player_on_grid 100) keys_D dt_default)
  - angle_yaw (set_speed player_on_grid 100) = 5 * (100 / 240)
  /\ turn_amount (set_speed player_on_grid 100)
     < turn_amount (set_speed player_on_grid 200).
Proof.
  destruct (steering_scales_with_speed (set_speed player_on_grid 100)
              keys_D dt_default) as (_ & _ & Hturn & Hmono).
  split.
  - rewrite Hturn; [apply player_turn_amount|reflexivity|reflexivity|].
    rewrite player_turn_amount. simpl. lra.
  - apply Hmono; [reflexivity|simpl; lra].
Defined.

(** C5, as stated, fails: with "steer right" held for one frame, the
    start-grid player turns by 25/12 degrees at speed 100 and by 25/6
    degrees at speed 200. *)
Lemma faster_car_turns_more :
  heading_change (set_speed player_on_grid 100) keys_D dt_default = 25 / 12
  /\ heading_change (set_speed player_on_grid 200) keys_D dt_default = 25 / 6
  /\ ~ faster_turns_less.
Proof.
  assert (H1 : heading_change (set_speed player_on_grid 100) keys_D dt_default
               = 25 / 12) by (rewrite heading_change_player; lra).
  assert (H2 : heading_change (set_speed player_on_grid 200) keys_D dt_default
               = 25 / 6) by (rewrite heading_change_player; lra).
  split; [exact H1|]. split; [exact H2|].
  intros H. specialize (H player_on_grid 100 200 dt_default).
  rewrite H1, H2 in H. lra.
Qed.

(** *** Track generation *)

Lemma append_points l : forall t,
  fold_left append_point l t
  = mkTrack (points t ++ map track_point l) (left_barriers t)
            (right_barriers t).
Proof.
  induction l as [|i l IH]; intros t; simpl.
  - rewrite app_nil_r. now destruct t.
  - rewrite IH. simpl. now rewrite <- app_assoc.
Qed.

Lemma index_In l p :
  In p l -> exists i, index l p = Some i /\ (i < List.length l)%nat.
Proof.
  induction l as [|q l IH]; simpl; [tauto|]. intros Hin.
  destruct (Vector3.eqb q p) eqn:E.
  - exists 0%nat. split; [reflexivity|lia].
  - destruct Hin as [->|Hin]; [now rewrite Vector3_eqb_refl in E|].
    destruct (IH Hin) as (i & -> & Hi). exists (S i). simpl. split; [reflexivity|lia].
Qed.

Lemma barrier_step_ok self point :
  In point (points self) ->
  exists self', barrier_step self point = Some self'
                /\ points self' = points self
                /\ (List.length (left_barriers self') - List.length (left_barriers self)
                    = List.length (right_barriers self') - List.length (right_barriers self))%nat
                /\ (List.length (left_barriers self) <= List.length (left_barriers self'))%nat
                /\ (List.length (right_barriers self) <= List.length (right_barriers self'))%nat.
Proof.
  intros Hin. unfold barrier_step.
  destruct (index_In _ _ Hin) as (i & -> & Hi). simpl.
  destruct (nth_error (points self) ((i + 1) mod List.length (points self)))
    as [next_point|] eqn:E.
  - simpl. cases_on_tests; eexists; repeat split; simpl;
      rewrite ?length_app; simpl; lia.
  - apply nth_error_None in E.
    pose proof (Nat.mod_upper_bound (i + 1) (List.length (points self))). lia.
Qed.

Lemma barrier_loop_ok todo : forall self,
  (forall p, In p todo -> In p (points self)) ->
  exists self', barrier_loop self todo = Some self'
                /\ points self' = points self
                /\ (List.length (left_barriers self') - List.length (left_barriers self)
                    = List.length (right_barriers self') - List.length (right_barriers self))%nat
                /\ (List.length (left_barriers self) <= List.length (left_barriers self'))%nat
                /\ (List.length (right_barriers self) <= List.length (right_barriers self'))%nat.
Proof.
  induction todo as [|point todo IH]; intros self Hin; simpl.
  - exists self. repeat split; lia.
  - destruct (barrier_step_ok self point) as (s1 & -> & Hp & Hd & Hl & Hr);
      [apply Hin; now left|]. simpl.
    destruct (IH s1) as (s2 & -> & Hp2 & Hd2 & Hl2 & Hr2).
    + intros p Hp'. rewrite Hp. apply Hin. now right.
    + exists s2. repeat split; try congruence; lia.
Qed.

(** [generate_track] returns, whatever the object holds: it appends the
    200 points of the centre line to [points] and as many left as right
    barriers. *)
Lemma generate_track_ok t :
  exists t', generate_track t = Some t'
             /\ points t' = points t ++ centerline
             /\ (List.length (left_barriers t') - List.length (left_barriers t)
                 = List.length (right_barriers t') - List.length (right_barriers t))%nat
             /\ (List.length (left_barriers t) <= List.length (left_barriers t'))%nat
             /\ (List.length (right_barriers t) <= List.length (right_barriers t'))%nat.
Proof.
  unfold generate_track. rewrite append_points.
  match goal with
  | |- exists t', barrier_loop ?s ?l = _ /\ _ =>
    destruct (barrier_loop_ok l s) as (t' & Ht & Hp & Hd & Hl & Hr);
      [auto|exists t']
  end.
  simpl in *. repeat split; auto.
Qed.

(** The track every game runs on. *)
Lemma Track3D_init_ok :
  exists t : Track3D, Track3D_init = Some t /\ points t = centerline.
Proof.
  destruct (generate_track_ok (mkTrack [] [] [])) as (t & Ht & Hp & _).
  exists t. split; [exact Ht|exact Hp].
Qed.

(** *** Game modes *)

Lemma setup_game_state g : state (setup_game g) = state g.
Proof. unfold setup_game. now destruct (points (track g)). Qed.

Lemma setup_game_cars g :
  points (track g) <> [] ->
  all_cars (setup_game g) = fresh_cars (points (track g)).
Proof. unfold setup_game. destruct (points (track g)); [tauto|reflexivity]. Qed.

Lemma space_in_menu g :
  state g = "menu"%string ->
  handle_events g [KEYDOWN K_SPACE] = setup_game (set_state g "racing").
Proof. intros H. unfold handle_events. simpl. now rewrite H. Qed.

Lemma space_in_finish g :
  state g = "finish"%string ->
  handle_events g [KEYDOWN K_SPACE] = set_state g "menu".
Proof. intros H. unfold handle_events. simpl. now rewrite H. Qed.

Lemma update_racing g keys dt p ais :
  state g = "racing"%string -> all_cars g = p :: ais ->
  let pts := points (track g) in
  let p' := update p pts (Some keys) dt in
  Game3D_update g keys dt
  = Some (mkGame (running g)
                 (if finished p' then "finish" else "racing")
                 (track g)
                 (p' :: map (fun car => update car pts None dt) ais)).
Proof.
  intros Hs Hc. unfold Game3D_update. rewrite Hs, Hc. simpl.
  destruct (finished (update p (points (track g)) (Some keys) dt));
    unfold set_state, set_all_cars; simpl; now rewrite ?Hs.
Qed.

(** C7, as amended: SPACE takes the menu to the race and it is this
    transition that runs [setup_game], creating the cars anew; a frame of
    the race ends in the finish state exactly when the player is finished
    after its update; SPACE takes the finish state back to the menu and
    changes nothing else: the cars, their laps and positions stay as the
    race left them. *)
Theorem game_mode_transitions :
  forall g : Game3D,
    (state g = "menu"%string ->
     handle_events g [KEYDOWN K_SPACE] = setup_game (set_state g "racing")
     /\ state (handle_events g [KEYDOWN K_SPACE]) = "racing"%string
     /\ (points (track g) <> [] ->
         all_cars (handle_events g [KEYDOWN K_SPACE])
         = fresh_cars (points (track g))))
    /\ (forall keys dt p ais,
           state g = "racing"%string -> all_cars g = p :: ais ->
           let pts := points (track g) in
           let p' := update p pts (Some keys) dt in
           Game3D_update g keys dt
           = Some (mkGame (running g)
                          (if finished p' then "finish" else "racing")
                          (track g)
                          (p' :: map (fun car => update car pts None dt) ais)))
    /\ (state g = "finish"%string ->
        handle_events g [KEYDOWN K_SPACE] = set_state g "menu"
        /\ state (handle_events g [KEYDOWN K_SPACE]) = "menu"%string
        /\ all_cars (handle_events g [KEYDOWN K_SPACE]) = all_cars g).
Proof.
  intros g. split; [|split].
  - intros H. rewrite (space_in_menu g H). split; [reflexivity|]. split.
    + now rewrite setup_game_state.
    + intros Hp. now rewrite setup_game_cars.
  - intros keys dt p ais Hs Hc. now apply update_racing.
  - intros H. rewrite (space_in_finish g H). repeat split.
Qed.

(** *** A frame that ends the race *)

Lemma track_height_at_zero self l :
  forall h, fold_left (track_height_step self) l (Some 0, h) = (Some 0, h).
Proof.
  induction l as [|q l IH]; intros h; simpl; [reflexivity|].
  unfold track_height_step at 2. simpl.
  match goal with
  | |- context [Rltb ?d 0] => destruct (Rltb_false d 0) as [_ ->]
  end.
  - apply IH.
  - apply sqrt_pos.
Qed.

(** A car standing on the first track point keeps its height. *)
Lemma update_track_height_head self p rest :
  pos self = p -> pos (update_track_height self (p :: rest)) = p.
Proof.
  intros Hp. unfold update_track_height. simpl fold_left.
  unfold track_height_step at 2. simpl below. cbv iota. rewrite Hp.
  match goal with
  | |- context [sqrt ?e] => replace e with 0 by ring
  end.
  rewrite sqrt_0, track_height_at_zero. simpl.
  destruct p as [px py pz]. simpl. f_equal. lra.
Qed.

Lemma check_checkpoint_finishes self p rest :
  pos self = p -> (0 < last_checkpoint self)%nat -> (2 <= lap_count self)%nat ->
  finished (check_checkpoint self (p :: rest)) = true.
Proof.
  intros Hp Hl Hn. unfold check_checkpoint. simpl List.length. cbv iota.
  rewrite Hp, closest_idx_head.
  replace (Nat.eqb (S (List.length rest)) 0) with false by reflexivity.
  destruct (Nat.ltb_spec (last_checkpoint self) 0); [lia|].
  destruct (Nat.ltb_spec 0 (last_checkpoint self)); [|lia].
  simpl andb. cbv iota.
  destruct (Nat.leb_spec 3 (lap_count (set_lap_count self (lap_count self + 1))));
    [reflexivity|simpl in *; lia].
Qed.

Lemma integrate_at_rest self p rest dt :
  pos self = p ->
  Vector3.x (velocity self) = 0 -> Vector3.z (velocity self) = 0 ->
  (0 < last_checkpoint self)%nat -> (2 <= lap_count self)%nat ->
  finished (integrate self (p :: rest) dt) = true.
Proof.
  intros Hp Hx Hz Hl Hn. unfold integrate. cbv zeta.
  match goal with
  | |- finished (set_distance_traveled ?c _) = ?r => change (finished c = r)
  end.
  match goal with
  | |- finished (check_checkpoint (update_track_height ?c ?t) _) = _ =>
    assert (Hc : pos c = p);
      [|pose proof (update_track_height_head c p rest Hc) as Hh;
        pose proof (update_track_height_frame c t) as (_ & _ & Hl' & Hn' & _)]
  end.
  - simpl. rewrite Hx, Hz, Hp. destruct p as [px py pz]. simpl. f_equal; lra.
  - apply check_checkpoint_finishes; [exact Hh| |].
    + rewrite Hl'. simpl. exact Hl.
    + rewrite Hn'. simpl. exact Hn.
Qed.

(** With no key held and a stored speed within the limit,
    [update_player_input] leaves the velocity alone. *)
Lemma update_player_input_idle self dt :
  speed self <= max_speed self ->
  velocity (update_player_input self keys_none dt) = velocity self.
Proof.
  intros H. unfold update_player_input, max_speed_cap, keys_none, Rgtb.
  simpl. destruct (Rltb_false (max_speed self) (speed self)) as [_ ->];
    [reflexivity|exact H].
Qed.

(** The player on its last lap, standing on the start line with no key
    held, is finished by the next frame. *)
Lemma on_last_lap_finishes :
  finished (update on_last_lap centerline (Some keys_none) dt_default) = true.
Proof.
  unfold update.
  change (finished on_last_lap) with false.
  change (is_player on_last_lap) with true. cbv iota.
  rewrite centerline_head.
  pose proof (update_player_input_frame on_last_lap keys_none dt_default)
    as (_ & _ & Hl & Hn & _ & Hp).
  assert (Hv : velocity (update_player_input on_last_lap keys_none dt_default)
               = Vector3.mk 0 0 0).
  { rewrite update_player_input_idle; [reflexivity|].
    change (0 <= 240). lra. }
  apply integrate_at_rest.
  - rewrite Hp. reflexivity.
  - now rewrite Hv.
  - now rewrite Hv.
  - rewrite Hl. change (0 < 5)%nat. lia.
  - rewrite Hn. change (2 <= 2)%nat. lia.
Qed.

(** The theorem on a session, on the generated track: SPACE in the menu
    starts the race with the cars of [setup_game]; the frame in which the
    player completes its third lap ends in the finish state; SPACE there
    returns to the menu with the winner's car as it was. *)
Lemma game_mode_transitions_witness :
  exists t : Track3D,
    Track3D_init = Some t
    /\ (state (handle_events (in_menu t) [KEYDOWN K_SPACE]) = "racing"%string
        /\ all_cars (handle_events (in_menu t) [KEYDOWN K_SPACE])
           = fresh_cars centerline)
    /\ (exists g', Game3D_update (last_lap t) keys_none dt_default = Some g'
                   /\ state g' = "finish"%string)
    /\ (state (handle_events (race_won t) [KEYDOWN K_SPACE]) = "menu"%string
        /\ all_cars (handle_events (race_won t) [KEYDOWN K_SPACE])
           = winner :: tl (fresh_cars centerline)).
Proof.
  destruct Track3D_init_ok as (t & Ht & Hp). exists t.
  split; [exact Ht|]. split; [|split].
  - destruct (game_mode_transitions (in_menu t)) as (H & _ & _).
    destruct (H eq_refl) as (_ & Hs & Hc). split; [exact Hs|].
    change (points (track (in_menu t))) with (points t) in Hc.
    rewrite Hp in Hc. apply Hc.
    rewrite centerline_head. discriminate.
  - destruct (game_mode_transitions (last_lap t)) as (_ & H & _).
    eexists. split.
    + apply (H keys_none dt_default on_last_lap (tl (fresh_cars centerline)));
        reflexivity.
    + cbn [state].
      change (points (track (last_lap t))) with (points t).
      rewrite Hp, on_last_lap_finishes. reflexivity.
  - destruct (game_mode_transitions (race_won t)) as (_ & _ & H).
    destruct (H eq_refl) as (_ & Hs & Hc). split; [exact Hs|exact Hc].
Defined.

(** C7, as stated, fails: after SPACE on the finish screen of a game on
    the generated track, the player's car still has its three laps and is
    still finished; the cars are not those [setup_game] would create. *)
Lemma cars_survive_return_to_menu :
  (exists t : Track3D,
      Track3D_init = Some t
      /\ state (race_won t) = "finish"%string
      /\ state (handle_events (race_won t) [KEYDOWN K_SPACE]) = "menu"%string
      /\ player (handle_events (race_won t) [KEYDOWN K_SPACE]) = Some winner
      /\ lap_count winner = 3%nat /\ finished winner = true
      /\ hd_error (fresh_cars (points t)) = Some player_on_grid
      /\ lap_count player_on_grid = 0%nat)
  /\ ~ reset_on_return_to_menu.
Proof.
  destruct Track3D_init_ok as (t & Ht & Hp).
  assert (Hf : hd_error (fresh_cars (points t)) = Some player_on_grid).
  { rewrite Hp, centerline_head. reflexivity. }
  split.
  - exists t. repeat split; trivial.
  - intros H. specialize (H (race_won t) eq_refl).
    rewrite space_in_finish in H by reflexivity.
    change (winner :: tl (fresh_cars centerline) = fresh_cars (points t)) in H.
    apply (f_equal (@hd_error Car3D)) in H. rewrite Hf in H.
    apply (f_equal (option_map lap_count)) in H. discriminate H.
Qed.

End RacingFacts.

Module FlappyFacts.
Import Flappy FlappyCases.
Local Open Scope Q_scope.

Lemma Qltb_true a b : Qltb a b = true <-> a < b.
Proof.
  unfold Qltb. rewrite negb_true_iff. split.
  - intros H. apply Qnot_le_lt. intros Hle.
    apply Qle_bool_iff in Hle. congruence.
  - intros H. destruct (Qle_bool b a) eqn:E; [|reflexivity].
    apply Qle_bool_iff in E. exfalso. eapply Qlt_not_le; eauto.
Qed.

Lemma Qltb_false a b : Qltb a b = false <-> b <= a.
Proof.
  unfold Qltb. rewrite negb_false_iff. apply Qle_bool_iff.
Qed.

Lemma in_span_true g p : in_span g p = true <-> box_within_span g p.
Proof.
  unfold in_span, box_within_span, Qgtb.
  now rewrite andb_true_iff, !Qltb_true.
Qed.

Lemma in_span_false g p : in_span g p = false <-> box_outside_span g p.
Proof.
  unfold in_span, box_outside_span, Qgtb.
  rewrite andb_false_iff, !Qltb_false. tauto.
Qed.

Lemma out_of_gap_true g p : out_of_gap g p = true <-> box_outside_gap g p.
Proof.
  unfold out_of_gap, box_outside_gap, Qgtb.
  now rewrite orb_true_iff, !Qltb_true.
Qed.

Lemma out_of_gap_false g p : out_of_gap g p = false <-> box_inside_gap g p.
Proof.
  unfold out_of_gap, box_inside_gap, Qgtb.
  now rewrite orb_false_iff, !Qltb_false.
Qed.

(** The loop ends the game exactly when one pipe is hit. *)
Lemma check_collisions_fold l : forall s,
  fold_left collide l s
  = if existsb (fun p => in_span s p && out_of_gap s p) l
    then set_game_over s true else s.
Proof.
  induction l as [|p l IH]; intros s; simpl; [reflexivity|].
  rewrite IH. unfold collide.
  destruct (in_span s p) eqn:E1; simpl; [|reflexivity].
  destruct (out_of_gap s p) eqn:E2; simpl; [|reflexivity].
  change (fun p0 => in_span (set_game_over s true) p0
                    && out_of_gap (set_game_over s true) p0)
    with (fun p0 => in_span s p0 && out_of_gap s p0).
  now destruct (existsb _ l).
Qed.

(** C4: in the collision loop of [Game.update], a pipe the player's box
    is outside of horizontally leaves the game as it is; so does a pipe the
    box overlaps horizontally while it fits in the gap; a pipe the box
    overlaps horizontally while it reaches out of the gap sets [game_over].
    Hence the loop changes nothing when every pipe is of the first two
    kinds, and sets [game_over] as soon as one pipe is of the third. *)
Theorem collision_check_spec :
  forall g : Game,
    (forall p : Pipe,
        (box_outside_span g p -> collide g p = g)
        /\ (box_within_span g p -> box_inside_gap g p -> collide g p = g)
        /\ (box_within_span g p -> box_outside_gap g p ->
            game_over (collide g p) = true))
    /\ ((forall p, In p (pipes g) ->
                   box_outside_span g p
                   \/ (box_within_span g p /\ box_inside_gap g p)) ->
        check_collisions g = g)
    /\ ((exists p, In p (pipes g)
                   /\ box_within_span g p /\ box_outside_gap g p) ->
        game_over (check_collisions g) = true)
    /\ (forall draw : Z,
           game_over g = false ->
           update g draw = check_collisions (advance g draw)).
Proof.
  intros g. split; [|split; [|split]].
  - intros p. unfold collide. repeat split.
    + intros H. apply in_span_false in H. now rewrite H.
    + intros _ H. apply out_of_gap_false in H. rewrite H.
      now destruct (in_span g p).
    + intros H1 H2. apply in_span_true in H1. apply out_of_gap_true in H2.
      now rewrite H1, H2.
  - intros H. unfold check_collisions. rewrite check_collisions_fold.
    destruct (existsb _ (pipes g)) eqn:E; [|reflexivity].
    apply existsb_exists in E. destruct E as (p & Hin & Hp).
    apply andb_true_iff in Hp. destruct Hp as [H1 H2].
    destruct (H p Hin) as [Ho|[_ Hi]].
    + apply in_span_false in Ho. congruence.
    + apply out_of_gap_false in Hi. congruence.
  - intros (p & Hin & H1 & H2). unfold check_collisions.
    rewrite check_collisions_fold.
    replace (existsb _ (pipes g)) with true; [reflexivity|].
    symmetry. apply existsb_exists. exists p. split; [exact Hin|].
    apply andb_true_iff. split;
      [now apply in_span_true|now apply out_of_gap_true].
  - intros draw H. unfold update. now rewrite H.
Qed.

Ltac compare_numbers :=
  unfold box_outside_span, box_within_span, box_inside_gap, box_outside_gap,
    Qle, Qlt; simpl; lia.

(** The theorem on a player at height 300: a pipe still 600 pixels ahead
    and a pipe whose gap [200, 400] holds the box [300, 360] leave the game
    running; a pipe whose upper half ends at 310 ends it. *)
Lemma collision_check_spec_witness :
  collide (flying [pipe_ahead]) pipe_ahead = flying [pipe_ahead]
  /\ collide (flying [pipe_cleared]) pipe_cleared = flying [pipe_cleared]
  /\ game_over (collide (flying [pipe_struck]) pipe_struck) = true
  /\ check_collisions (flying [pipe_ahead; pipe_cleared])
     = flying [pipe_ahead; pipe_cleared]
  /\ game_over (check_collisions (flying [pipe_ahead; pipe_struck])) = true
  /\ update (flying [pipe_ahead]) 200
     = check_collisions (advance (flying [pipe_ahead]) 200).
Proof.
  split; [|split; [|split; [|split; [|split]]]].
  - destruct (collision_check_spec (flying [pipe_ahead])) as (H & _).
    destruct (H pipe_ahead) as (H1 & _). apply H1. left. compare_numbers.
  - destruct (collision_check_spec (flying [pipe_cleared])) as (H & _).
    destruct (H pipe_cleared) as (_ & H2 & _).
    apply H2; split; compare_numbers.
  - destruct (collision_check_spec (flying [pipe_struck])) as (H & _).
    destruct (H pipe_struck) as (_ & _ & H3).
    apply H3; [split|left]; compare_numbers.
  - destruct (collision_check_spec (flying [pipe_ahead; pipe_cleared]))
      as (_ & H & _).
    apply H. intros p [<-|[<-|[]]];
      [left; left|right; split; split]; compare_numbers.
  - destruct (collision_check_spec (flying [pipe_ahead; pipe_struck]))
      as (_ & _ & H & _).
    apply H. exists pipe_struck. split; [simpl; tauto|].
    split; [split|left]; compare_numbers.
  - destruct (collision_check_spec (flying [pipe_ahead])) as (_ & _ & _ & H).
    apply H. reflexivity.
Defined.

End FlappyFacts.

Module TrainingFacts.
Import Console Training TrainingCases.
Local Open Scope Z_scope.

Lemma out_of_range_true r : out_of_range r = true <-> outside r.
Proof. unfold out_of_range, outside. rewrite orb_true_iff. lia. Qed.

Lemma out_of_range_false r : out_of_range r = false <-> 10 <= r <= 30.
Proof. unfold out_of_range. rewrite orb_false_iff. lia. Qed.

(** The loop started on [ts] turns down [ts] and the values after it as
    long as they are out of range, and stops on the first value in range. *)
Lemma validation_loop_accepts rejected : forall ts out v rest,
  Forall outside rejected -> 10 <= v <= 30 ->
  nth 0 (rejected ++ [v]) v = ts ->
  validation_loop ts (tl (rejected ++ v :: rest)) out
  = (out ++ reprompts rejected, Accepted v rest).
Proof.
  induction rejected as [|r rejected IH]; intros ts out v rest Hrej Hv Hts;
    simpl in *; subst ts.
  - rewrite app_nil_r.
    destruct rest; simpl; now rewrite (proj2 (out_of_range_false v) Hv).
  - inversion Hrej as [|? ? Hr Hrej']; subst.
    destruct rejected as [|r' rejected]; simpl in *.
    + rewrite (proj2 (out_of_range_true r) Hr).
      specialize (IH v (out ++ [Print error_message; Prompt prompt]) v rest
                     Hrej' Hv eq_refl).
      simpl in IH. rewrite IH. now rewrite app_nil_r.
    + rewrite (proj2 (out_of_range_true r) Hr).
      specialize (IH r' (out ++ [Print error_message; Prompt prompt]) v rest
                     Hrej' Hv eq_refl).
      simpl in IH. rewrite IH. now rewrite <- app_assoc.
Qed.

Lemma validation_loop_sound inputs : forall ts out out' v rest,
  validation_loop ts inputs out = (out', Accepted v rest) ->
  10 <= v <= 30
  /\ exists rejected,
      ts :: inputs = rejected ++ v :: rest
      /\ Forall outside rejected
      /\ out' = out ++ reprompts rejected.
Proof.
  induction inputs as [|entered inputs IH]; intros ts out out' v rest H;
    simpl in H; destruct (out_of_range ts) eqn:E; try discriminate.
  - injection H as <- <- <-. split; [now apply out_of_range_false|].
    exists []. simpl. now rewrite app_nil_r.
  - apply IH in H. destruct H as (Hv & rejected & Heq & Hrej & ->).
    split; [exact Hv|]. exists (ts :: rejected). simpl. repeat split.
    + now rewrite Heq.
    + constructor; [now apply out_of_range_true|exact Hrej].
    + now rewrite <- app_assoc.
  - injection H as <- <- <-. split; [now apply out_of_range_false|].
    exists []. simpl. now rewrite app_nil_r.
Qed.

Lemma validation_loop_eof inputs : forall ts out,
  Forall outside (ts :: inputs) ->
  snd (validation_loop ts inputs out) = EOFError.
Proof.
  induction inputs as [|entered inputs IH]; intros ts out H;
    inversion H as [|? ? Hts Hrest]; subst; simpl;
    rewrite (proj2 (out_of_range_true ts) Hts); [reflexivity|].
  now apply IH.
Qed.

(** C8: the validator accepts a value only if it lies in [10, 30]; every
    value entered before it was out of range and was answered by the error
    message and a new prompt; conversely, whatever out-of-range values are
    entered first, the first value in range is accepted; and as long as only
    out-of-range values are entered the loop is not left. *)
Theorem training_session_validated :
  forall inputs : list Z,
    (forall out v rest,
        read_training_session inputs = (out, Accepted v rest) ->
        10 <= v <= 30
        /\ exists rejected,
            inputs = rejected ++ v :: rest
            /\ Forall outside rejected
            /\ out = transcript rejected)
    /\ (forall rejected v rest,
           inputs = rejected ++ v :: rest ->
           Forall outside rejected -> 10 <= v <= 30 ->
           read_training_session inputs
           = (transcript rejected, Accepted v rest))
    /\ (Forall outside inputs ->
        snd (read_training_session inputs) = EOFError).
Proof.
  intros inputs. split; [|split].
  - intros out v rest H. destruct inputs as [|entered inputs];
      simpl in H; [discriminate|].
    apply validation_loop_sound in H.
    destruct H as (Hv & rejected & Heq & Hrej & ->).
    split; [exact Hv|]. exists rejected. repeat split; assumption.
  - intros rejected v rest -> Hrej Hv. unfold read_training_session, transcript.
    destruct rejected as [|r rejected]; simpl.
    + apply (validation_loop_accepts [] v [Prompt prompt] v rest);
        [constructor|exact Hv|reflexivity].
    + apply (validation_loop_accepts (r :: rejected) r [Prompt prompt] v rest);
        [exact Hrej|exact Hv|reflexivity].
  - intros H. destruct inputs as [|entered inputs]; simpl; [reflexivity|].
    now apply validation_loop_eof.
Qed.

(** The theorem on a user who types 5, 42, 20 and 7: the first two are
    turned down with the error message, 20 is accepted and 7 is left for
    the rest of the program. *)
Lemma training_session_validated_witness :
  read_training_session [5; 42; 20; 7]
  = ([Prompt prompt; Print error_message; Prompt prompt;
      Print error_message; Prompt prompt], Accepted 20 [7])
  /\ 10 <= 20 <= 30.
Proof.
  destruct (training_session_validated [5; 42; 20; 7]) as (Hsound & Hrun & _).
  assert (H : read_training_session [5; 42; 20; 7]
              = (transcript [5; 42], Accepted 20 [7])).
  { apply Hrun; [reflexivity| |lia].
    repeat constructor; unfold outside; lia. }
  split; [exact H|].
  apply (Hsound _ _ _ H).
Defined.

End TrainingFacts.

Module ScriptFacts.
Import Console Mansion Layout.

(** C9: in the Mystery Mansion script the three lists are applied like
    functions, which raises [TypeError] whatever the arguments; so the
    [if]/[elif] chain raises on its first comparison for every input, with
    nothing printed, every room display raises as well, and the script run
    on a name and at least one move stops with [TypeError] after the welcome
    lines and the first move prompt.  In the array-traversal script the
    [if] of line 14 is indented under a line that opens no block: the
    tokenizer rejects the file there, and nothing of it executes. *)
Theorem mansion_and_traversal_defects :
  (forall args out,
      call commands args out = (out, inl not_callable)
      /\ call rooms args out = (out, inl not_callable)
      /\ call descriptions args out = (out, inl not_callable))
  /\ (forall move out, dispatch move out = (out, inl not_callable))
  /\ (forall i out, show_room i out = (out, inl not_callable))
  /\ (forall name move rest,
         main (name :: move :: rest) []
         = ([Prompt "Please Enter you Player Name";
             Print (String.concat " " ["Welcome"; name; "To the Mystery Mansion"]);
             Print "To exploar the mysterious mansion Please enter either N (North), S (South), E (East), W (West) to move through the masion.";
             Print "If you want to quit the game enter  Quit and if you need the commends enter help";
             Print "Please now enter the commands to move throught the manison";
             Prompt move_prompt]%string,
            inl not_callable))
  /\ check_layout traversing_task_2 = Some (UnexpectedIndent 14)
  /\ executes traversing_task_2 = false.
Proof.
  repeat split; reflexivity.
Qed.

End ScriptFacts.

(** * Further properties of the racing game *)

Module RacingMore.
Import RBool RBoolFacts Racing Scenarios RacingCases RacingFacts.
Local Open Scope R_scope.

(** *** Scans that keep the first minimum *)

Section FirstMinimum.
Variables E V : Type.
Variable key : E -> R.
Variable val : E -> V.

(** Started on the bound [m], the scan either keeps its accumulator, all
    keys being at least [m], or ends on the first element of least key. *)
Lemma keep_closest_from l : forall (m : R) (v : V),
  (fold_left (keep_closest key val) l (Some m, v) = (Some m, v)
   /\ forall e, In e l -> m <= key e)
  \/ exists pre e post,
      l = pre ++ e :: post
      /\ fold_left (keep_closest key val) l (Some m, v) = (Some (key e), val e)
      /\ key e < m
      /\ (forall e', In e' pre -> key e < key e')
      /\ (forall e', In e' post -> key e <= key e').
Proof.
  induction l as [|a l IH]; intros m v.
  - left. split; [reflexivity|]. intros e [].
  - assert (Hstep : fold_left (keep_closest key val) (a :: l) (Some m, v)
                   = fold_left (keep_closest key val) l
                       (if Rltb (key a) m then (Some (key a), val a)
                        else (Some m, v))) by reflexivity.
    rewrite Hstep. clear Hstep.
    destruct (Rlt_dec (key a) m) as [Hlt|Hge].
    + rewrite (proj2 (Rltb_true _ _) Hlt).
      destruct (IH (key a) (val a))
        as [[Heq Hall]|(pre & e & post & Hl & Hr & Hk & Hpre & Hpost)].
      * right. exists [], a, l.
        split; [reflexivity|]. split; [exact Heq|]. split; [exact Hlt|].
        split; [intros e' []|exact Hall].
      * right. exists (a :: pre), e, post.
        split; [now rewrite Hl|]. split; [exact Hr|]. split; [lra|].
        split; [|exact Hpost].
        intros e' [<-|Hin]; [exact Hk|now apply Hpre].
    + rewrite (proj2 (Rltb_false _ _)) by lra.
      destruct (IH m v)
        as [[Heq Hall]|(pre & e & post & Hl & Hr & Hk & Hpre & Hpost)].
      * left. split; [exact Heq|]. intros e [<-|Hin]; [lra|now apply Hall].
      * right. exists (a :: pre), e, post.
        split; [now rewrite Hl|]. split; [exact Hr|]. split; [exact Hk|].
        split; [|exact Hpost].
        intros e' [<-|Hin]; [lra|now apply Hpre].
Qed.

(** Started on infinity, the scan of a non-empty list ends on its first
    element of least key. *)
Lemma keep_closest_first_minimum l (v : V) :
  l <> [] ->
  exists pre e post,
    l = pre ++ e :: post
    /\ fold_left (keep_closest key val) l (None, v) = (Some (key e), val e)
    /\ (forall e', In e' pre -> key e < key e')
    /\ (forall e', In e' post -> key e <= key e').
Proof.
  destruct l as [|a l]; [congruence|]. intros _.
  change (fold_left (keep_closest key val) (a :: l) (None, v))
    with (fold_left (keep_closest key val) l (Some (key a), val a)).
  destruct (keep_closest_from l (key a) (val a))
    as [[Heq Hall]|(pre & e & post & Hl & Hr & Hk & Hpre & Hpost)].
  - exists [], a, l.
    split; [reflexivity|]. split; [exact Heq|].
    split; [intros e' []|exact Hall].
  - exists (a :: pre), e, post.
    split; [now rewrite Hl|]. split; [exact Hr|]. split; [|exact Hpost].
    intros e' [<-|Hin]; [exact Hk|now apply Hpre].
Qed.

End FirstMinimum.

Lemma enumerate_from {A : Type} (l : list A) : forall start k x,
  nth_error (combine (seq start (List.length l)) l) k = Some x ->
  fst x = (start + k)%nat /\ nth_error l k = Some (snd x).
Proof.
  induction l as [|a l IH]; intros start k x H; simpl in H.
  - destruct k; discriminate.
  - destruct k as [|k]; simpl in H.
    + injection H as <-. simpl. split; [lia|reflexivity].
    + apply IH in H. destruct H as [H1 H2]. split; [lia|exact H2].
Qed.

Lemma enumerate_split {A : Type} (l : list A) pre e post :
  enumerate l = pre ++ e :: post ->
  fst e = List.length pre
  /\ nth_error l (List.length pre) = Some (snd e)
  /\ (forall e', In e' pre ->
        (fst e' < List.length pre)%nat /\ nth_error l (fst e') = Some (snd e'))
  /\ (forall j q, nth_error l j = Some q ->
        (j < List.length pre)%nat -> In (j, q) pre)
  /\ (forall j q, nth_error l j = Some q ->
        (List.length pre < j)%nat -> In (j, q) post).
Proof.
  intros H. unfold enumerate in H.
  assert (Hn : forall k x, nth_error (pre ++ e :: post) k = Some x ->
                           fst x = k /\ nth_error l k = Some (snd x)).
  { intros k x Hk. rewrite <- H in Hk. apply enumerate_from in Hk. exact Hk. }
  assert (Hlen : List.length (pre ++ e :: post) = List.length l).
  { rewrite <- H, length_combine, length_seq. apply Nat.min_id. }
  assert (He : nth_error (pre ++ e :: post) (List.length pre) = Some e).
  { rewrite nth_error_app2 by lia. now rewrite Nat.sub_diag. }
  destruct (Hn _ _ He) as [He1 He2].
  split; [exact He1|]. split; [exact He2|]. split; [|split].
  - intros e' Hin. apply In_nth_error in Hin. destruct Hin as [k Hk].
    assert (Hlt : (k < List.length pre)%nat).
    { apply nth_error_Some. congruence. }
    assert (Hk' : nth_error (pre ++ e :: post) k = Some e').
    { now rewrite nth_error_app1. }
    destruct (Hn _ _ Hk') as [H1 H2]. rewrite H1. now split.
  - intros j q Hj Hlt.
    destruct (nth_error pre j) as [x|] eqn:Ex.
    + assert (Hx : nth_error (pre ++ e :: post) j = Some x).
      { now rewrite nth_error_app1. }
      destruct (Hn _ _ Hx) as [H1 H2].
      assert (x = (j, q)) as ->.
      { destruct x as [a b]. simpl in *. congruence. }
      eapply nth_error_In; eauto.
    + apply nth_error_None in Ex. lia.
  - intros j q Hj Hlt.
    assert (Hjl : (j < List.length l)%nat).
    { apply nth_error_Some. congruence. }
    rewrite length_app in Hlen. simpl in Hlen.
    destruct (nth_error post (j - S (List.length pre))) as [x|] eqn:Ex.
    + assert (Hx : nth_error (pre ++ e :: post) j = Some x).
      { rewrite nth_error_app2 by lia.
        replace (j - List.length pre)%nat
          with (S (j - S (List.length pre))) by lia.
        exact Ex. }
      destruct (Hn _ _ Hx) as [H1 H2].
      assert (x = (j, q)) as ->.
      { destruct x as [a b]. simpl in *. congruence. }
      eapply nth_error_In; eauto.
    + apply nth_error_None in Ex. lia.
Qed.

(** X1.  The index [check_checkpoint] works with is that of the first
    track point nearest to the car: it is a position of the track, no point
    is nearer, and every earlier point is strictly farther. *)
Theorem closest_idx_first_nearest :
  forall (p : Vector3.t) (track_points : list Vector3.t),
    track_points <> [] ->
    exists nearest : Vector3.t,
      nth_error track_points (closest_idx p track_points) = Some nearest
      /\ (closest_idx p track_points < List.length track_points)%nat
      /\ forall j q,
          nth_error track_points j = Some q ->
          Vector3.distance_to p nearest <= Vector3.distance_to p q
          /\ ((j < closest_idx p track_points)%nat ->
              Vector3.distance_to p nearest < Vector3.distance_to p q).
Proof.
  intros p track_points Hne.
  assert (Hen : enumerate track_points <> []).
  { destruct track_points; [congruence|discriminate]. }
  destruct (keep_closest_first_minimum _ _
              (fun ip : nat * Vector3.t => Vector3.distance_to p (snd ip)) fst
              (enumerate track_points) 0%nat Hen)
    as (pre & e & post & Hl & Hr & Hpre & Hpost).
  destruct (enumerate_split _ _ _ _ Hl) as (He1 & He2 & Hin_pre & Hlt & Hgt).
  assert (Hidx : closest_idx p track_points = List.length pre).
  { unfold closest_idx.
    change (closest_step p)
      with (keep_closest
              (fun ip : nat * Vector3.t => Vector3.distance_to p (snd ip)) fst).
    rewrite Hr. simpl. exact He1. }
  exists (snd e). rewrite Hidx. split; [exact He2|]. split.
  - apply nth_error_Some. congruence.
  - intros j q Hj.
    destruct (Nat.lt_trichotomy j (List.length pre)) as [H|[H|H]].
    + pose proof (Hpre _ (Hlt _ _ Hj H)) as Hs. simpl in Hs. split; [lra|auto].
    + subst j. rewrite He2 in Hj. injection Hj as <-. split; [lra|lia].
    + pose proof (Hpost _ (Hgt _ _ Hj H)) as Hs. simpl in Hs. split; [lra|lia].
Qed.

(** The track of the scenarios has its start line at index 0. *)
Lemma closest_idx_first_nearest_witness :
  exists nearest : Vector3.t,
    nth_error centerline (closest_idx (track_point 0) centerline) = Some nearest
    /\ (closest_idx (track_point 0) centerline < List.length centerline)%nat
    /\ forall j q,
        nth_error centerline j = Some q ->
        Vector3.distance_to (track_point 0) nearest
        <= Vector3.distance_to (track_point 0) q
        /\ ((j < closest_idx (track_point 0) centerline)%nat ->
            Vector3.distance_to (track_point 0) nearest
            < Vector3.distance_to (track_point 0) q).
Proof.
  apply closest_idx_first_nearest. rewrite centerline_head. discriminate.
Defined.

(** *** Height of the car *)

(** X2.  [update_track_height] leaves the car alone on an empty track;
    otherwise it keeps x and z and moves the height one fifth of the way
    towards the height of a track point that is nearest in the x-z plane. *)
Theorem update_track_height_spec :
  forall (self : Car3D) (track_points : list Vector3.t),
    (track_points = [] -> update_track_height self track_points = self)
    /\ (track_points <> [] ->
        exists nearest : Vector3.t,
          In nearest track_points
          /\ (forall q, In q track_points ->
                flat_distance (pos self) nearest <= flat_distance (pos self) q)
          /\ pos (update_track_height self track_points)
             = Vector3.mk (Vector3.x (pos self))
                 (Vector3.y (pos self)
                  + (Vector3.y nearest - Vector3.y (pos self)) * (2 / 10))
                 (Vector3.z (pos self))).
Proof.
  intros self track_points. split; [now intros ->|]. intros Hne.
  destruct (keep_closest_first_minimum _ _
              (flat_distance (pos self)) Vector3.y
              track_points (Vector3.y (pos self)) Hne)
    as (pre & e & post & Hl & Hr & Hpre & Hpost).
  exists e. split; [rewrite Hl; apply in_or_app; right; now left|]. split.
  - intros q Hq. rewrite Hl in Hq. apply in_app_or in Hq.
    destruct Hq as [Hq|[<-|Hq]]; [apply Rlt_le; auto|lra|auto].
  - unfold update_track_height.
    destruct track_points as [|a l]; [congruence|].
    change (track_height_step self)
      with (keep_closest (flat_distance (pos self)) Vector3.y).
    rewrite Hr. reflexivity.
Qed.

Lemma update_track_height_spec_witness :
  exists nearest : Vector3.t,
    In nearest centerline
    /\ (forall q, In q centerline ->
          flat_distance (pos player_on_grid) nearest
          <= flat_distance (pos player_on_grid) q)
    /\ pos (update_track_height player_on_grid centerline)
       = Vector3.mk (Vector3.x (pos player_on_grid))
           (Vector3.y (pos player_on_grid)
            + (Vector3.y nearest - Vector3.y (pos player_on_grid)) * (2 / 10))
           (Vector3.z (pos player_on_grid)).
Proof.
  apply (update_track_height_spec player_on_grid centerline).
  rewrite centerline_head. discriminate.
Defined.

(** *** Laps *)

Lemma check_checkpoint_progress self track_points :
  let c := check_checkpoint self track_points in
  (lap_count c = lap_count self /\ finished c = finished self)
  \/ (lap_count c = (lap_count self + 1)%nat
      /\ finished c = (finished self || (3 <=? lap_count self + 1)%nat)).
Proof.
  unfold check_checkpoint.
  destruct (List.length track_points =? 0)%nat; [now left|].
  destruct (last_checkpoint self <? closest_idx (pos self) track_points)%nat;
    [now left|].
  destruct ((closest_idx (pos self) track_points <? last_checkpoint self)%nat
            && (closest_idx (pos self) track_points <? 20)%nat); [|now left].
  right. cbv zeta.
  change (lap_count (set_lap_count self (lap_count self + 1)))
    with (lap_count self + 1)%nat.
  destruct (3 <=? lap_count self + 1)%nat.
  - split; [reflexivity|]. now rewrite orb_true_r.
  - split; [reflexivity|]. now rewrite orb_false_r.
Qed.

Lemma update_track_height_more self track_points :
  let c := update_track_height self track_points in
  angle_yaw c = angle_yaw self /\ distance_traveled c = distance_traveled self
  /\ is_player c = is_player self
  /\ Vector3.x (pos c) = Vector3.x (pos self)
  /\ Vector3.z (pos c) = Vector3.z (pos self).
Proof. unfold update_track_height. destruct track_points; repeat split. Qed.

Lemma check_checkpoint_more self track_points :
  let c := check_checkpoint self track_points in
  distance_traveled c = distance_traveled self /\ is_player c = is_player self.
Proof. unfold check_checkpoint. cases_on_tests; repeat split. Qed.

Lemma update_unfinished self track_points keys dt :
  finished self = false ->
  update self track_points keys dt
  = integrate (steered self track_points keys dt) track_points dt.
Proof. intros H. unfold update, steered. now rewrite H. Qed.

Lemma steered_frame self track_points keys dt :
  let c := steered self track_points keys dt in
  speed c = speed self /\ max_speed c = max_speed self
  /\ last_checkpoint c = last_checkpoint self
  /\ lap_count c = lap_count self /\ finished c = finished self
  /\ pos c = pos self.
Proof.
  unfold steered. destruct (is_player self), keys;
    first [apply update_player_input_frame|apply update_ai_frame].
Qed.

Lemma integrate_progress self track_points dt :
  let c := integrate self track_points dt in
  (lap_count c = lap_count self /\ finished c = finished self)
  \/ (lap_count c = (lap_count self + 1)%nat
      /\ finished c = (finished self || (3 <=? lap_count self + 1)%nat)).
Proof.
  unfold integrate. cbv zeta.
  match goal with
  | |- context [check_checkpoint (update_track_height ?c ?t) _] =>
    pose proof (update_track_height_frame c t) as (_ & _ & _ & Hn & Hf & _);
    pose proof (check_checkpoint_progress (update_track_height c t) t) as Hp
  end.
  cbv zeta in Hp. rewrite Hn, Hf in Hp. exact Hp.
Qed.

Lemma update_progress self track_points keys dt :
  let c := update self track_points keys dt in
  (finished self = true /\ c = self)
  \/ (finished self = false
      /\ ((lap_count c = lap_count self /\ finished c = false)
          \/ (lap_count c = (lap_count self + 1)%nat
              /\ finished c = (3 <=? lap_count self + 1)%nat))).
Proof.
  cbv zeta. destruct (finished self) eqn:Hf.
  - left. split; [reflexivity|]. unfold update. now rewrite Hf.
  - right. split; [reflexivity|]. rewrite update_unfinished by exact Hf.
    pose proof (steered_frame self track_points keys dt)
      as (_ & _ & _ & Hn & Hf' & _).
    pose proof (integrate_progress (steered self track_points keys dt)
                  track_points dt) as Hp.
    cbv zeta in Hp. rewrite Hn, Hf', Hf in Hp. exact Hp.
Qed.

(** X3.  Over any sequence of [update] calls the lap counter never goes
    down and grows by at most one per call, and a finished car is never
    changed again. *)
Theorem laps_only_grow :
  forall (self : Car3D) (frames : list Frame),
    (lap_count self <= lap_count (drive self frames))%nat
    /\ (lap_count (drive self frames)
        <= lap_count self + List.length frames)%nat
    /\ (finished self = true -> drive self frames = self).
Proof.
  intros self frames. revert self. unfold drive.
  induction frames as [|f frames IH]; intros self; simpl.
  - repeat split; lia.
  - destruct (IH (update self (frame_track f) (frame_keys f) (frame_dt f)))
      as (H1 & H2 & H3).
    destruct (update_progress self (frame_track f) (frame_keys f) (frame_dt f))
      as [[Hf Heq]|[Hf [[Hn Hf']|[Hn Hf']]]].
    + rewrite Heq in *. repeat split; try lia. intros _. now apply H3.
    + rewrite Hn in *. repeat split; try lia. congruence.
    + rewrite Hn in *. repeat split; try lia. congruence.
Qed.

Lemma laps_only_grow_witness :
  drive winner [mkFrame centerline (Some keys_W) dt_default] = winner.
Proof.
  apply (laps_only_grow winner [mkFrame centerline (Some keys_W) dt_default]).
  reflexivity.
Defined.

(** X4.  A car created by [Car3D.__init__] never records more than three
    laps, and it is finished exactly when it has recorded three. *)
Theorem three_laps_finish :
  forall (x y z : R) (cls : CarClass) (is_player : bool) (frames : list Frame),
    let c := drive (Car3D_init x y z cls is_player) frames in
    (lap_count c <= 3)%nat /\ (finished c = true <-> lap_count c = 3%nat).
Proof.
  intros x y z cls player frames.
  assert (Hinv : forall frames self,
             (lap_count self <= 3)%nat ->
             (finished self = true <-> lap_count self = 3%nat) ->
             (lap_count (drive self frames) <= 3)%nat
             /\ (finished (drive self frames) = true
                 <-> lap_count (drive self frames) = 3%nat)).
  { clear. unfold drive.
    induction frames as [|f frames IH]; intros self Hle Hiff; simpl;
      [now split|].
    apply IH;
      destruct (update_progress self (frame_track f) (frame_keys f) (frame_dt f))
        as [[Hf Heq]|[Hf [[Hn Hf']|[Hn Hf']]]];
      try (rewrite Heq; assumption).
    - lia.
    - assert (lap_count self <> 3%nat) by (intros H3; apply Hiff in H3; congruence).
      lia.
    - rewrite Hf', Hn. split; [discriminate|].
      intros H3. apply Hiff in H3. congruence.
    - assert (lap_count self <> 3%nat) by (intros H3; apply Hiff in H3; congruence).
      rewrite Hf', Hn. rewrite Nat.leb_le. lia. }
  apply Hinv; simpl; [lia|]. split; [discriminate|lia].
Qed.

(** *** The integration step *)

Lemma integrate_velocity self track_points dt :
  velocity (integrate self track_points dt)
  = Vector3.mk (Vector3.x (velocity self) * (97 / 100))
               (Vector3.y (velocity self))
               (Vector3.z (velocity self) * (97 / 100)).
Proof.
  unfold integrate. cbv zeta.
  match goal with
  | |- velocity (set_distance_traveled ?c _) = ?r => change (velocity c = r)
  end.
  match goal with
  | |- velocity (check_checkpoint ?c ?t) = _ =>
    rewrite (proj1 (proj2 (proj2 (check_checkpoint_frame c t))))
  end.
  match goal with
  | |- velocity (update_track_height ?c ?t) = _ =>
    rewrite (proj2 (proj2 (proj2 (proj2 (proj2 (update_track_height_frame c t))))))
  end.
  reflexivity.
Qed.

Lemma integrate_motion self track_points dt :
  let c := integrate self track_points dt in
  Vector3.x (pos c) = Vector3.x (pos self) + Vector3.x (velocity c) * dt
  /\ Vector3.z (pos c) = Vector3.z (pos self) + Vector3.z (velocity c) * dt
  /\ distance_traveled c = distance_traveled self + speed c * dt
  /\ angle_yaw c = angle_yaw self.
Proof.
  cbv zeta. rewrite integrate_velocity, speed_after_integrate.
  unfold integrate. cbv zeta.
  match goal with
  | |- context [check_checkpoint (update_track_height ?c ?t) _] =>
    set (c0 := c)
  end.
  set (c1 := update_track_height c0 track_points).
  set (c2 := check_checkpoint c1 track_points).
  pose proof (update_track_height_more c0 track_points) as (Ha & Hd & _ & Hx & Hz).
  pose proof (update_track_height_frame c0 track_points) as (Hs & _).
  pose proof (check_checkpoint_frame c1 track_points)
    as (Hs' & _ & _ & Hp & Ha').
  pose proof (check_checkpoint_more c1 track_points) as (Hd' & _).
  cbv zeta in Ha, Hd, Hx, Hz, Hs, Hs', Hp, Ha', Hd'.
  fold c1 in Ha, Hd, Hx, Hz, Hs. fold c2 in Hs', Hp, Ha', Hd'.
  unfold set_distance_traveled. cbn [pos distance_traveled angle_yaw].
  rewrite Hp, Hx, Hz, Hd', Hd, Hs', Hs, Ha', Ha.
  repeat split.
Qed.

(** X5.  A call of [update] on a car that is not finished is one Euler
    step: the stored speed is the length of the new horizontal velocity
    (hence not negative), x and z advance by the new velocity times [dt],
    and the distance travelled grows by speed times [dt]. *)
Theorem update_is_euler_step :
  forall (self : Car3D) (track_points : list Vector3.t)
         (keys : option Keys) (dt : R),
    finished self = false ->
    let c := update self track_points keys dt in
    speed c = sqrt (Vector3.x (velocity c) ^ 2 + Vector3.z (velocity c) ^ 2)
    /\ 0 <= speed c
    /\ Vector3.x (pos c) = Vector3.x (pos self) + Vector3.x (velocity c) * dt
    /\ Vector3.z (pos c) = Vector3.z (pos self) + Vector3.z (velocity c) * dt
    /\ distance_traveled c = distance_traveled self + speed c * dt.
Proof.
  intros self track_points keys dt Hf. cbv zeta.
  rewrite update_unfinished by exact Hf.
  set (s := steered self track_points keys dt).
  pose proof (integrate_motion s track_points dt) as (Hx & Hz & Hd & _).
  assert (Hs : speed (integrate s track_points dt)
               = sqrt (Vector3.x (velocity (integrate s track_points dt)) ^ 2
                       + Vector3.z (velocity (integrate s track_points dt)) ^ 2)).
  { rewrite integrate_velocity, speed_after_integrate. reflexivity. }
  assert (Hp : pos s = pos self).
  { apply (steered_frame self track_points keys dt). }
  assert (Hdt : distance_traveled s = distance_traveled self).
  { unfold s, steered, update_player_input, update_ai, max_speed_cap.
    destruct (is_player self), keys; cases_on_tests; reflexivity. }
  split; [exact Hs|]. split; [rewrite Hs; apply sqrt_pos|].
  rewrite Hx, Hz, Hd, Hp, Hdt. repeat split.
Qed.

Lemma update_is_euler_step_witness :
  let c := update player_on_grid centerline (Some keys_W) dt_default in
  speed c = sqrt (Vector3.x (velocity c) ^ 2 + Vector3.z (velocity c) ^ 2)
  /\ 0 <= speed c
  /\ Vector3.x (pos c)
     = Vector3.x (pos player_on_grid) + Vector3.x (velocity c) * dt_default
  /\ Vector3.z (pos c)
     = Vector3.z (pos player_on_grid) + Vector3.z (velocity c) * dt_default
  /\ distance_traveled c
     = distance_traveled player_on_grid + speed c * dt_default.
Proof.
  apply (update_is_euler_step player_on_grid centerline (Some keys_W) dt_default).
  reflexivity.
Defined.

(** *** The speed cap when coasting *)

Lemma sqrt_scaled a b k :
  0 <= k -> sqrt ((a * k) ^ 2 + (b * k) ^ 2) = k * sqrt (a ^ 2 + b ^ 2).
Proof.
  intros Hk.
  replace ((a * k) ^ 2 + (b * k) ^ 2) with (k ^ 2 * (a ^ 2 + b ^ 2)) by ring.
  rewrite sqrt_mult; [|nra|nra]. now rewrite sqrt_pow2.
Qed.

(** X6.  With neither the accelerator nor the brake held, and a stored
    speed that is the length of the velocity (as [update] leaves it), the
    cap does hold: the player's speed after [update] is 0.97 times the
    smaller of its speed and its maximum speed. *)
Theorem coasting_speed_is_capped :
  forall (self : Car3D) (track_points : list Vector3.t) (keys : Keys) (dt : R),
    finished self = false -> is_player self = true ->
    keys K_w || keys K_UP = false -> keys K_s || keys K_DOWN = false ->
    speed self
    = sqrt (Vector3.x (velocity self) ^ 2 + Vector3.z (velocity self) ^ 2) ->
    1 / 10 <= max_speed self ->
    speed (update self track_points (Some keys) dt)
    = 97 / 100 * Rmin (speed self) (max_speed self).
Proof.
  intros self track_points keys dt Hf Hp Hw Hs Hv Hm.
  rewrite update_unfinished by exact Hf. unfold steered. rewrite Hp.
  rewrite speed_after_integrate.
  unfold update_player_input. rewrite Hw, Hs. cbv zeta.
  set (vx := Vector3.x (velocity self)) in *.
  set (vz := Vector3.z (velocity self)) in *.
  assert (Hvel : forall c : Car3D,
             speed c = speed self -> max_speed c = max_speed self ->
             Vector3.x (velocity c) = vx -> Vector3.z (velocity c) = vz ->
             sqrt ((Vector3.x (velocity (max_speed_cap c)) * (97 / 100)) ^ 2
                   + (Vector3.z (velocity (max_speed_cap c)) * (97 / 100)) ^ 2)
             = 97 / 100 * Rmin (speed self) (max_speed self)).
  { intros c Hc1 Hc2 Hc3 Hc4. unfold max_speed_cap, Rgtb. rewrite Hc1, Hc2.
    destruct (Rlt_dec (max_speed self) (speed self)) as [Hgt|Hle].
    - rewrite (proj2 (Rltb_true _ _) Hgt). simpl. rewrite Hc3, Hc4.
      rewrite Rmax_left by lra. rewrite Rmin_right by lra.
      replace (vx * (max_speed self / speed self) * (97 / 100))
        with (vx * (max_speed self / speed self * (97 / 100))) by ring.
      replace (vz * (max_speed self / speed self) * (97 / 100))
        with (vz * (max_speed self / speed self * (97 / 100))) by ring.
      change (sqrt ((vx * (max_speed self / speed self * (97 / 100))) ^ 2
                    + (vz * (max_speed self / speed self * (97 / 100))) ^ 2)
              = 97 / 100 * max_speed self).
      rewrite sqrt_scaled.
      + rewrite <- Hv. field. lra.
      + apply Rmult_le_pos; [|lra]. apply Rmult_le_pos; [lra|].
        apply Rlt_le, Rinv_0_lt_compat. lra.
    - rewrite (proj2 (Rltb_false _ _)) by lra. rewrite Hc3, Hc4.
      rewrite Rmin_left by lra.
      change (sqrt ((vx * (97 / 100)) ^ 2 + (vz * (97 / 100)) ^ 2)
              = 97 / 100 * speed self).
      rewrite sqrt_scaled by lra. now rewrite <- Hv. }
  apply Hvel; cases_on_tests; reflexivity.
Qed.

(** The theorem on a car coasting at 300 along x, with maximum 240: the
    next frame stores 0.97 * 240. *)
Lemma coasting_speed_is_capped_witness :
  speed (update (set_speed (set_velocity player_on_grid (Vector3.mk 300 0 0)) 300)
                centerline (Some keys_none) dt_default)
  = 97 / 100 * Rmin 300 240.
Proof.
  apply (coasting_speed_is_capped
           (set_speed (set_velocity player_on_grid (Vector3.mk 300 0 0)) 300)
           centerline keys_none dt_default);
    try reflexivity.
  - change (300 = sqrt (300 ^ 2 + 0 ^ 2)).
    replace (300 ^ 2 + 0 ^ 2) with (300 ^ 2) by ring.
    rewrite sqrt_pow2; lra.
  - change (1 / 10 <= 240). lra.
Defined.

(** *** The heading *)

Lemma fmod360_range a : 0 <= fmod360 a < 360.
Proof.
  unfold fmod360. destruct (base_Int_part (a / 360)) as [H1 H2].
  assert (a / 360 * 360 = a) by (field).
  split; nra.
Qed.

(** The angle the AI steers towards, relative to its heading. *)
Lemma update_ai_heading self track_points dt :
  (2 <= List.length track_points)%nat ->
  exists diff : R,
    angle_yaw (update_ai self track_points dt)
    = fmod360 (angle_yaw self + normalise_angle diff * (8 / 100)).
Proof.
  intros Hl. unfold update_ai.
  destruct (Nat.ltb_spec (List.length track_points) 2); [lia|]. cbv zeta.
  match goal with
  | |- context [normalise_angle ?e] => exists e
  end.
  match goal with
  | |- angle_yaw (max_speed_cap ?c) = _ =>
    rewrite (proj1 (proj2 (proj2 (proj2 (proj2 (proj2
               (max_speed_cap_frame c)))))))
  end.
  cases_on_tests; reflexivity.
Qed.

(** X7.  After the player's input step the heading lies between 0 and
    360; so it does after the AI step on a track of at least two points,
    and after [update] of an unfinished car in either case.  The upper
    bound is not strict: the remainder is computed on floats, where a tiny
    negative angle gives exactly 360.0. *)
Theorem heading_is_normalised :
  forall (self : Car3D) (track_points : list Vector3.t) (dt : R),
    (forall keys : Keys,
        0 <= angle_yaw (update_player_input self keys dt) <= 360)
    /\ ((2 <= List.length track_points)%nat ->
        0 <= angle_yaw (update_ai self track_points dt) <= 360)
    /\ (forall keys : option Keys,
           finished self = false ->
           (is_player self = true /\ keys <> None)
           \/ (2 <= List.length track_points)%nat ->
           0 <= angle_yaw (update self track_points keys dt) <= 360).
Proof.
  intros self track_points dt.
  assert (Hp : forall keys,
             0 <= angle_yaw (update_player_input self keys dt) <= 360).
  { intros keys. rewrite update_player_input_angle. cbv zeta.
    match goal with
    | |- _ <= fmod360 ?a <= _ => generalize (fmod360_range a); lra
    end. }
  assert (Ha : (2 <= List.length track_points)%nat ->
               0 <= angle_yaw (update_ai self track_points dt) <= 360).
  { intros Hl. destruct (update_ai_heading self track_points dt Hl) as (d & ->).
    generalize (fmod360_range (angle_yaw self + normalise_angle d * (8 / 100))).
    lra. }
  split; [exact Hp|]. split; [exact Ha|].
  intros keys Hf Hcase. rewrite update_unfinished by exact Hf.
  rewrite (proj2 (proj2 (proj2 (integrate_motion _ track_points dt)))).
  unfold steered. destruct (is_player self) eqn:Ep, keys as [k|].
  - apply Hp.
  - destruct Hcase as [[_ Hk]|Hl]; [congruence|now apply Ha].
  - destruct Hcase as [[Hk _]|Hl]; [congruence|now apply Ha].
  - destruct Hcase as [[Hk _]|Hl]; [congruence|now apply Ha].
Qed.

Lemma heading_is_normalised_witness :
  0 <= angle_yaw (update_ai player_on_grid centerline dt_default) <= 360
  /\ 0 <= angle_yaw (update player_on_grid centerline (Some keys_D) dt_default)
     <= 360.
Proof.
  destruct (heading_is_normalised player_on_grid centerline dt_default)
    as (_ & Ha & Hu).
  split.
  - apply Ha. rewrite centerline_length. lia.
  - apply Hu; [reflexivity|]. left. split; [reflexivity|discriminate].
Defined.

(** X8.  An AI car turns by at most 14.4 degrees per frame: its new
    heading is the old one plus a correction of at most 8% of 180 degrees,
    reduced modulo 360. *)
Theorem ai_turn_is_bounded :
  forall (self : Car3D) (track_points : list Vector3.t) (dt : R),
    (2 <= List.length track_points)%nat ->
    exists d : R,
      - (144 / 10) <= d <= 144 / 10
      /\ angle_yaw (update_ai self track_points dt)
         = fmod360 (angle_yaw self + d).
Proof.
  intros self track_points dt Hl.
  destruct (update_ai_heading self track_points dt Hl) as (diff & ->).
  exists (normalise_angle diff * (8 / 100)).
  pose proof (normalise_angle_range diff) as Hr.
  split; [lra|reflexivity].
Qed.

Lemma ai_turn_is_bounded_witness :
  exists d : R,
    - (144 / 10) <= d <= 144 / 10
    /\ angle_yaw (update_ai player_on_grid centerline dt_default)
       = fmod360 (angle_yaw player_on_grid + d).
Proof.
  apply (ai_turn_is_bounded player_on_grid centerline dt_default).
  rewrite centerline_length. lia.
Defined.

(** *** Distances *)

Lemma squares_nonneg a b c : 0 <= a * a + b * b + c * c.
Proof.
  pose proof (Rle_0_sqr a). pose proof (Rle_0_sqr b). pose proof (Rle_0_sqr c).
  unfold Rsqr in *. lra.
Qed.

Lemma squares_zero a b c : a * a + b * b + c * c = 0 -> a = 0 /\ b = 0 /\ c = 0.
Proof.
  intros H.
  pose proof (Rle_0_sqr a). pose proof (Rle_0_sqr b). pose proof (Rle_0_sqr c).
  unfold Rsqr in *.
  repeat split; apply Rsqr_0_uniq; unfold Rsqr; lra.
Qed.

(** X9.  [Vector3.distance_to] is a distance: never negative, symmetric,
    zero exactly between equal points; and [length] is the distance from
    the origin. *)
Theorem distance_to_is_a_distance :
  forall p q : Vector3.t,
    0 <= Vector3.distance_to p q
    /\ Vector3.distance_to p q = Vector3.distance_to q p
    /\ (Vector3.distance_to p q = 0 <-> p = q)
    /\ Vector3.length p = Vector3.distance_to origin p.
Proof.
  intros [px py pz] [qx qy qz]. unfold Vector3.distance_to, Vector3.length.
  simpl. split; [apply sqrt_pos|]. split; [f_equal; ring|]. split.
  - split.
    + intros H. apply sqrt_eq_0 in H; [|apply squares_nonneg].
      apply squares_zero in H. destruct H as (Hx & Hy & Hz).
      f_equal; lra.
    + intros H. injection H as -> -> ->.
      match goal with |- sqrt ?e = 0 => replace e with 0 by ring end.
      apply sqrt_0.
  - f_equal. ring.
Qed.

Lemma distance_to_is_a_distance_witness :
  Vector3.distance_to origin origin = 0.
Proof.
  destruct (distance_to_is_a_distance origin origin) as (_ & _ & H & _).
  apply H. reflexivity.
Defined.

(** *** The generated track *)

Lemma harmonics_in_box angle :
  in_track_box
    (Vector3.mk
       (0 + 400 * cos angle * (1 + 3 / 10 * sin (angle * 2)))
       (50 + 40 * sin (angle * 2) + 25 * cos (angle * 3) + 15 * sin (angle * 5))
       (0 + 300 * sin angle * (1 + 2 / 10 * cos (angle * 3)))).
Proof.
  unfold in_track_box. cbn [Vector3.x Vector3.y Vector3.z].
  pose proof (COS_bound angle) as [C1 C2].
  pose proof (SIN_bound angle) as [S1 S2].
  pose proof (SIN_bound (angle * 2)) as [A1 A2].
  pose proof (COS_bound (angle * 3)) as [B1 B2].
  pose proof (SIN_bound (angle * 5)) as [D1 D2].
  set (c := cos angle) in *. set (s := sin angle) in *.
  set (s2 := sin (angle * 2)) in *. set (c3 := cos (angle * 3)) in *.
  set (s5 := sin (angle * 5)) in *.
  repeat split; nra.
Qed.

Lemma track_point_in_box i : in_track_box (track_point i).
Proof. exact (harmonics_in_box (INR i / INR segments * 4 * PI)). Qed.

(** X10.  Every point of the generated track lies in the box
    |x| <= 520, -30 <= y <= 130, |z| <= 360: the formula keeps each point
    there whatever its index, and the track [Track3D.__init__] builds holds
    only such points. *)
Theorem track_stays_in_box :
  (forall i : nat, in_track_box (track_point i))
  /\ exists t : Track3D,
      Track3D_init = Some t
      /\ forall p, In p (points t) -> in_track_box p.
Proof.
  split; [exact track_point_in_box|].
  destruct Track3D_init_ok as (t & Ht & Hp). exists t. split; [exact Ht|].
  intros p Hin. rewrite Hp in Hin. unfold centerline in Hin.
  apply in_map_iff in Hin. destruct Hin as (i & <- & _).
  apply track_point_in_box.
Qed.

Lemma track_stays_in_box_witness :
  exists t : Track3D,
    Track3D_init = Some t
    /\ forall p, hd_error (points t) = Some p -> in_track_box p.
Proof.
  destruct track_stays_in_box as (_ & t & Ht & Hbox).
  exists t. split; [exact Ht|]. intros p Hp. apply Hbox.
  destruct (points t) as [|q l]; [discriminate|].
  injection Hp as ->. now left.
Defined.

(** X11.  One iteration of the barrier loop, on a point of the track,
    never fails and never touches the points.  Either the next point lies
    straight above or below and no barrier is added, or one left and one
    right barrier are added: at the height of the point, mirror images of
    each other about it, 100 units away from it in the x-z plane, and on
    the line perpendicular to the direction of the next point. *)
Theorem barrier_step_geometry :
  forall (self : Track3D) (point : Vector3.t),
    In point (points self) ->
    exists (idx : nat) (next_point : Vector3.t) (self' : Track3D),
      index (points self) point = Some idx
      /\ nth_error (points self) ((idx + 1) mod List.length (points self))
         = Some next_point
      /\ barrier_step self point = Some self'
      /\ points self' = points self
      /\ ((left_barriers self' = left_barriers self
           /\ right_barriers self' = right_barriers self
           /\ Vector3.x next_point = Vector3.x point
           /\ Vector3.z next_point = Vector3.z point)
          \/ exists l r : Vector3.t,
              left_barriers self' = left_barriers self ++ [l]
              /\ right_barriers self' = right_barriers self ++ [r]
              /\ Vector3.y l = Vector3.y point /\ Vector3.y r = Vector3.y point
              /\ Vector3.x l + Vector3.x r = 2 * Vector3.x point
              /\ Vector3.z l + Vector3.z r = 2 * Vector3.z point
              /\ flat_distance point l = 100
              /\ (Vector3.x l - Vector3.x point)
                 * (Vector3.x next_point - Vector3.x point)
                 + (Vector3.z l - Vector3.z point)
                   * (Vector3.z next_point - Vector3.z point) = 0).
Proof.
  intros self point Hin.
  destruct (index_In _ _ Hin) as (idx & Hidx & Hlt).
  destruct (nth_error (points self) ((idx + 1) mod List.length (points self)))
    as [next_point|] eqn:E.
  2:{ apply nth_error_None in E.
      pose proof (Nat.mod_upper_bound (idx + 1) (List.length (points self))).
      lia. }
  exists idx, next_point. unfold barrier_step. rewrite Hidx. simpl bind.
  rewrite E. simpl bind. cbv zeta.
  set (dx := Vector3.x next_point - Vector3.x point).
  set (dz := Vector3.z next_point - Vector3.z point).
  set (dist := sqrt (dx * dx + dz * dz)).
  assert (Hsq : dist * dist = dx * dx + dz * dz).
  { unfold dist. apply sqrt_sqrt. nra. }
  destruct (Rlt_dec 0 dist) as [Hpos|Hzero].
  - rewrite (proj2 (Rgtb_true dist 0)) by lra.
    eexists. split; [reflexivity|]. split; [reflexivity|]. split; [reflexivity|].
    split; [reflexivity|]. right. eexists. eexists.
    split; [reflexivity|]. split; [reflexivity|]. simpl.
    split; [reflexivity|]. split; [reflexivity|].
    unfold barrier_offset. split; [lra|]. split; [lra|]. split.
    + unfold flat_distance. simpl.
      match goal with
      | |- sqrt ?e = 100 =>
        replace e with (100 ^ 2)
          by (field_simplify_eq; [nra|lra])
      end.
      apply sqrt_pow2. lra.
    + fold dx dz. field. lra.
  - rewrite (proj2 (Rgtb_false dist 0)) by lra.
    exists self. split; [reflexivity|]. split; [reflexivity|]. split; [reflexivity|].
    split; [reflexivity|]. left.
    assert (Hd0 : dist = 0).
    { pose proof (sqrt_pos (dx * dx + dz * dz)). fold dist in H. lra. }
    rewrite Hd0 in Hsq.
    assert (dx = 0) by nra. assert (dz = 0) by nra.
    unfold dx, dz in *. repeat split; lra.
Qed.

Lemma barrier_step_geometry_witness :
  exists (idx : nat) (next_point : Vector3.t) (self' : Track3D),
    index centerline (track_point 0) = Some idx
    /\ nth_error centerline ((idx + 1) mod List.length centerline)
       = Some next_point
    /\ barrier_step (mkTrack centerline [] []) (track_point 0) = Some self'
    /\ points self' = centerline
    /\ ((left_barriers self' = []
         /\ right_barriers self' = []
         /\ Vector3.x next_point = Vector3.x (track_point 0)
         /\ Vector3.z next_point = Vector3.z (track_point 0))
        \/ exists l r : Vector3.t,
            left_barriers self' = [] ++ [l]
            /\ right_barriers self' = [] ++ [r]
            /\ Vector3.y l = Vector3.y (track_point 0)
            /\ Vector3.y r = Vector3.y (track_point 0)
            /\ Vector3.x l + Vector3.x r = 2 * Vector3.x (track_point 0)
            /\ Vector3.z l + Vector3.z r = 2 * Vector3.z (track_point 0)
            /\ flat_distance (track_point 0) l = 100
            /\ (Vector3.x l - Vector3.x (track_point 0))
               * (Vector3.x next_point - Vector3.x (track_point 0))
               + (Vector3.z l - Vector3.z (track_point 0))
                 * (Vector3.z next_point - Vector3.z (track_point 0)) = 0).
Proof.
  apply (barrier_step_geometry (mkTrack centerline [] []) (track_point 0)).
  change (In (track_point 0) centerline). rewrite centerline_head. now left.
Defined.

(** *** The cars of a session *)

Lemma spawn_ai_at pts acc idx k cls :
  nth_error car_classes idx = Some cls ->
  spawn_ai pts acc (idx, k)
  = acc ++ match nth_error pts k with
           | Some q =>
             [Car3D_init (Vector3.x q) (Vector3.y q) (Vector3.z q) cls false]
           | None => []
           end.
Proof.
  intros H. unfold spawn_ai. rewrite H.
  destruct (nth_error pts k); [reflexivity|now rewrite app_nil_r].
Qed.

(** The AI car spawned on track point [k], if the track has one. *)
Lemma fresh_cars_unfold start rest :
  let pts := start :: rest in
  let spawned k cls :=
    match nth_error pts k with
    | Some q => [Car3D_init (Vector3.x q) (Vector3.y q) (Vector3.z q) cls false]
    | None => []
    end in
  fresh_cars pts
  = Car3D_init (Vector3.x start) (Vector3.y start) (Vector3.z start) SPORTS true
    :: spawned 10%nat SUPERCAR ++ spawned 20%nat MUSCLE ++ spawned 30%nat ECONOMY.
Proof.
  cbv zeta. unfold fresh_cars. f_equal.
  generalize (start :: rest). intros pts.
  unfold enumerate, ai_spawn_indices. cbn [List.length seq combine fold_left].
  rewrite (spawn_ai_at pts _ 2 30 ECONOMY eq_refl).
  rewrite (spawn_ai_at pts _ 1 20 MUSCLE eq_refl).
  rewrite (spawn_ai_at pts _ 0 10 SUPERCAR eq_refl).
  rewrite <- !app_assoc. reflexivity.
Qed.

(** X12.  [setup_game] puts the player, a SPORTS car, on the first track
    point, and an AI car on each of the points 10, 20 and 30 the track has:
    four cars (SPORTS, SUPERCAR, MUSCLE, ECONOMY) on a track of more than 30
    points, never more than four, and none on an empty track; every car
    starts with no lap, unfinished, at rest. *)
Theorem fresh_cars_spec :
  forall pts : list Vector3.t,
    (pts = [] -> fresh_cars pts = [])
    /\ (List.length (fresh_cars pts) <= 4)%nat
    /\ (forall start rest, pts = start :: rest ->
          hd_error (fresh_cars pts)
          = Some (Car3D_init (Vector3.x start) (Vector3.y start)
                             (Vector3.z start) SPORTS true))
    /\ (forall car, In car (fresh_cars pts) ->
          lap_count car = 0%nat /\ last_checkpoint car = 0%nat
          /\ finished car = false /\ speed car = 0
          /\ velocity car = Vector3.mk 0 0 0)
    /\ ((30 < List.length pts)%nat ->
        map car_class (fresh_cars pts) = [SPORTS; SUPERCAR; MUSCLE; ECONOMY]
        /\ map is_player (fresh_cars pts) = [true; false; false; false]
        /\ map (fun car => Some (pos car)) (fresh_cars pts)
           = [nth_error pts 0; nth_error pts 10; nth_error pts 20;
              nth_error pts 30]).
Proof.
  intros pts. split; [now intros ->|].
  destruct pts as [|start rest].
  { simpl. split; [lia|]. split; [discriminate|]. split; [tauto|]. lia. }
  pose proof (fresh_cars_unfold start rest) as Hu. cbv zeta in Hu.
  rewrite Hu. clear Hu.
  assert (Hsome : forall k, (k < List.length (start :: rest))%nat ->
                            exists q, nth_error (start :: rest) k = Some q).
  { intros k Hk. destruct (nth_error (start :: rest) k) eqn:E; [eauto|].
    apply nth_error_None in E. lia. }
  pose proof (Hsome 10%nat) as H10. pose proof (Hsome 20%nat) as H20.
  pose proof (Hsome 30%nat) as H30. clear Hsome. revert H10 H20 H30.
  generalize (nth_error (start :: rest) 10) (nth_error (start :: rest) 20)
             (nth_error (start :: rest) 30).
  intros o10 o20 o30 H10 H20 H30.
  split; [|split; [|split]].
  - destruct o10, o20, o30; simpl; lia.
  - intros s r Heq. injection Heq as <- <-. reflexivity.
  - intros car Hin.
    destruct o10, o20, o30; simpl in Hin;
      intuition (subst; repeat split).
  - intros Hlen.
    destruct H10 as (q10 & ->); [lia|].
    destruct H20 as (q20 & ->); [lia|].
    destruct H30 as (q30 & ->); [lia|].
    simpl. repeat split.
    now destruct start, q10, q20, q30.
Qed.

Lemma fresh_cars_spec_witness :
  fresh_cars [] = []
  /\ hd_error (fresh_cars centerline) = Some player_on_grid
  /\ map car_class (fresh_cars centerline) = [SPORTS; SUPERCAR; MUSCLE; ECONOMY].
Proof.
  split; [|split].
  - apply (fresh_cars_spec []). reflexivity.
  - destruct (fresh_cars_spec centerline) as (_ & _ & H & _).
    apply (H (track_point 0) (map track_point (seq 1 199))).
    apply centerline_head.
  - destruct (fresh_cars_spec centerline) as (_ & _ & _ & _ & H).
    apply H. rewrite centerline_length. lia.
Defined.

(** *** Modes and the main loop *)

Lemma setup_game_keeps g :
  running (setup_game g) = running g /\ track (setup_game g) = track g.
Proof. unfold setup_game. now destruct (points (track g)). Qed.

Lemma handle_event_invariants g event :
  (valid_state (state g) -> valid_state (state (handle_event g event)))
  /\ track (handle_event g event) = track g
  /\ (running g = false -> running (handle_event g event) = false)
  /\ (state g = "racing"%string ->
      state (handle_event g event) = "racing"%string
      /\ all_cars (handle_event g event) = all_cars g).
Proof.
  destruct event as [|key|]; simpl.
  - unfold valid_state. repeat split; auto.
  - destruct (String.eqb (state g) "menu" && is_space key) eqn:E1;
      [|destruct (String.eqb (state g) "finish" && is_space key) eqn:E2;
        [|destruct (is_escape key)]].
    + apply andb_true_iff in E1. destruct E1 as [E1 _].
      apply String.eqb_eq in E1.
      destruct (setup_game_keeps (set_state g "racing")) as [Hr Ht].
      rewrite setup_game_state, Hr, Ht. unfold valid_state. simpl.
      repeat split; auto; rewrite E1 in *; discriminate.
    + apply andb_true_iff in E2. destruct E2 as [E2 _].
      apply String.eqb_eq in E2.
      unfold valid_state. simpl. repeat split; auto; rewrite E2 in *;
        discriminate.
    + simpl. repeat split; auto.
    + repeat split; auto.
  - repeat split; auto.
Qed.

(** X13.  Whatever events arrive, [handle_events] keeps the mode among
    menu, racing and finish, never changes the track, never sets [running]
    back to true, and during a race changes neither the mode nor the cars:
    a race can be neither restarted nor left through an event. *)
Theorem handle_events_invariants :
  forall (g : Game3D) (events : list Event),
    (valid_state (state g) -> valid_state (state (handle_events g events)))
    /\ track (handle_events g events) = track g
    /\ (running g = false -> running (handle_events g events) = false)
    /\ (state g = "racing"%string ->
        state (handle_events g events) = "racing"%string
        /\ all_cars (handle_events g events) = all_cars g).
Proof.
  intros g events. revert g. unfold handle_events.
  induction events as [|event events IH]; intros g; simpl.
  - repeat split; auto.
  - destruct (IH (handle_event g event)) as (I1 & I2 & I3 & I4).
    destruct (handle_event_invariants g event) as (H1 & H2 & H3 & H4).
    split; [auto|]. split; [congruence|]. split; [auto|].
    intros Hs. destruct (H4 Hs) as [Hs' Hc]. destruct (I4 Hs') as [Hs'' Hc'].
    split; [exact Hs''|congruence].
Qed.

(** The theorem on a race under way on the generated track: SPACE, a
    steering key and ESCAPE change neither the mode nor the cars. *)
Lemma handle_events_invariants_witness :
  exists t : Track3D,
    Track3D_init = Some t
    /\ state (handle_events (last_lap t)
                [KEYDOWN K_SPACE; KEYDOWN K_a; KEYDOWN K_ESCAPE])
       = "racing"%string
    /\ all_cars (handle_events (last_lap t)
                   [KEYDOWN K_SPACE; KEYDOWN K_a; KEYDOWN K_ESCAPE])
       = all_cars (last_lap t).
Proof.
  destruct Track3D_init_ok as (t & Ht & _). exists t. split; [exact Ht|].
  destruct (handle_events_invariants (last_lap t)
              [KEYDOWN K_SPACE; KEYDOWN K_a; KEYDOWN K_ESCAPE])
    as (_ & _ & _ & H).
  apply H. reflexivity.
Defined.

Lemma fresh_cars_four pts :
  (30 < List.length pts)%nat -> List.length (fresh_cars pts) = 4%nat.
Proof.
  intros Hlen. destruct pts as [|start rest]; [simpl in Hlen; lia|].
  pose proof (fresh_cars_unfold start rest) as Hu. cbv zeta in Hu. rewrite Hu.
  assert (Hsome : forall k, (k < List.length (start :: rest))%nat ->
                            exists q, nth_error (start :: rest) k = Some q).
  { intros k Hk. destruct (nth_error (start :: rest) k) eqn:E; [eauto|].
    apply nth_error_None in E. lia. }
  destruct (Hsome 10%nat) as (q10 & ->); [lia|].
  destruct (Hsome 20%nat) as (q20 & ->); [lia|].
  destruct (Hsome 30%nat) as (q30 & ->); [lia|].
  reflexivity.
Qed.

Lemma handle_event_session pts g event :
  (30 < List.length pts)%nat -> session_ok pts g ->
  session_ok pts (handle_event g event).
Proof.
  intros Hlen (Hp & Hc & Hv).
  destruct (handle_event_invariants g event) as (H1 & H2 & _ & _).
  split; [now rewrite H2|]. split; [|auto].
  destruct event as [|key|]; simpl; auto.
  destruct (String.eqb (state g) "menu" && is_space key);
    [|destruct (String.eqb (state g) "finish" && is_space key);
      [|destruct (is_escape key)]]; auto.
  rewrite setup_game_cars; simpl; rewrite Hp.
  - now apply fresh_cars_four.
  - destruct pts; [simpl in Hlen; lia|discriminate].
Qed.

Lemma Game3D_update_session pts g keys dt :
  session_ok pts g ->
  exists g', Game3D_update g keys dt = Some g' /\ session_ok pts g'
             /\ running g' = running g /\ track g' = track g.
Proof.
  intros (Hp & Hc & Hv). unfold Game3D_update.
  destruct (String.eqb (state g) "racing") eqn:E.
  - apply String.eqb_eq in E.
    destruct (all_cars g) as [|p ais] eqn:Ec; [simpl in Hc; lia|].
    simpl. eexists. split; [reflexivity|].
    destruct (finished (update p (points (track g)) (Some keys) dt));
      unfold session_ok, valid_state; simpl;
      rewrite ?length_map; simpl in Hc; rewrite ?E; auto 8.
  - exists g. repeat split; auto.
Qed.

(** X14.  A session never fails: from the game [Game3D.__init__]
    builds, whatever events, key states and time steps the loop receives,
    [run] goes through every frame, on the same track of 200 points, with
    four cars (so [update] always finds its player) and a mode among menu,
    racing and finish. *)
Theorem run_never_fails :
  exists g0 : Game3D,
    Game3D_init = Some g0
    /\ forall ticks : list Tick,
        exists g : Game3D,
          Game3D_run g0 ticks = Some g
          /\ track g = track g0
          /\ List.length (points (track g)) = 200%nat
          /\ List.length (all_cars g) = 4%nat
          /\ valid_state (state g).
Proof.
  destruct Track3D_init_ok as (t & Ht & Hp).
  exists (setup_game (mkGame true "menu" t [])). split.
  { unfold Game3D_init. now rewrite Ht. }
  assert (Hlen : (30 < List.length centerline)%nat)
    by (rewrite centerline_length; lia).
  assert (Hrun : forall ticks g,
             session_ok centerline g ->
             exists g', Game3D_run g ticks = Some g'
                        /\ session_ok centerline g' /\ track g' = track g).
  { induction ticks as [|tk ticks IH]; intros g Hg; simpl.
    - exists g. auto.
    - destruct (running g); [|exists g; auto].
      unfold Game3D_frame.
      assert (Hh : session_ok centerline (handle_events g (tick_events tk))).
      { unfold handle_events. generalize (tick_events tk). intros evs.
        revert g Hg. induction evs as [|e evs IHe]; intros g Hg; simpl; auto.
        apply IHe. now apply handle_event_session. }
      destruct (Game3D_update_session centerline _ (tick_keys tk) (tick_dt tk) Hh)
        as (g1 & -> & Hg1 & _ & Ht1).
      simpl. destruct (IH g1 Hg1) as (g2 & Hr & Hg2 & Ht2).
      exists g2. split; [exact Hr|]. split; [exact Hg2|].
      rewrite Ht2, Ht1. clear.
      unfold handle_events. generalize (tick_events tk). intros evs.
      revert g. induction evs as [|e evs IHe]; intros g; simpl; auto.
      rewrite IHe. apply (handle_event_invariants g e). }
  intros ticks.
  assert (H0 : session_ok centerline (setup_game (mkGame true "menu" t []))).
  { unfold session_ok. destruct (setup_game_keeps (mkGame true "menu" t []))
      as [_ Htr].
    rewrite Htr, setup_game_state, setup_game_cars; simpl; rewrite Hp.
    - split; [reflexivity|]. split; [now apply fresh_cars_four|].
      unfold valid_state. auto.
    - rewrite centerline_head. discriminate. }
  destruct (Hrun ticks _ H0) as (g & Hr & (Hpts & Hc & Hv) & Htr).
  exists g. split; [exact Hr|]. split; [exact Htr|].
  split; [rewrite Hpts; apply centerline_length|]. split; assumption.
Qed.

(** *** The head-up display *)

(** X15.  For a car whose speed is not negative (as [update] stores it)
    the gauge ratio lies between 0 and 1, so the RPM bar is between 0 and
    160 pixels wide: it never leaves its 160-pixel frame, however far the
    speed exceeds the maximum. *)
Theorem speed_bar_fits :
  forall car : Car3D,
    0 <= speed car ->
    0 <= speed_pct car <= 1 /\ (0 <= bar_width car <= 160)%Z.
Proof.
  intros car Hs. unfold bar_width.
  assert (Hpct : 0 <= speed_pct car <= 1).
  { unfold speed_pct. split; [|apply Rmin_r].
    apply Rmin_glb; [|lra].
    pose proof (Rmax_ge_1 (max_speed car)).
    apply Rmult_le_pos; [exact Hs|]. apply Rlt_le, Rinv_0_lt_compat. lra. }
  split; [exact Hpct|].
  assert (H : (0 <= py_int (160 * speed_pct car) < 161)%Z)
    by (apply py_int_bounds; lra).
  lia.
Qed.

Lemma speed_bar_fits_witness :
  0 <= speed_pct (set_speed player_on_grid 582) <= 1
  /\ (0 <= bar_width (set_speed player_on_grid 582) <= 160)%Z.
Proof.
  apply (speed_bar_fits (set_speed player_on_grid 582)).
  change (0 <= 582). lra.
Defined.

(** *** The ranking *)

Lemma insert_ranked_keeps (p : Car3D) (c : nat * Car3D) pre : forall post,
  fst c <> 0%nat ->
  Forall (fun c' => fst c' <> 0%nat
                    /\ distance_traveled p <= distance_traveled (snd c')) pre ->
  exists pre' post',
    insert_ranked c (pre ++ (0%nat, p) :: post) = pre' ++ (0%nat, p) :: post'
    /\ Forall (fun c' => fst c' <> 0%nat
                         /\ distance_traveled p <= distance_traveled (snd c'))
              pre'
    /\ List.length pre'
       = (List.length pre
          + if Rltb (distance_traveled p) (distance_traveled (snd c))
            then 1 else 0)%nat.
Proof.
  induction pre as [|a pre IH]; intros post Hc Hpre; simpl.
  - destruct (Rltb (distance_traveled p) (distance_traveled (snd c))) eqn:E.
    + exists [c], post. split; [reflexivity|]. split; [|reflexivity].
      constructor; [|constructor]. split; [exact Hc|].
      apply Rltb_true in E. lra.
    + exists [], (insert_ranked c post). repeat split. constructor.
  - inversion Hpre as [|? ? [Ha1 Ha2] Hpre']; subst.
    destruct (Rltb (distance_traveled (snd a)) (distance_traveled (snd c)))
      eqn:E.
    + apply Rltb_true in E.
      rewrite (proj2 (Rltb_true (distance_traveled p)
                                (distance_traveled (snd c)))) by lra.
      exists (c :: a :: pre), post. split; [reflexivity|]. split.
      * constructor; [split; [exact Hc|lra]|exact Hpre].
      * simpl. lia.
    + destruct (IH post Hc Hpre') as (pre' & post' & -> & Hf & Hl).
      exists (a :: pre'), post'. split; [reflexivity|]. split.
      * constructor; [now split|exact Hf].
      * simpl. now rewrite Hl.
Qed.

Lemma positions_fold (p : Car3D) cs : forall pre post,
  Forall (fun c => fst c <> 0%nat) cs ->
  Forall (fun c' => fst c' <> 0%nat
                    /\ distance_traveled p <= distance_traveled (snd c')) pre ->
  exists pre' post',
    fold_left (fun sorted c => insert_ranked c sorted) cs
              (pre ++ (0%nat, p) :: post)
    = pre' ++ (0%nat, p) :: post'
    /\ Forall (fun c' => fst c' <> 0%nat) pre'
    /\ List.length pre'
       = (List.length pre
          + List.length
              (filter (fun car => Rltb (distance_traveled p)
                                       (distance_traveled car))
                      (map snd cs)))%nat.
Proof.
  induction cs as [|c cs IH]; intros pre post Hcs Hpre; simpl.
  - exists pre, post. split; [reflexivity|]. split; [|lia].
    eapply Forall_impl; [|exact Hpre]. now intros a [H _].
  - inversion Hcs as [|? ? Hc Hcs']; subst.
    destruct (insert_ranked_keeps p c pre post Hc Hpre)
      as (pre1 & post1 & -> & Hf1 & Hl1).
    destruct (IH pre1 post1 Hcs' Hf1) as (pre2 & post2 & -> & Hf2 & Hl2).
    exists pre2, post2. split; [reflexivity|]. split; [exact Hf2|].
    rewrite Hl2, Hl1.
    destruct (Rltb (distance_traveled p) (distance_traveled (snd c)));
      simpl; lia.
Qed.

Lemma index_of_player_found (p : Car3D) pre post :
  Forall (fun c => fst c <> 0%nat) pre ->
  index_of_player (pre ++ (0%nat, p) :: post) = Some (List.length pre).
Proof.
  induction pre as [|a pre IH]; intros H; simpl; [reflexivity|].
  inversion H as [|? ? Ha H']; subst.
  destruct (Nat.eqb_spec (fst a) 0); [contradiction|].
  now rewrite (IH H').
Qed.

Lemma enumerate_tail {A : Type} (l : list A) : forall start,
  (0 < start)%nat ->
  Forall (fun c => fst c <> 0%nat) (combine (seq start (List.length l)) l)
  /\ map snd (combine (seq start (List.length l)) l) = l.
Proof.
  induction l as [|a l IH]; intros start Hs; simpl.
  - split; [constructor|reflexivity].
  - destruct (IH (S start)) as [H1 H2]; [lia|].
    split; [constructor; [simpl; lia|exact H1]|now rewrite H2].
Qed.

(** X26.  The position [draw_hud] shows for the player is one more than
    the number of other cars that have travelled strictly farther: a car
    level with the player is ranked behind it.  The search for the player
    in the ranking never fails, and the position is at most the number of
    cars. *)
Theorem player_position_counts_cars_ahead :
  forall (player : Car3D) (ai_cars : list Car3D),
    position (player :: ai_cars)
    = Some (1 + List.length
                  (filter (fun car => Rltb (distance_traveled player)
                                           (distance_traveled car))
                          ai_cars))%nat
    /\ exists n, position (player :: ai_cars) = Some n
                 /\ (1 <= n <= List.length (player :: ai_cars))%nat.
Proof.
  intros p ais.
  assert (H : position (p :: ais)
              = Some (1 + List.length
                            (filter (fun car => Rltb (distance_traveled p)
                                                     (distance_traveled car))
                                    ais))%nat).
  { unfold position, positions, enumerate. simpl List.length. simpl seq.
    simpl combine. simpl fold_left.
    destruct (enumerate_tail ais 1) as [Hne Hmap]; [lia|].
    destruct (positions_fold p (combine (seq 1 (List.length ais)) ais) [] []
                Hne (Forall_nil _))
      as (pre & post & Hfold & Hpre & Hlen).
    simpl app in Hfold. rewrite Hfold, index_of_player_found by exact Hpre.
    simpl bind. rewrite Hlen, Hmap. simpl. f_equal. lia. }
  split; [exact H|]. eexists. split; [exact H|].
  pose proof (filter_length_le
                (fun car => Rltb (distance_traveled p) (distance_traveled car))
                ais).
  simpl List.length. lia.
Qed.

End RacingMore.

(** * Further properties of the flappy game *)

Module FlappyMore.
Import Flappy FlappyCases FlappyFacts.
Local Open Scope Q_scope.

(** *** The "Update pipes" loop *)

Lemma move_pipe_fold l : forall self done,
  let r := fold_left move_pipe l (self, done) in
  let k := Z.of_nat (List.length (filter (newly_passed self) l)) in
  same_bird self (fst r)
  /\ game_over (fst r) = game_over self
  /\ current_speed (fst r) = current_speed self
  /\ current_gap (fst r) = current_gap self
  /\ score (fst r) = (score self + k)%Z
  /\ pipes_passed (fst r) = (pipes_passed self + k)%Z
  /\ exists moved, snd r = done ++ moved
                   /\ Forall2 (moved_by (current_speed self)) l moved.
Proof.
  induction l as [|p l IH]; intros self done; cbv zeta.
  - simpl. unfold same_bird. repeat split; try lia.
    exists []. split; [now rewrite app_nil_r|constructor].
  - simpl fold_left. unfold move_pipe at 2. cbv zeta. cbn [x passed top_height gap].
    change (negb (passed p)
            && Qltb (x p - current_speed self + 50) (inject_Z (player_x self)))
      with (newly_passed self p).
    simpl filter.
    destruct (newly_passed self p) eqn:E.
    + specialize (IH (set_counters self (score self + 1) (pipes_passed self + 1))
                     (done ++ [mkPipe (x p - current_speed self) (top_height p)
                                      (gap p) true])).
      cbv zeta in IH.
      change (newly_passed (set_counters self (score self + 1)
                                         (pipes_passed self + 1)))
        with (newly_passed self) in IH.
      destruct IH as (Hb & Hg & Hs & Hc & Hsc & Hpp & moved & Hm & Hf).
      split; [exact Hb|]. split; [exact Hg|]. split; [exact Hs|].
      split; [exact Hc|]. simpl List.length. simpl in Hsc, Hpp.
      split; [lia|]. split; [lia|].
      eexists. split; [rewrite Hm, <- app_assoc; reflexivity|].
      constructor; [unfold moved_by; simpl; auto|exact Hf].
    + specialize (IH self
                     (done ++ [mkPipe (x p - current_speed self) (top_height p)
                                      (gap p) (passed p)])).
      cbv zeta in IH.
      destruct IH as (Hb & Hg & Hs & Hc & Hsc & Hpp & moved & Hm & Hf).
      split; [exact Hb|]. split; [exact Hg|]. split; [exact Hs|].
      split; [exact Hc|]. split; [exact Hsc|]. split; [exact Hpp|].
      eexists. split; [rewrite Hm, <- app_assoc; reflexivity|].
      constructor; [unfold moved_by; simpl; auto|exact Hf].
Qed.

Lemma move_pipes_spec self :
  let k := Z.of_nat (List.length (filter (newly_passed self) (pipes self))) in
  same_bird self (move_pipes self)
  /\ game_over (move_pipes self) = game_over self
  /\ current_speed (move_pipes self) = current_speed self
  /\ current_gap (move_pipes self) = current_gap self
  /\ score (move_pipes self) = (score self + k)%Z
  /\ pipes_passed (move_pipes self) = (pipes_passed self + k)%Z
  /\ Forall2 (moved_by (current_speed self)) (pipes self)
             (pipes (move_pipes self)).
Proof.
  cbv zeta. unfold move_pipes.
  pose proof (move_pipe_fold (pipes self) self []) as H. cbv zeta in H.
  destruct (fold_left move_pipe (pipes self) (self, [])) as [self' moved].
  simpl in H. destruct H as (Hb & Hg & Hs & Hc & Hsc & Hpp & m & -> & Hf).
  unfold same_bird in *. simpl. intuition.
Qed.

(** *** The steps of [update] before the collision check *)

Lemma spawn_when_needed s draw :
  let spawned :=
    match rev (pipes s) with
    | [] => spawn_pipe s draw
    | last_pipe :: _ =>
      if Qltb (x last_pipe) (inject_Z (SCREEN_WIDTH - 200))
      then spawn_pipe s draw else s
    end in
  same_bird s spawned
  /\ game_over spawned = game_over s
  /\ score spawned = score s /\ pipes_passed spawned = pipes_passed s
  /\ pipes spawned <> []
  /\ ((pipes spawned = pipes s /\ current_gap spawned = current_gap s
       /\ current_speed spawned = current_speed s)
      \/ (pipes spawned
          = pipes s ++ [mkPipe (inject_Z SCREEN_WIDTH) draw
                               (Z.max 100 (base_gap s - pipes_passed s * 5))
                               false]
          /\ current_gap spawned
             = Z.max 100 (base_gap s - pipes_passed s * 5)
          /\ current_speed spawned
             = inject_Z (base_speed s) + inject_Z (pipes_passed s) * (1 # 2))).
Proof.
  cbv zeta.
  assert (Hspawn :
    same_bird s (spawn_pipe s draw)
    /\ game_over (spawn_pipe s draw) = game_over s
    /\ score (spawn_pipe s draw) = score s
    /\ pipes_passed (spawn_pipe s draw) = pipes_passed s
    /\ pipes (spawn_pipe s draw) <> []
    /\ ((pipes (spawn_pipe s draw) = pipes s
         /\ current_gap (spawn_pipe s draw) = current_gap s
         /\ current_speed (spawn_pipe s draw) = current_speed s)
        \/ (pipes (spawn_pipe s draw)
            = pipes s ++ [mkPipe (inject_Z SCREEN_WIDTH) draw
                                 (Z.max 100 (base_gap s - pipes_passed s * 5))
                                 false]
            /\ current_gap (spawn_pipe s draw)
               = Z.max 100 (base_gap s - pipes_passed s * 5)
            /\ current_speed (spawn_pipe s draw)
               = inject_Z (base_speed s) + inject_Z (pipes_passed s) * (1 # 2)))).
  { unfold same_bird. repeat split; try reflexivity.
    - simpl. intros H. now apply app_eq_nil in H as [_ H].
    - right. repeat split. }
  destruct (rev (pipes s)) as [|last_pipe l] eqn:E; [exact Hspawn|].
  destruct (Qltb (x last_pipe) (inject_Z (SCREEN_WIDTH - 200)));
    [exact Hspawn|].
  unfold same_bird. repeat split; auto.
  intros H. rewrite H in E. discriminate.
Qed.

Lemma advance_spec g draw :
  let a := advance g draw in
  let k := Z.of_nat (List.length (filter (newly_passed g) (pipes g))) in
  (running a = running g /\ player_x a = player_x g
   /\ base_speed a = base_speed g /\ base_gap a = base_gap g)
  /\ player_velocity a = fallen_velocity g
  /\ player_y a = fallen_y g
  /\ game_over a
     = game_over g
       || (Qltb (fallen_y g) 0
           || Qgtb (fallen_y g + inject_Z PLAYER_SIZE) (inject_Z SCREEN_HEIGHT))
  /\ score a = (score g + k)%Z
  /\ pipes_passed a = (pipes_passed g + k)%Z
  /\ pipes a <> []
  /\ Forall (fun p => inject_Z (-100) < x p) (pipes a).
Proof.
  cbv zeta. unfold advance. cbv zeta.
  change (player_velocity g + GRAVITY) with (fallen_velocity g).
  change (player_y g + fallen_velocity g) with (fallen_y g).
  set (s1 := set_player g (fallen_y g) (fallen_velocity g)).
  change (player_y s1) with (fallen_y g).
  set (b := Qltb (fallen_y g) 0
            || Qgtb (fallen_y g + inject_Z PLAYER_SIZE) (inject_Z SCREEN_HEIGHT)).
  set (s2 := if b then set_game_over s1 true else s1).
  assert (H2 : (running s2 = running g /\ player_x s2 = player_x g
                /\ player_y s2 = fallen_y g
                /\ player_velocity s2 = fallen_velocity g
                /\ base_speed s2 = base_speed g /\ base_gap s2 = base_gap g)
               /\ game_over s2 = game_over g || b
               /\ pipes s2 = pipes g /\ score s2 = score g
               /\ pipes_passed s2 = pipes_passed g
               /\ newly_passed s2 = newly_passed g).
  { unfold s2, s1. destruct b; simpl; rewrite ?orb_true_r, ?orb_false_r;
      repeat split. }
  destruct H2 as (Hb2 & Hg2 & Hp2 & Hsc2 & Hpp2 & Hn2).
  pose proof (move_pipes_spec s2) as (Hb3 & Hg3 & _ & _ & Hsc3 & Hpp3 & _).
  rewrite Hn2, Hp2 in Hsc3, Hpp3.
  set (s3 := move_pipes s2) in *.
  set (s4 := set_pipes s3 (filter (fun p => Qgtb (x p) (inject_Z (-100)))
                                  (pipes s3))).
  pose proof (spawn_when_needed s4 draw) as H5. cbv zeta in H5.
  set (s5 := match rev (pipes s4) with
             | [] => spawn_pipe s4 draw
             | last_pipe :: _ =>
               if Qltb (x last_pipe) (inject_Z (SCREEN_WIDTH - 200))
               then spawn_pipe s4 draw else s4
             end) in *.
  destruct H5 as (Hb5 & Hg5 & Hsc5 & Hpp5 & Hne & Hpipes).
  unfold same_bird in *. simpl in Hb5, Hg5, Hsc5, Hpp5.
  destruct Hb2 as (B1 & B2 & B3 & B4 & B5 & B6).
  destruct Hb3 as (C1 & C2 & C3 & C4 & C5 & C6).
  destruct Hb5 as (D1 & D2 & D3 & D4 & D5 & D6).
  split; [repeat split; congruence|].
  split; [congruence|]. split; [congruence|].
  split; [congruence|]. split; [congruence|]. split; [congruence|].
  split; [exact Hne|].
  assert (H4 : Forall (fun p => inject_Z (-100) < x p) (pipes s4)).
  { apply Forall_forall. intros p Hin. simpl in Hin.
    apply filter_In in Hin. destruct Hin as [_ Hin].
    now apply Qltb_true in Hin. }
  destruct Hpipes as [(-> & _)|(-> & _)]; [exact H4|].
  apply Forall_app. split; [exact H4|].
  constructor; [|constructor]. simpl. unfold Qlt. simpl. lia.
Qed.

Lemma check_collisions_spec s :
  same_bird s (check_collisions s)
  /\ pipes (check_collisions s) = pipes s
  /\ score (check_collisions s) = score s
  /\ pipes_passed (check_collisions s) = pipes_passed s
  /\ current_gap (check_collisions s) = current_gap s
  /\ current_speed (check_collisions s) = current_speed s
  /\ game_over (check_collisions s)
     = game_over s || existsb (fun p => in_span s p && out_of_gap s p) (pipes s).
Proof.
  unfold check_collisions. rewrite check_collisions_fold.
  unfold same_bird.
  destruct (existsb _ (pipes s)); simpl;
    rewrite ?orb_true_r, ?orb_false_r; repeat split.
Qed.

(** X16.  A call of [update] on a running game lets the player fall:
    the velocity grows by the gravity 0.5, the height by the new velocity,
    x stays; and the game is over afterwards exactly if the player has left
    the screen or its box overlaps a pipe horizontally while reaching out
    of its gap. *)
Theorem update_falls_and_judges :
  forall (g : Game) (draw : Z),
    game_over g = false ->
    let g' := update g draw in
    player_velocity g' = fallen_velocity g
    /\ player_y g' = fallen_y g
    /\ player_x g' = player_x g
    /\ (game_over g' = true <->
        off_screen (fallen_y g)
        \/ exists p, In p (pipes g')
                     /\ box_within_span g' p /\ box_outside_gap g' p).
Proof.
  intros g draw Hg. cbv zeta. unfold update. rewrite Hg.
  pose proof (advance_spec g draw) as H. cbv zeta in H.
  destruct H as ((_ & Hx & _) & Hv & Hy & Hover & _).
  pose proof (check_collisions_spec (advance g draw))
    as ((_ & Cx & Cy & Cv & _) & Cp & _ & _ & _ & _ & Cg).
  split; [congruence|]. split; [congruence|]. split; [congruence|].
  rewrite Cg, Hover, Hg, Cp. simpl orb at 1.
  rewrite !orb_true_iff, existsb_exists.
  unfold off_screen. rewrite <- !Qltb_true. unfold Qgtb.
  split.
  - intros [H|(p & Hin & Hp)]; [left; exact H|]. right. exists p.
    apply andb_true_iff in Hp. destruct Hp as [H1 H2].
    apply in_span_true in H1. apply out_of_gap_true in H2.
    unfold box_within_span, box_outside_gap in *.
    rewrite Cx, Cy. auto.
  - intros [H|(p & Hin & H1 & H2)]; [left; exact H|]. right. exists p.
    split; [exact Hin|]. apply andb_true_iff.
    unfold box_within_span, box_outside_gap in *. rewrite Cx in H1.
    rewrite Cy in H2.
    split; [now apply in_span_true|now apply out_of_gap_true].
Qed.

(** The theorem on a player flying at height 300 towards a pipe far
    ahead: after the frame it is half a pixel lower. *)
Lemma update_falls_and_judges_witness :
  player_velocity (update (flying [pipe_ahead]) 200) = 0 + (1 # 2)
  /\ player_y (update (flying [pipe_ahead]) 200) = (300 # 1) + (0 + (1 # 2)).
Proof.
  destruct (update_falls_and_judges (flying [pipe_ahead]) 200 eq_refl)
    as (Hv & Hy & _).
  split; [exact Hv|exact Hy].
Defined.

(** X17.  After [update] of a running game the list of pipes is never
    empty and holds no pipe at or left of x = -100: pipes that have left
    the screen are dropped, and a pipe is spawned when none is left. *)
Theorem pipes_after_update :
  forall (g : Game) (draw : Z),
    game_over g = false ->
    pipes (update g draw) <> []
    /\ Forall (fun p => inject_Z (-100) < x p) (pipes (update g draw)).
Proof.
  intros g draw Hg. unfold update. rewrite Hg.
  pose proof (advance_spec g draw) as H. cbv zeta in H.
  destruct H as (_ & _ & _ & _ & _ & _ & Hne & Hall).
  pose proof (check_collisions_spec (advance g draw)) as (_ & -> & _).
  split; assumption.
Qed.

Lemma pipes_after_update_witness :
  pipes (update (flying []) 200) <> []
  /\ Forall (fun p => inject_Z (-100) < x p) (pipes (update (flying []) 200)).
Proof. apply (pipes_after_update (flying []) 200). reflexivity. Defined.

(** X18.  [update] of a running game adds to the score, and to the count
    of passed pipes, the number of pipes that had not been counted and
    whose right edge, once moved, is left of the player; so a score equal
    to the count of passed pipes stays equal to it. *)
Theorem score_counts_passed_pipes :
  forall (g : Game) (draw : Z),
    game_over g = false ->
    let k := Z.of_nat (List.length (filter (newly_passed g) (pipes g))) in
    score (update g draw) = (score g + k)%Z
    /\ pipes_passed (update g draw) = (pipes_passed g + k)%Z
    /\ (score g = pipes_passed g ->
        score (update g draw) = pipes_passed (update g draw)).
Proof.
  intros g draw Hg. cbv zeta. unfold update. rewrite Hg.
  pose proof (advance_spec g draw) as H. cbv zeta in H.
  destruct H as (_ & _ & _ & _ & Hs & Hp & _).
  pose proof (check_collisions_spec (advance g draw))
    as (_ & _ & -> & -> & _).
  split; [exact Hs|]. split; [exact Hp|]. lia.
Qed.

(** The theorem on a pipe whose right edge, at x = 95 after the move, is
    left of the player at x = 100: the frame scores it. *)
Lemma score_counts_passed_pipes_witness :
  score (update (flying [mkPipe (49 # 1) 200 200 false]) 200) = 1%Z
  /\ pipes_passed (update (flying [mkPipe (49 # 1) 200 200 false]) 200) = 1%Z.
Proof.
  destruct (score_counts_passed_pipes
              (flying [mkPipe (49 # 1) 200 200 false]) 200 eq_refl)
    as (Hs & Hp & _).
  split; [exact Hs|exact Hp].
Defined.

(** *** Falling *)

Lemma update_when_over g draw : game_over g = true -> update g draw = g.
Proof. intros H. unfold update. now rewrite H. Qed.

Lemma updates_when_over draws : forall g,
  game_over g = true -> fold_left update draws g = g.
Proof.
  induction draws as [|d draws IH]; intros g H; simpl; [reflexivity|].
  rewrite update_when_over by exact H. now apply IH.
Qed.

Lemma update_player g draw :
  game_over g = false ->
  player_velocity (update g draw) = fallen_velocity g
  /\ player_y (update g draw) = fallen_y g
  /\ (off_screen (fallen_y g) -> game_over (update g draw) = true).
Proof.
  intros Hg. unfold update. rewrite Hg.
  pose proof (advance_spec g draw) as H. cbv zeta in H.
  destruct H as (_ & Hv & Hy & Hover & _).
  pose proof (check_collisions_spec (advance g draw))
    as ((_ & _ & Cy & Cv & _) & _ & _ & _ & _ & _ & Cg).
  split; [congruence|]. split; [congruence|].
  intros Hoff. rewrite Cg, Hover, Hg. simpl orb at 1.
  apply orb_true_iff. left. apply orb_true_iff.
  unfold off_screen in Hoff. unfold Qgtb. rewrite !Qltb_true. exact Hoff.
Qed.

(** Left alone for [n] frames, a running game is over or the player has
    fallen along the parabola of constant gravity. *)
Lemma free_fall draws : forall g,
  game_over g = false ->
  let n := inject_Z (Z.of_nat (List.length draws)) in
  game_over (fold_left update draws g) = true
  \/ (player_velocity (fold_left update draws g)
      == player_velocity g + n * (1 # 2)
      /\ player_y (fold_left update draws g)
         == player_y g + n * player_velocity g + n * (n + 1) * (1 # 4)).
Proof.
  induction draws as [|d draws IH]; intros g Hg; cbv zeta.
  - right. simpl. split; ring.
  - simpl fold_left.
    destruct (game_over (update g d)) eqn:E.
    + left. now rewrite updates_when_over.
    + destruct (update_player g d Hg) as (Hv & Hy & _).
      destruct (IH (update g d) E) as [H|[H1 H2]]; [now left|]. right.
      cbv zeta in H1, H2. rewrite Hv in H1, H2. rewrite Hy in H2.
      unfold fallen_y, fallen_velocity, GRAVITY in *.
      assert (Hn : inject_Z (Z.of_nat (List.length (d :: draws)))
                   == inject_Z (Z.of_nat (List.length draws)) + 1).
      { simpl List.length. rewrite Nat2Z.inj_succ. unfold Z.succ.
        now rewrite inject_Z_plus. }
      rewrite Hn, H1, H2. split; ring.
Qed.

(** X19.  A player who never flaps loses: from the state [reset_game]
    sets up, whatever pipes are drawn, the game is over after 31 calls of
    [update] at the latest (the player, started at height 300 with no
    velocity, has then fallen through the bottom of the screen). *)
Theorem unflapped_player_falls_out :
  forall (g : Game) (draw : Z) (draws : list Z),
    (31 <= List.length draws)%nat ->
    game_over (fold_left update draws (reset_game g draw)) = true.
Proof.
  intros g draw draws Hlen.
  rewrite <- (firstn_skipn 30 draws), fold_left_app.
  assert (H30 : List.length (firstn 30 draws) = 30%nat)
    by (rewrite length_firstn; lia).
  destruct (skipn 30 draws) as [|d rest] eqn:Es.
  { pose proof (length_skipn 30 draws) as Hs. rewrite Es in Hs.
    simpl in Hs. lia. }
  set (g30 := fold_left update (firstn 30 draws) (reset_game g draw)).
  simpl fold_left.
  assert (Hover : game_over (update g30 d) = true).
  { destruct (game_over g30) eqn:E30.
    - now rewrite update_when_over.
    - destruct (free_fall (firstn 30 draws) (reset_game g draw) eq_refl)
        as [H|[Hv Hy]]; [fold g30 in H; congruence|].
      fold g30 in Hv, Hy. cbv zeta in Hv, Hy. rewrite H30 in Hv, Hy.
      apply (update_player g30 d E30).
      unfold off_screen, fallen_y, fallen_velocity, GRAVITY. right.
      rewrite Hv, Hy. reflexivity. }
  rewrite updates_when_over; exact Hover.
Qed.

Lemma unflapped_player_falls_out_witness :
  game_over (fold_left update (repeat 200%Z 31) (reset_game blank 200)) = true.
Proof.
  apply (unflapped_player_falls_out blank 200 (repeat 200%Z 31)).
  rewrite repeat_length. lia.
Defined.

(** *** Flapping and restarting *)

(** X20.  The space bar, while the game runs, sets the velocity to -12
    whatever it was, so that the next [update] lifts the player by 11.5;
    once the game is over it restarts the game instead: score 0, the player
    at rest at height 300, one pipe at the right edge with the widest gap.
    Other keys and other events change nothing, and QUIT only stops the
    loop. *)
Theorem space_flaps_or_restarts :
  forall (g : Game) (draw : Z),
    (game_over g = false ->
     player_velocity (handle_event g (KEYDOWN true) draw) = inject_Z (-12)
     /\ player_y (handle_event g (KEYDOWN true) draw) = player_y g
     /\ forall draw',
         player_y (update (handle_event g (KEYDOWN true) draw) draw')
         == player_y g - (23 # 2))
    /\ (game_over g = true ->
        let g' := handle_event g (KEYDOWN true) draw in
        game_over g' = false /\ score g' = 0%Z /\ pipes_passed g' = 0%Z
        /\ player_y g' = inject_Z 300 /\ player_velocity g' = 0
        /\ pipes g' = [mkPipe (inject_Z 800) draw 200 false]
        /\ running g' = running g)
    /\ handle_event g (KEYDOWN false) draw = g
    /\ handle_event g OTHER draw = g
    /\ running (handle_event g QUIT draw) = false.
Proof.
  intros g draw. split; [|split; [|repeat split]].
  - intros Hg. simpl. rewrite Hg. split; [reflexivity|]. split; [reflexivity|].
    intros draw'.
    destruct (update_player (set_player g (player_y g) (inject_Z FLAP_STRENGTH))
                draw' Hg) as (_ & -> & _).
    unfold fallen_y, fallen_velocity, GRAVITY, FLAP_STRENGTH. simpl. ring.
  - intros Hg. simpl. rewrite Hg. repeat split.
Qed.

Lemma space_flaps_or_restarts_witness :
  (forall draw',
      player_y (update (handle_event (flying [pipe_ahead]) (KEYDOWN true) 200)
                       draw')
      == (300 # 1) - (23 # 2))
  /\ score (handle_event blank (KEYDOWN true) 200) = 0%Z.
Proof.
  split.
  - destruct (space_flaps_or_restarts (flying [pipe_ahead]) 200) as (H & _).
    apply (H eq_refl).
  - destruct (space_flaps_or_restarts blank 200) as (_ & H & _).
    apply (H eq_refl).
Defined.

(** *** Difficulty *)

(** X21.  With the constants of [reset_game] and a count of passed pipes
    that is not negative, [spawn_pipe] sets the gap to 200 minus 5 per
    passed pipe but at least 100, the speed to 4 plus one half per passed
    pipe, and appends one uncounted pipe at the right edge with that gap;
    the range it draws the pipe height from is never empty, and a height
    drawn from it leaves at least 80 pixels above and below the gap. *)
Theorem spawn_pipe_difficulty :
  forall (g : Game) (draw : Z),
    (0 <= pipes_passed g)%Z -> base_gap g = 200%Z -> base_speed g = 4%Z ->
    let g' := spawn_pipe g draw in
    let lo := fst (pipe_height_range g) in
    let hi := snd (pipe_height_range g) in
    current_gap g' = Z.max 100 (200 - 5 * pipes_passed g)
    /\ (100 <= current_gap g' <= 200)%Z
    /\ current_speed g' == 4 + inject_Z (pipes_passed g) * (1 # 2)
    /\ pipes g' = pipes g ++ [mkPipe (inject_Z 800) draw (current_gap g') false]
    /\ (lo = 80 /\ hi = 520 - current_gap g' /\ lo <= hi)%Z
    /\ ((lo <= draw <= hi)%Z ->
        (80 <= draw /\ draw + current_gap g' <= 520)%Z).
Proof.
  intros g draw Hp Hg Hs. cbv zeta.
  unfold pipe_height_range, spawn_pipe, set_pipes, set_difficulty,
    SCREEN_HEIGHT, SCREEN_WIDTH. cbv zeta.
  cbn [fst snd current_gap current_speed pipes base_gap base_speed
       pipes_passed].
  rewrite Hg, Hs.
  replace (200 - pipes_passed g * 5)%Z with (200 - 5 * pipes_passed g)%Z by lia.
  split; [reflexivity|]. split; [lia|]. split; [reflexivity|].
  split; [reflexivity|]. split; lia.
Qed.

Lemma spawn_pipe_difficulty_witness :
  current_gap (spawn_pipe (flying []) 200) = Z.max 100 (200 - 5 * 0)
  /\ (80 <= 200 /\ 200 + current_gap (spawn_pipe (flying []) 200) <= 520)%Z.
Proof.
  assert (Hp : (0 <= pipes_passed (flying []))%Z) by discriminate.
  destruct (spawn_pipe_difficulty (flying []) 200 Hp eq_refl eq_refl)
    as (H1 & _ & _ & _ & _ & H2).
  split; [exact H1|]. apply H2. split; discriminate.
Defined.

(** *** What a session keeps *)

Lemma moved_pipes_ok speed l l' :
  0 <= speed -> Forall2 (moved_by speed) l l' ->
  Forall pipe_ok l -> Forall pipe_ok l'.
Proof.
  intros Hs H. induction H as [|p p' l l' (Hx & _ & Hg) _ IH]; intros Hl;
    [constructor|].
  inversion Hl as [|? ? (Hgap & Hxp) Hl']; subst.
  constructor; [|now apply IH].
  unfold pipe_ok. rewrite Hx, Hg. split; [exact Hgap|].
  apply Qle_trans with (x p); [|exact Hxp].
  rewrite <- (Qplus_0_r (x p)) at 2. unfold Qminus.
  apply Qplus_le_r. apply (Qopp_le_compat 0 speed) in Hs. exact Hs.
Qed.

Lemma reset_game_session g draw : session_ok (reset_game g draw).
Proof.
  unfold session_ok, reset_game, spawn_pipe. cbv zeta. simpl.
  repeat split; try discriminate.
  constructor; [|constructor]. unfold pipe_ok. simpl.
  repeat split; discriminate.
Qed.

Lemma advance_session g draw : session_ok g -> session_ok (advance g draw).
Proof.
  intros (Hx & Hbs & Hbg & Hpp & Hsc & Hcg & Hcs & Hpipes).
  unfold advance. cbv zeta.
  set (s1 := set_player g (player_y g + (player_velocity g + GRAVITY))
                        (player_velocity g + GRAVITY)).
  set (b := Qltb (player_y s1) 0
            || Qgtb (player_y s1 + inject_Z PLAYER_SIZE) (inject_Z SCREEN_HEIGHT)).
  set (s2 := if b then set_game_over s1 true else s1).
  assert (H2 : player_x s2 = player_x g /\ base_speed s2 = base_speed g
               /\ base_gap s2 = base_gap g /\ pipes s2 = pipes g
               /\ score s2 = score g /\ pipes_passed s2 = pipes_passed g
               /\ current_gap s2 = current_gap g
               /\ current_speed s2 = current_speed g).
  { unfold s2, s1. destruct b; repeat split. }
  destruct H2 as (A1 & A2 & A3 & A4 & A5 & A6 & A7 & A8).
  pose proof (move_pipes_spec s2)
    as ((_ & B1 & _ & _ & B2 & B3) & _ & B4 & B5 & B6 & B7 & B8).
  cbv zeta in B6, B7.
  set (k := Z.of_nat (List.length (filter (newly_passed s2) (pipes s2)))) in *.
  assert (Hk : (0 <= k)%Z) by (unfold k; lia).
  set (s3 := move_pipes s2) in *.
  set (s4 := set_pipes s3 (filter (fun p => Qgtb (x p) (inject_Z (-100)))
                                  (pipes s3))).
  assert (H3 : Forall pipe_ok (pipes s3)).
  { apply (moved_pipes_ok (current_speed s2) (pipes s2)); [|exact B8|].
    - rewrite A8. apply Qle_trans with 4; [discriminate|exact Hcs].
    - now rewrite A4. }
  assert (H4 : Forall pipe_ok (pipes s4)).
  { apply Forall_forall. intros p Hin. simpl in Hin.
    apply filter_In in Hin. destruct Hin as [Hin _].
    revert p Hin. now apply Forall_forall. }
  pose proof (spawn_when_needed s4 draw) as H5. cbv zeta in H5.
  set (s5 := match rev (pipes s4) with
             | [] => spawn_pipe s4 draw
             | last_pipe :: _ =>
               if Qltb (x last_pipe) (inject_Z (SCREEN_WIDTH - 200))
               then spawn_pipe s4 draw else s4
             end) in *.
  destruct H5 as ((_ & C1 & _ & _ & C2 & C3) & _ & C4 & C5 & _ & Hcase).
  simpl in C1, C2, C3, C4, C5.
  assert (Hpassed : pipes_passed s5 = (pipes_passed g + k)%Z) by congruence.
  unfold session_ok.
  split; [congruence|]. split; [congruence|]. split; [congruence|].
  split; [lia|]. split; [congruence|].
  destruct Hcase as [(E1 & E2 & E3)|(E1 & E2 & E3)]; simpl in E1, E2, E3.
  - rewrite E1, E2, E3. split; [congruence|]. split; [congruence|exact H4].
  - assert (Hgap : (100 <= Z.max 100 (base_gap s3 - pipes_passed s3 * 5) <= 200)%Z).
    { rewrite B3, A3, Hbg, B7, A6. lia. }
    rewrite E1, E2, E3. split; [exact Hgap|]. split.
    + rewrite B2, A2, Hbs, B7, A6.
      rewrite <- (Qplus_0_r 4) at 1. apply Qplus_le_r.
      apply Qmult_le_0_compat; [|discriminate].
      change 0 with (inject_Z 0). rewrite <- Zle_Qle. lia.
    + apply Forall_app. split; [exact H4|].
      constructor; [|constructor]. unfold pipe_ok. simpl.
      split; [exact Hgap|]. apply Qle_refl.
Qed.

Lemma update_session g draw : session_ok g -> session_ok (update g draw).
Proof.
  intros H. unfold update. destruct (game_over g); [exact H|].
  apply (advance_session g draw) in H.
  destruct H as (Hx & Hbs & Hbg & Hpp & Hsc & Hcg & Hcs & Hpipes).
  pose proof (check_collisions_spec (advance g draw))
    as ((_ & C1 & _ & _ & C2 & C3) & C4 & C5 & C6 & C7 & C8 & _).
  unfold session_ok. rewrite C1, C2, C3, C4, C5, C6, C7, C8.
  repeat split; assumption || apply Hcg.
Qed.

Lemma handle_input_event_session g event draw :
  session_ok g -> session_ok (handle_event g event draw).
Proof.
  intros H. destruct event as [|[|]|]; simpl; try exact H.
  destruct (game_over g); [apply reset_game_session|exact H].
Qed.

(** X22.  Throughout a session, from the state [reset_game] sets up and
    whatever events and random draws the loop receives, the score equals
    the number of pipes passed and is not negative, the player stays at
    x = 100, the gap is between 100 and 200, the speed at least 4, and every
    pipe has a gap between 100 and 200 and is not right of the screen
    edge. *)
Theorem session_invariants :
  forall (g : Game) (draw : Z) (ticks : list Tick),
    session_ok (run (reset_game g draw) ticks).
Proof.
  intros g draw ticks.
  assert (H : forall ticks s, session_ok s -> session_ok (run s ticks)).
  { clear. induction ticks as [|t ticks IH]; intros s Hs; simpl; [exact Hs|].
    destruct (running s); [|exact Hs]. apply IH. unfold frame.
    apply update_session. unfold handle_input.
    generalize (tick_events t). intros evs. revert s Hs.
    induction evs as [|e evs IHe]; intros s Hs; simpl; [exact Hs|].
    apply IHe. now apply handle_input_event_session. }
  apply H. apply reset_game_session.
Qed.

End FlappyMore.

(** * Further properties of the training-session script *)

Module TrainingMore.
Import Console Training TrainingCases TrainingFacts.
Local Open Scope Z_scope.

Lemma song_loop_sound target inputs : forall st0 out out' st rest,
  song_loop target st0 inputs out = (out', Some (st, rest)) ->
  exists songs,
    inputs = songs ++ rest
    /\ song_length st = song_length st0 ++ songs
    /\ total st = total st0 + sum songs
    /\ song_counter st = song_counter st0 + Z.of_nat (List.length songs)
    /\ target <= total st
    /\ (target <= total st0 -> songs = [])
    /\ (total st0 < target ->
        songs <> [] /\ total st0 + sum (removelast songs) < target)
    /\ out' = out ++ song_transcript songs.
Proof.
  induction inputs as [|d inputs IH]; intros st0 out out' st rest H;
    simpl in H; destruct (Z.ltb_spec (total st0) target) as [Hlt|Hge];
    try discriminate.
  - injection H as <- <- <-. exists []. simpl.
    rewrite !app_nil_r. repeat split; try lia.
  - apply IH in H. cbn [total song_length song_counter] in H.
    destruct H as (songs & Hin & Hsl & Ht & Hc & Hfin & Hnil & Hmore & Hout).
    exists (d :: songs).
    split; [now rewrite Hin|].
    split; [now rewrite Hsl, <- app_assoc|].
    split; [rewrite Ht; simpl; lia|].
    split; [rewrite Hc; simpl List.length; lia|].
    split; [exact Hfin|]. split; [lia|]. split.
    + intros _. split; [discriminate|].
      destruct (Z.leb_spec target (total st0 + d)) as [Hle|Hgt].
      * rewrite (Hnil Hle). simpl. lia.
      * destruct (Hmore Hgt) as [Hne Hsum].
        destruct songs as [|d' songs']; [congruence|].
        change (removelast (d :: d' :: songs'))
          with (d :: removelast (d' :: songs')).
        simpl sum. simpl sum in Hsum. unfold sum in *. simpl. lia.
    + rewrite Hout. unfold song_transcript.
      destruct (Z.leb_spec target (total st0 + d)) as [Hle|Hgt].
      * rewrite (Hnil Hle). simpl. now rewrite <- !app_assoc.
      * destruct (Hmore Hgt) as [Hne _].
        destruct songs as [|d' songs']; [congruence|].
        simpl. now rewrite <- !app_assoc.
  - injection H as <- <- <-. exists []. simpl.
    rewrite !app_nil_r. repeat split; try lia.
Qed.

Lemma song_loop_complete target : forall inputs st0 out n,
  target <= total st0 + sum (firstn n inputs) ->
  exists out' st rest, song_loop target st0 inputs out = (out', Some (st, rest)).
Proof.
  induction inputs as [|d inputs IH]; intros st0 out n Hn; simpl.
  - destruct (Z.ltb_spec (total st0) target) as [Hlt|Hge]; [|eauto].
    rewrite firstn_nil in Hn. simpl in Hn. lia.
  - destruct (Z.ltb_spec (total st0) target) as [Hlt|Hge]; [|eauto].
    destruct n as [|n]; [simpl in Hn; lia|].
    apply (IH _ _ n). simpl in *. lia.
Qed.

(** X23.  The song loop started on an empty play list stops on the
    first song with which the durations entered reach the length of the
    session: at the exit the counter is the number of songs kept, the total
    is their sum and at least the session length, while without the last
    song it was still below it; a prompt was written per song and the line
    "You have entered enough songs" once, last.  The loop reaches its exit
    whenever some prefix of the input sums up to the session length. *)
Theorem songs_fill_the_session :
  forall (training_session : Z) (inputs : list Z) (out : list Output),
    (forall out' st rest,
        song_loop training_session (mkSongs 0 [] 0) inputs out
        = (out', Some (st, rest)) ->
        inputs = song_length st ++ rest
        /\ total st = sum (song_length st)
        /\ song_counter st = Z.of_nat (List.length (song_length st))
        /\ training_session <= total st
        /\ (0 < training_session ->
            song_length st <> []
            /\ sum (removelast (song_length st)) < training_session)
        /\ out' = out ++ song_transcript (song_length st))
    /\ (forall n,
           training_session <= sum (firstn n inputs) ->
           exists out' st rest,
             song_loop training_session (mkSongs 0 [] 0) inputs out
             = (out', Some (st, rest))).
Proof.
  intros target inputs out. split.
  - intros out' st rest H. apply song_loop_sound in H.
    destruct H as (songs & Hin & Hsl & Ht & Hc & Hfin & _ & Hmore & Hout).
    simpl in Hsl, Ht, Hc, Hmore. subst songs.
    repeat split; auto.
    + now apply Hmore.
    + destruct (Hmore H) as [_ Hs]. exact Hs.
  - intros n Hn. apply (song_loop_complete target inputs _ out n). exact Hn.
Qed.

(** The theorem on a session of 10 minutes and the songs 400, 150, 100
    and 30: the first three are kept (650 seconds), the fourth is left. *)
Lemma songs_fill_the_session_witness :
  exists out' st,
    song_loop 600 (mkSongs 0 [] 0) [400; 150; 100; 30] []
    = (out', Some (st, [30]))
    /\ song_length st = [400; 150; 100] /\ total st = 650
    /\ 600 <= total st /\ sum (removelast (song_length st)) < 600.
Proof.
  destruct (songs_fill_the_session 600 [400; 150; 100; 30] []) as (Hs & Hc).
  destruct (Hc 3%nat) as (out' & st & rest & Hrun); [simpl; lia|].
  pose proof Hrun as Heq. vm_compute in Heq. injection Heq as <- <- <-.
  destruct (Hs _ _ _ Hrun) as (_ & Ht & _ & Hge & Hlast & _).
  eexists. eexists. split; [exact Hrun|].
  split; [reflexivity|]. split; [reflexivity|].
  split; [exact Hge|]. apply Hlast. lia.
Defined.

(** *** The summary *)

Lemma str_is_not_foam n text :
  String.eqb (str n ++ text) foam_message = false.
Proof.
  unfold str. destruct (Z.to_int n) as [u|u]; [destruct u|]; reflexivity.
Qed.

Lemma header_is_not_foam text :
  String.eqb ("The number of songs you have played is " ++ text) foam_message
  = false.
Proof. reflexivity. Qed.

Lemma footer_is_not_foam text :
  String.eqb ("Your total is " ++ text) foam_message = false.
Proof. reflexivity. Qed.

Lemma summary_lines_foam songs : forall counter foam,
  foam_starts (summary_lines songs counter foam)
  = if (counter <=? foam) && (foam <? counter + Z.of_nat (List.length songs))
    then 1%nat else 0%nat.
Proof.
  induction songs as [|d songs IH]; intros counter foam.
  - simpl. replace (counter + 0) with counter by lia.
    destruct (Z.leb_spec counter foam), (Z.ltb_spec foam counter);
      try reflexivity; lia.
  - cbn [summary_lines]. unfold foam_starts in *.
    rewrite filter_app, length_app, IH. cbn [filter].
    rewrite str_is_not_foam.
    replace (Z.of_nat (List.length (d :: songs)))
      with (1 + Z.of_nat (List.length songs)) by (simpl List.length; lia).
    destruct (Z.eqb_spec foam counter) as [->|Hne].
    + cbn [filter]. change (String.eqb foam_message foam_message) with true.
      cbn [List.length].
      destruct (Z.leb_spec (counter + 1) counter); [lia|].
      destruct (Z.leb_spec counter counter); [|lia].
      destruct (Z.ltb_spec counter (counter + (1 + Z.of_nat (List.length songs))));
        [reflexivity|lia].
    + cbn [filter List.length].
      destruct (Z.leb_spec (counter + 1) foam), (Z.leb_spec counter foam),
        (Z.ltb_spec foam (counter + 1 + Z.of_nat (List.length songs))),
        (Z.ltb_spec foam (counter + (1 + Z.of_nat (List.length songs))));
        simpl; try reflexivity; lia.
Qed.

(** X24.  In the summary the foam machine is started exactly once when
    the number drawn lies between 1 and the number of songs, as
    [random.randint(1, song_counter)] guarantees, and never otherwise. *)
Theorem foam_machine_starts_once :
  forall (st : Songs) (foam_machine : Z),
    foam_starts (summary st foam_machine)
    = if (1 <=? foam_machine)
         && (foam_machine <=? Z.of_nat (List.length (song_length st)))
      then 1%nat else 0%nat.
Proof.
  intros st foam. unfold summary, foam_starts.
  cbn [filter]. rewrite header_is_not_foam, filter_app, length_app.
  change (List.length (filter _ (summary_lines (song_length st) 1 foam)))
    with (foam_starts (summary_lines (song_length st) 1 foam)).
  rewrite summary_lines_foam. cbn [filter].
  rewrite footer_is_not_foam. cbn [List.length].
  destruct (Z.leb_spec 1 foam),
    (Z.ltb_spec foam (1 + Z.of_nat (List.length (song_length st)))),
    (Z.leb_spec foam (Z.of_nat (List.length (song_length st))));
    simpl; try reflexivity; lia.
Qed.

(** *** The whole script *)

Lemma read_training_session_sound inputs out v rest :
  read_training_session inputs = (out, Accepted v rest) ->
  10 <= v <= 30
  /\ exists rejected,
      inputs = rejected ++ v :: rest
      /\ Forall outside rejected /\ out = transcript rejected.
Proof.
  intros H. destruct inputs as [|entered inputs]; simpl in H; [discriminate|].
  apply validation_loop_sound in H.
  destruct H as (Hv & rejected & Heq & Hrej & ->).
  split; [exact Hv|]. exists rejected. repeat split; assumption.
Qed.

(** X25.  The script never hands [random.randint] an empty range: the
    accepted session length is at least 10 minutes, so the song loop keeps
    at least one song.  When the script runs to its end, the input was some
    rejected lengths, an accepted length of 10 to 30 minutes, and songs
    whose durations reach that length in seconds with the last song and not
    before; and the terminal shows the validation, the song prompts and the
    summary, in this order. *)
Theorem program_never_draws_from_nothing :
  forall (inputs : list Z) (foam_machine : Z),
    snd (program inputs foam_machine) <> EmptyRange
    /\ (snd (program inputs foam_machine) = Completed ->
        exists rejected minutes songs rest,
          inputs = rejected ++ minutes :: songs ++ rest
          /\ Forall outside rejected /\ 10 <= minutes <= 30
          /\ songs <> []
          /\ minutes * 60 <= sum songs
          /\ sum (removelast songs) < minutes * 60
          /\ fst (program inputs foam_machine)
             = transcript rejected ++ song_transcript songs
               ++ summary (mkSongs (sum songs) songs
                                   (Z.of_nat (List.length songs)))
                          foam_machine).
Proof.
  intros inputs foam. unfold program.
  destruct (read_training_session inputs) as [out [ts inputs'|]] eqn:Er;
    [|split; [discriminate|discriminate]].
  destruct (read_training_session_sound inputs _ _ _ Er)
    as (Hts & rejected & Hin & Hrej & Hout).
  cbv zeta.
  destruct (song_loop (ts * 60) (mkSongs 0 [] 0) inputs' out)
    as [out' [[st rest]|]] eqn:El; [|split; discriminate].
  apply song_loop_sound in El.
  destruct El as (songs & Hin' & Hsl & Ht & Hc & Hfin & _ & Hmore & Hout').
  simpl in Hsl, Ht, Hc, Hmore.
  destruct Hmore as [Hne Hlast]; [lia|].
  assert (Hcount : (song_counter st <? 1) = false).
  { apply Z.ltb_ge. rewrite Hc. destruct songs; [congruence|].
    simpl List.length. lia. }
  rewrite Hcount. split; [discriminate|]. intros _.
  exists rejected, ts, songs, rest. simpl fst.
  rewrite Hin, Hin', Hout', Hout, <- app_assoc.
  repeat split; auto; try lia.
  destruct st as [t sl sc]. simpl in *. subst. reflexivity.
Qed.

(** The theorem on a user who types 5, then 10, then the songs 400 and
    250: the script runs to its end on these. *)
Lemma program_never_draws_from_nothing_witness :
  exists rejected minutes songs rest,
    [5; 10; 400; 250] = rejected ++ minutes :: songs ++ rest
    /\ Forall outside rejected /\ 10 <= minutes <= 30
    /\ songs <> []
    /\ minutes * 60 <= sum songs
    /\ sum (removelast songs) < minutes * 60
    /\ fst (program [5; 10; 400; 250] 2)
       = transcript rejected ++ song_transcript songs
         ++ summary (mkSongs (sum songs) songs (Z.of_nat (List.length songs))) 2.
Proof.
  apply (program_never_draws_from_nothing [5; 10; 400; 250] 2).
  vm_compute. reflexivity.
Defined.

End TrainingMore.
